(** * Platform Trust Service core (src/libpts/pts/pts.c)

    A shallow embedding of the PTS object of libpts: the Diffie-Hellman
    secret negotiation, the table of extended PCR registers with its
    selection bitmap, the construction of the TPM_QUOTE_INFO and
    TPM_QUOTE_INFO2 structures, the verification of the quote signature and
    the path validation.

    Machine integers are [Z] with the wrap-around of their C type written
    out, bytes are [Z] in [0, 256), a [chunk_t] is its byte list (or the
    NULL chunk), the C arrays [pcrs] and [pcr_select] are lists read with
    [!!] and written with [<[_:=_]>]. A method that mutates [this] returns
    the new object next to its C return value; a method that follows a
    pointer the source does not test returns in [outcome], whose [NullDeref]
    is the dereference of NULL. *)

From Stdlib Require Import ZArith List Bool Lia Ascii.
From stdpp Require Import base option list strings.
Import ListNotations.
Local Open Scope Z_scope.

(** ** Constants of pts.c *)

(** Maximum number of PCR's of TPM, TPM Spec 1.2 *)
Definition PCR_MAX_NUM : Z := 24.

(** Number of bytes that can be saved in a PCR of TPM, TPM Spec 1.2 *)
Definition PCR_LEN : Z := 20.

(** Modelled from the spec: TPM_TAG_QUOTE_INFO2 is a macro of the TSS headers,
    which are not part of pts.c; the comment above get_quote_info and the
    spec (4.5, extended layout) both give the structure tag 0x0036. *)
Definition TPM_TAG_QUOTE_INFO2 : Z := 0x0036.

(** TPM_LOC_ZERO is a macro of the TSS headers that pts.c includes
    (<trousers/tss.h>, from tss/tpm.h), which are not part of pts.c. It is
    the bit of the TPM_LOCALITY_SELECTION mask that stands for locality
    zero, bit 0 of the byte, so its value is 0x01 (TPM_LOC_ONE is 0x02,
    TPM_LOC_TWO 0x04, and so on). *)
Definition TPM_LOC_ZERO : Z := 0x01.

(** errno values tested by is_path_valid (<errno.h>, Linux numbering). *)
Definition ENOENT : Z := 2.
Definition EFAULT : Z := 14.
Definition ENOTDIR : Z := 20.

(** ** Chunks *)

(** chunk_t: [None] is the chunk whose ptr is NULL (chunk_empty), [Some bs]
    a chunk whose ptr addresses the bytes [bs] and whose len is their
    number. *)
Definition chunk_t : Type := option (list Z).

Definition chunk_empty : chunk_t := None.

Definition chunk_len (c : chunk_t) : Z :=
  match c with
  | Some bs => Z.of_nat (length bs)
  | None => 0
  end.

Definition chunk_data (c : chunk_t) : list Z :=
  match c with
  | Some bs => bs
  | None => []
  end.

(** The test [!c.ptr]. *)
Definition chunk_is_null (c : chunk_t) : bool :=
  match c with
  | Some _ => false
  | None => true
  end.

(** Modelled from the spec: chunk_clone is a helper of libstrongswan
    (chunk.h), not part of pts.c; the spec (4.3, 5) says a stored value is
    always a clone of the input, an independent copy of the same bytes.
    What the helper returns for a chunk of length 0 is not visible from
    pts.c, so the lemmas on what add_pcr stores are stated for values that
    are not empty. *)
Definition chunk_clone (bs : list Z) : chunk_t := Some bs.

(** ** Dereferencing *)

Inductive outcome (A : Type) : Type :=
  | Ret (a : A)
  | NullDeref.
Arguments Ret {A} a.
Arguments NullDeref {A}.

Definition obind {A B : Type} (o : outcome A) (k : A -> outcome B) : outcome B :=
  match o with
  | Ret a => k a
  | NullDeref => NullDeref
  end.

(** [deref p]: following the pointer [p], as in [p->method(p, ...)]; the
    functions below write [x ← deref p; ...] for it. *)
Definition deref {A : Type} (p : option A) : outcome A :=
  match p with
  | Some a => Ret a
  | None => NullDeref
  end.

#[global] Instance outcome_bind : MBind outcome :=
  fun A B (k : A -> outcome B) (o : outcome A) => obind o k.

(** ** The collaborators of pts.c

    Hashers, random generators and Diffie-Hellman objects come from the
    crypto factory [lib->crypto]; credentials and public keys are objects
    with methods. They are interfaces here: records of functions. *)

(** hash_algorithm_t (crypto/hashers/hasher.h): the members that pts.c and
    the measurement algorithms of libpts name. *)
Inductive hash_algorithm_t : Type :=
  | HASH_UNKNOWN
  | HASH_SHA1
  | HASH_SHA256
  | HASH_SHA384.

(** signature_scheme_t (credentials/keys/public_key.h): the scheme that
    verify_quote_signature asks for, among others. *)
Inductive signature_scheme_t : Type :=
  | SIGN_UNKNOWN
  | SIGN_RSA_EMSA_PKCS1_SHA1.

(** pts_proto_caps_flag_t: the flags of the capability bitset. *)
Inductive pts_proto_caps_flag_t : Type :=
  | PTS_PROTO_CAPS_C
  | PTS_PROTO_CAPS_V
  | PTS_PROTO_CAPS_D
  | PTS_PROTO_CAPS_T
  | PTS_PROTO_CAPS_X.

(** A hasher: the digest it computes and the data fed so far. *)
Record hasher_t : Type := {
  hasher_digest : list Z -> list Z;
  hasher_pending : list Z
}.

(** Modelled from the spec: hasher_t.allocate_hash belongs to libstrongswan
    (crypto/hashers/hasher.h), not part of pts.c; called with a NULL result
    pointer it only feeds the data, called with a result pointer it returns
    the digest of everything fed, so that the calls of calculate_secret
    compute what the spec (4.2) writes Digest(alg, a || b || c || d). *)
Definition allocate_hash (h : hasher_t) (data : list Z) (want_hash : bool)
  : hasher_t * chunk_t :=
  if want_hash
  then ({| hasher_digest := hasher_digest h; hasher_pending := [] |},
        Some (hasher_digest h (hasher_pending h ++ data)))
  else ({| hasher_digest := hasher_digest h;
           hasher_pending := hasher_pending h ++ data |},
        None).

(** A Diffie-Hellman object: its group and the peer's public value. *)
Record diffie_hellman_t : Type := {
  dh_group : Z;
  dh_other_public_value : chunk_t
}.

Record public_key_t : Type := {
  (** public_key_t.verify *)
  verify : signature_scheme_t -> list Z -> list Z -> bool;
  (** public_key_t.get_fingerprint for KEYID_PUBKEY_INFO_SHA1 *)
  get_fingerprint : option (list Z)
}.

Record certificate_t : Type := {
  (** certificate_t.get_public_key: NULL when no key can be extracted *)
  get_public_key : option public_key_t
}.

(** What pts.c reaches through [lib] and through the tables of libpts. *)
Record library_t : Type := {
  (** lib->crypto->create_hasher: the digest of the algorithm, or NULL *)
  create_hasher : hash_algorithm_t -> option (list Z -> list Z);
  (** lib->crypto->create_rng(RNG_STRONG) with its allocate_bytes, or NULL *)
  create_rng : option (Z -> list Z);
  (** lib->crypto->create_dh; pts_dh_group_to_ike is folded into it *)
  create_dh : Z -> option diffie_hellman_t;
  (** diffie_hellman_t.get_my_public_value *)
  get_my_dh_public_value : diffie_hellman_t -> list Z;
  (** diffie_hellman_t.get_shared_secret: the secret on SUCCESS *)
  get_shared_secret : diffie_hellman_t -> option (list Z);
  (** pts_meas_algo_to_hash (pts_meas_algo.c) *)
  pts_meas_algo_to_hash : Z -> hash_algorithm_t;
  (** the value of PTS_MEAS_ALGO_SHA256 (pts_meas_algo.h) *)
  PTS_MEAS_ALGO_SHA256 : Z
}.

Definition hasher_create (lib : library_t) (alg : hash_algorithm_t)
  : option hasher_t :=
  match create_hasher lib alg with
  | Some d => Some {| hasher_digest := d; hasher_pending := [] |}
  | None => None
  end.

(** ** Private data of a pts_t object *)

Record private_pts_t : Type := {
  (** PTS Protocol Capabilities *)
  proto_caps : list pts_proto_caps_flag_t;
  (** PTS Measurement Algorithm *)
  algorithm : Z;
  (** DH Hash Algorithm *)
  dh_hash_algorithm : Z;
  (** PTS Diffie-Hellman Secret *)
  dh : option diffie_hellman_t;
  (** PTS Diffie-Hellman Initiator Nonce *)
  initiator_nonce : chunk_t;
  (** PTS Diffie-Hellman Responder Nonce *)
  responder_nonce : chunk_t;
  (** Secret assessment value to be used for TPM Quote as an external data *)
  secret : chunk_t;
  (** Platform and OS Info *)
  platform_info : option (list Z);
  (** TRUE if IMC-PTS, FALSE if IMV-PTS *)
  is_imc : bool;
  (** Do we have an activated TPM *)
  has_tpm : bool;
  (** Contains a TPM_CAP_VERSION_INFO struct *)
  tpm_version_info : chunk_t;
  (** Contains TSS Blob structure for AIK *)
  aik_blob : chunk_t;
  (** Contains a Attestation Identity Key or Certificate *)
  aik : option certificate_t;
  (** Table of extended PCRs with corresponding values *)
  pcrs : list (option (list Z));
  (** Length of PCR registers *)
  pcr_len : Z;
  (** Number of extended PCR registers *)
  pcr_count : Z;
  (** Highest extended PCR register *)
  pcr_max : Z;
  (** Bitmap of extended PCR registers *)
  pcr_select : list Z
}.

(** Assignments to one field of [this]. *)

Definition set_dh (v : option diffie_hellman_t) (this : private_pts_t) :=
  {| proto_caps := proto_caps this; algorithm := algorithm this;
     dh_hash_algorithm := dh_hash_algorithm this; dh := v;
     initiator_nonce := initiator_nonce this;
     responder_nonce := responder_nonce this; secret := secret this;
     platform_info := platform_info this; is_imc := is_imc this;
     has_tpm := has_tpm this; tpm_version_info := tpm_version_info this;
     aik_blob := aik_blob this; aik := aik this; pcrs := pcrs this;
     pcr_len := pcr_len this; pcr_count := pcr_count this;
     pcr_max := pcr_max this; pcr_select := pcr_select this |}.

Definition set_initiator_nonce (v : chunk_t) (this : private_pts_t) :=
  {| proto_caps := proto_caps this; algorithm := algorithm this;
     dh_hash_algorithm := dh_hash_algorithm this; dh := dh this;
     initiator_nonce := v;
     responder_nonce := responder_nonce this; secret := secret this;
     platform_info := platform_info this; is_imc := is_imc this;
     has_tpm := has_tpm this; tpm_version_info := tpm_version_info this;
     aik_blob := aik_blob this; aik := aik this; pcrs := pcrs this;
     pcr_len := pcr_len this; pcr_count := pcr_count this;
     pcr_max := pcr_max this; pcr_select := pcr_select this |}.

Definition set_responder_nonce (v : chunk_t) (this : private_pts_t) :=
  {| proto_caps := proto_caps this; algorithm := algorithm this;
     dh_hash_algorithm := dh_hash_algorithm this; dh := dh this;
     initiator_nonce := initiator_nonce this;
     responder_nonce := v; secret := secret this;
     platform_info := platform_info this; is_imc := is_imc this;
     has_tpm := has_tpm this; tpm_version_info := tpm_version_info this;
     aik_blob := aik_blob this; aik := aik this; pcrs := pcrs this;
     pcr_len := pcr_len this; pcr_count := pcr_count this;
     pcr_max := pcr_max this; pcr_select := pcr_select this |}.

Definition set_secret (v : chunk_t) (this : private_pts_t) :=
  {| proto_caps := proto_caps this; algorithm := algorithm this;
     dh_hash_algorithm := dh_hash_algorithm this; dh := dh this;
     initiator_nonce := initiator_nonce this;
     responder_nonce := responder_nonce this; secret := v;
     platform_info := platform_info this; is_imc := is_imc this;
     has_tpm := has_tpm this; tpm_version_info := tpm_version_info this;
     aik_blob := aik_blob this; aik := aik this; pcrs := pcrs this;
     pcr_len := pcr_len this; pcr_count := pcr_count this;
     pcr_max := pcr_max this; pcr_select := pcr_select this |}.

Definition set_aik_field (v : option certificate_t) (this : private_pts_t) :=
  {| proto_caps := proto_caps this; algorithm := algorithm this;
     dh_hash_algorithm := dh_hash_algorithm this; dh := dh this;
     initiator_nonce := initiator_nonce this;
     responder_nonce := responder_nonce this; secret := secret this;
     platform_info := platform_info this; is_imc := is_imc this;
     has_tpm := has_tpm this; tpm_version_info := tpm_version_info this;
     aik_blob := aik_blob this; aik := v; pcrs := pcrs this;
     pcr_len := pcr_len this; pcr_count := pcr_count this;
     pcr_max := pcr_max this; pcr_select := pcr_select this |}.

Definition set_tpm_version_info_field (v : chunk_t) (this : private_pts_t) :=
  {| proto_caps := proto_caps this; algorithm := algorithm this;
     dh_hash_algorithm := dh_hash_algorithm this; dh := dh this;
     initiator_nonce := initiator_nonce this;
     responder_nonce := responder_nonce this; secret := secret this;
     platform_info := platform_info this; is_imc := is_imc this;
     has_tpm := has_tpm this; tpm_version_info := v;
     aik_blob := aik_blob this; aik := aik this; pcrs := pcrs this;
     pcr_len := pcr_len this; pcr_count := pcr_count this;
     pcr_max := pcr_max this; pcr_select := pcr_select this |}.

(** The four fields of the PCR table and the register length. *)
Definition set_registry (tbl : list (option (list Z))) (len count max : Z)
    (sel : list Z) (this : private_pts_t) :=
  {| proto_caps := proto_caps this; algorithm := algorithm this;
     dh_hash_algorithm := dh_hash_algorithm this; dh := dh this;
     initiator_nonce := initiator_nonce this;
     responder_nonce := responder_nonce this; secret := secret this;
     platform_info := platform_info this; is_imc := is_imc this;
     has_tpm := has_tpm this; tpm_version_info := tpm_version_info this;
     aik_blob := aik_blob this; aik := aik this; pcrs := tbl;
     pcr_len := len; pcr_count := count;
     pcr_max := max; pcr_select := sel |}.

(** ** Creation *)

(** What pts_create finds on the platform: the outcome of
    extract_platform_info, of has_tpm (the TPM version info when a TPM
    answers), of load_aik and of load_aik_blob. *)
Record platform_t : Type := {
  probe_platform_info : option (list Z);
  probe_tpm_version_info : option (list Z);
  probe_aik : option certificate_t;
  probe_aik_blob : chunk_t
}.

Definition pts_create (lib : library_t) (imc : bool) (pf : platform_t)
  : private_pts_t :=
  let this :=
    {| proto_caps := [PTS_PROTO_CAPS_V];
       algorithm := PTS_MEAS_ALGO_SHA256 lib;
       dh_hash_algorithm := PTS_MEAS_ALGO_SHA256 lib;
       dh := None; initiator_nonce := chunk_empty;
       responder_nonce := chunk_empty; secret := chunk_empty;
       platform_info := None; is_imc := imc; has_tpm := false;
       tpm_version_info := chunk_empty; aik_blob := chunk_empty;
       aik := None;
       pcrs := replicate (Z.to_nat PCR_MAX_NUM) None;
       pcr_len := 0; pcr_count := 0; pcr_max := 0;
       pcr_select := replicate (Z.to_nat (PCR_MAX_NUM / 8)) 0 |} in
  if imc then
    match probe_tpm_version_info pf with
    | Some info =>
        {| proto_caps := proto_caps this ++ [PTS_PROTO_CAPS_T; PTS_PROTO_CAPS_D];
           algorithm := algorithm this;
           dh_hash_algorithm := dh_hash_algorithm this; dh := dh this;
           initiator_nonce := initiator_nonce this;
           responder_nonce := responder_nonce this; secret := secret this;
           platform_info := probe_platform_info pf; is_imc := is_imc this;
           has_tpm := true; tpm_version_info := chunk_clone info;
           aik_blob := probe_aik_blob pf; aik := probe_aik pf;
           pcrs := pcrs this; pcr_len := PCR_LEN;
           pcr_count := pcr_count this; pcr_max := pcr_max this;
           pcr_select := pcr_select this |}
    | None =>
        {| proto_caps := proto_caps this; algorithm := algorithm this;
           dh_hash_algorithm := dh_hash_algorithm this; dh := dh this;
           initiator_nonce := initiator_nonce this;
           responder_nonce := responder_nonce this; secret := secret this;
           platform_info := probe_platform_info pf; is_imc := is_imc this;
           has_tpm := has_tpm this;
           tpm_version_info := tpm_version_info this;
           aik_blob := aik_blob this; aik := aik this;
           pcrs := pcrs this; pcr_len := pcr_len this;
           pcr_count := pcr_count this; pcr_max := pcr_max this;
           pcr_select := pcr_select this |}
    end
  else
    {| proto_caps := proto_caps this ++ [PTS_PROTO_CAPS_T; PTS_PROTO_CAPS_D];
       algorithm := algorithm this;
       dh_hash_algorithm := dh_hash_algorithm this; dh := dh this;
       initiator_nonce := initiator_nonce this;
       responder_nonce := responder_nonce this; secret := secret this;
       platform_info := platform_info this; is_imc := is_imc this;
       has_tpm := has_tpm this; tpm_version_info := tpm_version_info this;
       aik_blob := aik_blob this; aik := aik this;
       pcrs := pcrs this; pcr_len := pcr_len this;
       pcr_count := pcr_count this; pcr_max := pcr_max this;
       pcr_select := pcr_select this |}.

(** ** Secret negotiation *)

(** create_dh_nonce: a fresh DH object replaces the old one, and the nonce
    of this side is drawn: the responder nonce on an IMC, the initiator
    nonce on an IMV. *)
Definition create_dh_nonce (lib : library_t) (this : private_pts_t)
    (group : Z) (nonce_len : Z) : bool * private_pts_t :=
  let this := set_dh (create_dh lib group) this in
  match create_rng lib with
  | None => (false, this)
  | Some allocate_bytes =>
      let nonce : chunk_t := Some (allocate_bytes nonce_len) in
      (true,
       if is_imc this
       then set_responder_nonce nonce this
       else set_initiator_nonce nonce this)
  end.

(** get_my_public_value: the DH public value and the nonce of this side. *)
Definition get_my_public_value (lib : library_t) (this : private_pts_t)
  : outcome (list Z * chunk_t) :=
  d ← deref (dh this);
  Ret (get_my_dh_public_value lib d,
       if is_imc this then responder_nonce this else initiator_nonce this).

(** set_peer_public_value: the peer's DH value goes to the DH object, a
    clone of the peer's nonce to the slot of the other side. *)
Definition set_peer_public_value (this : private_pts_t)
    (value : list Z) (nonce : list Z) : outcome private_pts_t :=
  d ← deref (dh this);
  let d := {| dh_group := dh_group d; dh_other_public_value := Some value |} in
  let this := set_dh (Some d) this in
  let nonce := chunk_clone nonce in
  Ret (if is_imc this
       then set_initiator_nonce nonce this
       else set_responder_nonce nonce this).

(** calculate_secret *)
Definition calculate_secret (lib : library_t) (this : private_pts_t)
  : outcome (bool * private_pts_t) :=
  (* Check presence of nonces *)
  if (chunk_len (initiator_nonce this) =? 0)
     || (chunk_len (responder_nonce this) =? 0)
  then Ret (false, this)
  else
    (* Calculate the DH secret *)
    d ← deref (dh this);
    match get_shared_secret lib d with
    | None => Ret (false, this)
    | Some shared_secret =>
        (* Calculate the secret assessment value *)
        let hash_alg := pts_meas_algo_to_hash lib (dh_hash_algorithm this) in
        hasher ← deref (hasher_create lib hash_alg);
        let hasher := fst (allocate_hash hasher [49 (* '1' *)] false) in
        let hasher :=
          fst (allocate_hash hasher (chunk_data (initiator_nonce this)) false) in
        let hasher :=
          fst (allocate_hash hasher (chunk_data (responder_nonce this)) false) in
        let secret := snd (allocate_hash hasher shared_secret true) in
        (* Truncate the hash to 20 bytes to fit the ExternalData argument
           of the TPM Quote command *)
        let secret := take 20%nat <$> secret in
        Ret (true, set_secret secret this)
    end.

(** ** Credentials *)

Definition set_aik (this : private_pts_t) (cert : certificate_t)
  : private_pts_t :=
  set_aik_field (Some cert) this.

(** get_aik_keyid: both the credential and its public key are tested. *)
Definition get_aik_keyid (this : private_pts_t) : bool * chunk_t :=
  match aik this with
  | None => (false, chunk_empty)
  | Some cert =>
      match get_public_key cert with
      | None => (false, chunk_empty)
      | Some public =>
          match get_fingerprint public with
          | Some keyid => (true, Some keyid)
          | None => (false, chunk_empty)
          end
      end
  end.

(** verify_quote_signature: [this->aik] is followed untested. *)
Definition verify_quote_signature (this : private_pts_t)
    (data signature : list Z) : outcome bool :=
  cert ← deref (aik this);
  match get_public_key cert with
  | None => Ret false
  | Some aik_pub_key =>
      if negb (verify aik_pub_key SIGN_RSA_EMSA_PKCS1_SHA1 data signature)
      then Ret false
      else Ret true
  end.

(** ** Path validation *)

(** is_path_valid, as a function of what stat() did: [None] when it
    returned 0, [Some e] when it failed with errno [e]. The error code comes
    back next to the return value; [error_code] is what the caller's
    variable held before. TCG_PTS_FILE_NOT_FOUND and TCG_PTS_INVALID_PATH
    are enumerators of pts_error.h, given here as arguments. *)
Definition is_path_valid (TCG_PTS_FILE_NOT_FOUND TCG_PTS_INVALID_PATH : Z)
    (stat : option Z) (error_code : Z) : bool * Z :=
  let error_code := 0 in
  match stat with
  | None => (true, error_code)
  | Some errno =>
      if (errno =? ENOENT) || (errno =? ENOTDIR)
      then (true, TCG_PTS_FILE_NOT_FOUND)
      else if errno =? EFAULT
      then (true, TCG_PTS_INVALID_PATH)
      else (false, error_code)
  end.

(** ** The table of extended PCRs

    The PCR number of select_pcr and add_pcr is a u_int32_t: [pcr] ranges
    over [0, 2^32). *)

(** clear_pcrs: the slots 0..pcr_max are freed and set to NULL, the counters
    and the bitmap are zeroed; pcr_len is left as it is. *)
Definition clear_pcrs (this : private_pts_t) : private_pts_t :=
  let tbl :=
    foldl (fun tbl i => <[i := None]> tbl) (pcrs this)
          (seq 0 (S (Z.to_nat (pcr_max this)))) in
  set_registry tbl (pcr_len this) 0 0
               (replicate (Z.to_nat (PCR_MAX_NUM / 8)) 0) this.

(** select_pcr *)
Definition select_pcr (this : private_pts_t) (pcr : Z)
  : bool * private_pts_t :=
  if PCR_MAX_NUM <=? pcr then (false, this)
  else
    (* Determine PCR selection flag *)
    let i := pcr / 8 in
    let f := Z.shiftl 1 (pcr - 8 * i) in
    let byte := default 0 (pcr_select this !! Z.to_nat i) in
    (* Has this PCR already been selected? *)
    if Z.land byte f =? 0
    then (true,
          set_registry (pcrs this) (pcr_len this)
            ((pcr_count this + 1) mod 2 ^ 32)
            (Z.max (pcr_max this) pcr)
            (<[Z.to_nat i := Z.lor byte f mod 256]> (pcr_select this))
            this)
    else (true, this).

(** add_pcr: the return value and the object afterwards of every call
    that returns. The comparison of the stored value with [pcr_before] only
    writes a debug message, so the content of [pcr_before] does not reach
    the result; the read that the comparison makes is in [add_pcr_run]
    below, which gives this result wherever that read stays inside
    [pcr_before]. *)
Definition add_pcr (this : private_pts_t) (pcr : Z)
    (pcr_before pcr_after : list Z) : bool * private_pts_t :=
  if PCR_MAX_NUM <=? pcr then (false, this)
  else
    let after_len := Z.of_nat (length pcr_after) in
    (* Is the length of the PCR registers already set? *)
    if negb (pcr_len this =? 0) && negb (after_len =? pcr_len this)
    then (false, this)
    else
      let len := if pcr_len this =? 0 then after_len else pcr_len this in
      match pcrs this !! Z.to_nat pcr with
      | Some (Some old) =>
          (* Has the value of the PCR register already been assigned?
             remove the old PCR value, store the current one *)
          (true,
           set_registry (<[Z.to_nat pcr := chunk_clone pcr_after]> (pcrs this))
             len (pcr_count this) (pcr_max this) (pcr_select this) this)
      | _ =>
          (* add extended PCR Register *)
          let byte := default 0 (pcr_select this !! Z.to_nat (pcr / 8)) in
          (true,
           set_registry (<[Z.to_nat pcr := chunk_clone pcr_after]> (pcrs this))
             len
             ((pcr_count this + 1) mod 2 ^ 32)
             (Z.max (pcr_max this) pcr)
             (<[Z.to_nat (pcr / 8) :=
                  Z.lor byte (Z.shiftl 1 (pcr mod 8)) mod 256]>
                (pcr_select this))
             this)
      end.

Definition get_pcr_len (this : private_pts_t) : Z := pcr_len this.

(** ** Writing the quote structures *)

(** Modelled from the spec: bio_writer_t is the buffer writer of
    libstrongswan (bio/bio_writer.h), not part of pts.c; it appends to its
    buffer, and the spec (4.5) says the integers it writes are big-endian.
    The buffer grows as needed, so the capacity given at creation does not
    reach the result. *)
Definition bio_writer_t : Type := list Z.

Definition uint16_be (v : Z) : list Z := [v / 2 ^ 8 mod 256; v mod 256].

Definition uint32_be (v : Z) : list Z :=
  [v / 2 ^ 24 mod 256; v / 2 ^ 16 mod 256; v / 2 ^ 8 mod 256; v mod 256].

Definition bio_writer_create : bio_writer_t := [].

Definition write_uint8 (w : bio_writer_t) (v : Z) : bio_writer_t :=
  w ++ [v mod 256].

Definition write_uint16 (w : bio_writer_t) (v : Z) : bio_writer_t :=
  w ++ uint16_be v.

Definition write_uint32 (w : bio_writer_t) (v : Z) : bio_writer_t :=
  w ++ uint32_be v.

Definition write_data (w : bio_writer_t) (data : list Z) : bio_writer_t :=
  w ++ data.

(** size_of_select, a u_int8_t: a TPM v1.2 has 24 PCR Registers so the
    bitmask field length used by TrouSerS is at least 3 bytes. *)
Definition size_of_select (this : private_pts_t) : Z :=
  Z.max (PCR_MAX_NUM / 8) (1 + pcr_max this / 8) mod 256.

(** for (i = 0; i < size_of_select; i++) write_uint8(pcr_select[i]).
    Reading pcr_select beyond its 3 bytes is undefined in C; it does not
    happen while pcr_max < 24, and reads 0 here. *)
Definition write_pcr_select (this : private_pts_t) (w : bio_writer_t)
  : bio_writer_t :=
  foldl (fun w i => write_uint8 w (default 0 (pcr_select this !! i))) w
        (seq 0 (Z.to_nat (size_of_select this))).

(** for (i = 0; i < 8 * size_of_select; i++) if (pcrs[i]) write pcr_len
    bytes of it. A slot beyond the table reads as NULL here, and a stored
    value gives at most the bytes it has. *)
Definition write_pcr_values (this : private_pts_t) (w : bio_writer_t)
  : bio_writer_t :=
  foldl (fun w i =>
           match pcrs this !! i with
           | Some (Some value) =>
               write_data w (take (Z.to_nat (pcr_len this)) value)
           | _ => w
           end) w
        (seq 0 (Z.to_nat (8 * size_of_select this))).

(** The TPM_PCR_COMPOSITE structure built by get_quote_info. *)
Definition pcr_composite (this : private_pts_t) : list Z :=
  let writer := bio_writer_create in
  let writer := write_uint16 writer (size_of_select this) in
  let writer := write_pcr_select this writer in
  let writer := write_uint32 writer (pcr_count this * pcr_len this) in
  let writer := write_pcr_values this writer in
  writer.

(** The TPM_QUOTE_INFO2 (use_quote2) or TPM_QUOTE_INFO structure. *)
Definition quote_info (this : private_pts_t) (use_quote2 use_ver_info : bool)
    (hash_pcr_comp : chunk_t) : list Z :=
  let writer := bio_writer_create in
  if use_quote2 then
    (* TPM Structure Tag *)
    let writer := write_uint16 writer TPM_TAG_QUOTE_INFO2 in
    (* Magic QUT2 value *)
    let writer := write_data writer [81; 85; 84; 50] in
    (* Secret assessment value 20 bytes (nonce) *)
    let writer := write_data writer (chunk_data (secret this)) in
    (* Length of the PCR selection field *)
    let writer := write_uint16 writer (size_of_select this) in
    (* PCR selection *)
    let writer := write_pcr_select this writer in
    (* TPM Locality Selection *)
    let writer := write_uint8 writer TPM_LOC_ZERO in
    (* PCR Composite Hash *)
    let writer := write_data writer (chunk_data hash_pcr_comp) in
    if use_ver_info
    then (* TPM version Info *)
      write_data writer (chunk_data (tpm_version_info this))
    else writer
  else
    (* Version number *)
    let writer := write_data writer [1; 1; 0; 0] in
    (* Magic QUOT value *)
    let writer := write_data writer [81; 85; 79; 84] in
    (* PCR Composite Hash *)
    let writer := write_data writer (chunk_data hash_pcr_comp) in
    (* Secret assessment value 20 bytes (nonce) *)
    write_data writer (chunk_data (secret this)).

(** get_quote_info: the return value, the object afterwards, and the two
    output chunks ([None] while nothing was written to them). *)
Definition get_quote_info (lib : library_t) (this : private_pts_t)
    (use_quote2 use_ver_info : bool) (comp_hash_algo : Z)
  : outcome (bool * private_pts_t * chunk_t * chunk_t) :=
  if pcr_count this =? 0
  then Ret (false, this, None, None)
  else if chunk_is_null (secret this)
  then Ret (false, this, None, None)
  else if use_quote2 && use_ver_info
          && chunk_is_null (tpm_version_info this)
  then Ret (false, this, None, None)
  else
    let pcr_comp := pcr_composite this in
    (* Output the TPM_PCR_COMPOSITE expected from IMC *)
    out_pcr_comp ←
      (if comp_hash_algo =? 0
       then Ret (chunk_clone pcr_comp)
       else
         let algo := pts_meas_algo_to_hash lib comp_hash_algo in
         hasher ← deref (hasher_create lib algo);
         (* Hash the PCR Composite Structure *)
         Ret (snd (allocate_hash hasher pcr_comp true)));
    (* SHA1 hash of PCR Composite to construct TPM_QUOTE_INFO *)
    hasher ← deref (hasher_create lib HASH_SHA1);
    let hash_pcr_comp := snd (allocate_hash hasher pcr_comp true) in
    (* Construct TPM_QUOTE_INFO/TPM_QUOTE_INFO2 structure *)
    let out_quote_info :=
      chunk_clone (quote_info this use_quote2 use_ver_info hash_pcr_comp) in
    Ret (true, clear_pcrs this, out_pcr_comp, out_quote_info).

(** ** Sequences of registry operations *)

Inductive registry_op : Type :=
  | OpSelect (pcr : Z)
  | OpAdd (pcr : Z) (pcr_before pcr_after : list Z).

Definition apply_op (this : private_pts_t) (op : registry_op)
  : private_pts_t :=
  match op with
  | OpSelect pcr => snd (select_pcr this pcr)
  | OpAdd pcr pcr_before pcr_after =>
      snd (add_pcr this pcr pcr_before pcr_after)
  end.

Definition run_ops (this : private_pts_t) (ops : list registry_op)
  : private_pts_t :=
  foldl apply_op this ops.

(** ** Properties of the registry, as predicates *)

(** Bit [pcr] of the selection bitmap. *)
Definition pcr_selected (this : private_pts_t) (pcr : Z) : bool :=
  Z.testbit (default 0 (pcr_select this !! Z.to_nat (pcr / 8))) (pcr mod 8).

(** The number of bits set in the selection bitmap. *)
Definition selected_count (this : private_pts_t) : Z :=
  Z.of_nat (length (filter (fun pcr => pcr_selected this pcr = true)
                           (seqZ 0 PCR_MAX_NUM))).

(** The number of slots that hold a value. *)
Definition populated_count (this : private_pts_t) : Z :=
  Z.of_nat (length (omap id (pcrs this))).

(** The registry after clear_pcrs: every slot empty, no register counted,
    highest index zero, bitmap all zeros. *)
Definition registry_cleared (this : private_pts_t) : Prop :=
  pcrs this = replicate (Z.to_nat PCR_MAX_NUM) None
  /\ pcr_count this = 0
  /\ pcr_max this = 0
  /\ pcr_select this = [0; 0; 0].

(** The shape of the table that select_pcr, add_pcr and clear_pcrs keep:
    24 slots, 3 bitmap bytes that are u_int8_t, pcr_max below 24, and no
    value stored above pcr_max. *)
Record registry_ok (this : private_pts_t) : Prop := {
  ok_slots : length (pcrs this) = Z.to_nat PCR_MAX_NUM;
  ok_select : length (pcr_select this) = Z.to_nat (PCR_MAX_NUM / 8);
  ok_max : 0 <= pcr_max this < PCR_MAX_NUM;
  ok_below_max : forall (i : nat) (value : list Z),
      pcrs this !! i = Some (Some value) -> Z.of_nat i <= pcr_max this;
  ok_bytes : Forall (fun b => 0 <= b < 256) (pcr_select this)
}.

(** The three tests at the head of get_quote_info all pass. *)
Definition quote_preconditions (this : private_pts_t)
    (use_quote2 use_ver_info : bool) : bool :=
  negb (pcr_count this =? 0)
  && negb (chunk_is_null (secret this))
  && negb (use_quote2 && use_ver_info
           && chunk_is_null (tpm_version_info this)).

(** The hashers get_quote_info asks the crypto factory for exist. *)
Definition hashers_available (lib : library_t) (comp_hash_algo : Z) : bool :=
  (if comp_hash_algo =? 0 then true
   else bool_decide
          (is_Some (create_hasher lib
                      (pts_meas_algo_to_hash lib comp_hash_algo))))
  && bool_decide (is_Some (create_hasher lib HASH_SHA1)).

(** What holds of the counters after every sequence of select_pcr, add_pcr
    and clear_pcrs on a created object: the shape, a set bit for every
    stored value, pcr_count between the number of set bits and that number
    plus the number of stored values, and a cleared registry whenever
    pcr_count is 0. *)
Record registry_inv (this : private_pts_t) : Prop := {
  inv_ok : registry_ok this;
  inv_stored_selected : forall (i : nat) (value : list Z),
      pcrs this !! i = Some (Some value) ->
      pcr_selected this (Z.of_nat i) = true;
  inv_count : selected_count this <= pcr_count this
              <= selected_count this + populated_count this;
  inv_empty : pcr_count this = 0 -> registry_cleared this
}.

(** Every stored value has the register length, which is then set. *)
Definition values_ok (this : private_pts_t) : Prop :=
  forall (i : nat) (value : list Z),
    pcrs this !! i = Some (Some value) ->
    Z.of_nat (length value) = pcr_len this /\ pcr_len this <> 0.

(** ** The structures in the words of the specification *)

(** The stored values of the table, in ascending index order. *)
Definition stored_values (this : private_pts_t) : list (list Z) :=
  omap id (pcrs this).

(** Register Composite (spec 4.5, steps 1 and 2): the selection width, the
    bitmap, the 4-byte length of the concatenated value block, and the
    value block, the stored values in ascending index order. *)
Definition spec_register_composite (this : private_pts_t) : list Z :=
  let selection_width := Z.max 3 (1 + pcr_max this / 8) in
  let value_block := concat (stored_values this) in
  uint16_be selection_width
  ++ take (Z.to_nat selection_width) (pcr_select this)
  ++ uint32_be (Z.of_nat (length value_block))
  ++ value_block.

(** The composite output of get_quote_info (spec 4.5, step 3): the raw
    Composite, or its digest when a composite hash algorithm is given and
    the crypto factory has a hasher for it. *)
Definition composite_output (lib : library_t) (comp_hash_algo : Z)
    (pcr_comp : list Z) : option chunk_t :=
  if comp_hash_algo =? 0 then Some (Some pcr_comp)
  else
    match create_hasher lib (pts_meas_algo_to_hash lib comp_hash_algo) with
    | Some digest => Some (Some (digest pcr_comp))
    | None => None
    end.

(** The nonce slot that the side with [is_imc = imc] fills with its own
    nonce in create_dh_nonce and reads in get_my_public_value. *)
Definition nonce_of_side (imc : bool) (this : private_pts_t) : chunk_t :=
  if imc then responder_nonce this else initiator_nonce this.

(** The measurer is the IMC side, the verifier the IMV side. *)
Definition measurer_nonce (this : private_pts_t) : list Z :=
  chunk_data (nonce_of_side true this).

Definition verifier_nonce (this : private_pts_t) : list Z :=
  chunk_data (nonce_of_side false this).

(** Assessment secret as the spec (4.2) writes it:
    Digest("1" || measurer_nonce || verifier_nonce || shared_secret),
    truncated to 20 bytes. *)
Definition spec_assessment_secret (digest : list Z -> list Z)
    (this : private_pts_t) (shared_secret : list Z) : list Z :=
  take 20%nat
    (digest ([49] ++ measurer_nonce this ++ verifier_nonce this
             ++ shared_secret)).

(** Legacy Quote Info as the spec (4.5, 8) writes it: 01 00 00 00, "QUOT",
    the SHA-1 of the Composite, the assessment secret. *)
Definition spec_legacy_quote_info (sha1_of_composite secret : list Z)
  : list Z :=
  [1; 0; 0; 0] ++ [81; 85; 79; 84] ++ sha1_of_composite ++ secret.

(** Extended Quote Info as the spec (4.5) writes it: the tag 0x0036,
    "QUT2", the assessment secret, the 2-byte selection width, the bitmap,
    a locality byte of value 0, the SHA-1 of the Composite, and the version
    info if it is included. *)
Definition spec_extended_quote_info (secret : list Z) (selection_width : Z)
    (bitmap sha1_of_composite version_info : list Z) : list Z :=
  [0; 54] ++ [81; 85; 84; 50] ++ secret ++ uint16_be selection_width
  ++ bitmap ++ [0] ++ sha1_of_composite ++ version_info.

(** ** A library to run the functions on

    A stand-in for the digests: the first [n] bytes of the input, padded
    with zeros. It has the output length of the algorithm it stands for and
    is no cryptographic hash; the theorems below hold for every library,
    the examples are evaluated on this one. *)
Definition prefix_digest (n : nat) (data : list Z) : list Z :=
  take n (data ++ replicate n 0).

Definition example_lib : library_t :=
  {| create_hasher alg :=
       match alg with
       | HASH_UNKNOWN => None
       | HASH_SHA1 => Some (prefix_digest 20)
       | HASH_SHA256 => Some (prefix_digest 32)
       | HASH_SHA384 => Some (prefix_digest 48)
       end;
     create_rng := Some (fun n => replicate (Z.to_nat n) 7);
     create_dh group :=
       Some {| dh_group := group; dh_other_public_value := None |};
     get_my_dh_public_value d := [2];
     get_shared_secret d :=
       match dh_other_public_value d with
       | Some value => Some (value ++ [9])
       | None => None
       end;
     pts_meas_algo_to_hash alg :=
       if alg =? 2 ^ 15 then HASH_SHA1
       else if alg =? 2 ^ 14 then HASH_SHA256
       else if alg =? 2 ^ 13 then HASH_SHA384
       else HASH_UNKNOWN;
     PTS_MEAS_ALGO_SHA256 := 2 ^ 14 |}.

(** A platform without TPM and without AIK. *)
Definition bare_platform : platform_t :=
  {| probe_platform_info := None; probe_tpm_version_info := None;
     probe_aik := None; probe_aik_blob := chunk_empty |}.

(** A fresh IMV-PTS and a fresh IMC-PTS on that platform. *)
Definition fresh_imv : private_pts_t := pts_create example_lib false bare_platform.
Definition fresh_imc : private_pts_t := pts_create example_lib true bare_platform.

(** A 20 byte register value whose bytes are all [b]. *)
Definition pcr_value (b : Z) : list Z := replicate 20 b.

(** [this] after create_dh_nonce, set_peer_public_value with the peer's
    DH value and nonce, and calculate_secret. *)
Definition negotiate (this : private_pts_t) (peer_value peer_nonce : list Z)
  : private_pts_t :=
  let this := snd (create_dh_nonce example_lib this 14 20) in
  match set_peer_public_value this peer_value peer_nonce with
  | Ret this =>
      match calculate_secret example_lib this with
      | Ret (_, this) => this
      | NullDeref => this
      end
  | NullDeref => this
  end.

(** An IMV-PTS that holds an assessment secret and the value of PCR 0. *)
Definition quoting_imv : private_pts_t :=
  snd (add_pcr (negotiate fresh_imv [5] (replicate 20 3)) 0 [] (pcr_value 1)).

(** A platform whose TPM answers with a 15 byte version info. *)
Definition tpm_platform : platform_t :=
  {| probe_platform_info := None;
     probe_tpm_version_info := Some (replicate 15 4);
     probe_aik := None; probe_aik_blob := chunk_empty |}.

(** An IMC-PTS after create_dh_nonce (its own nonce is 20 bytes 7) and
    set_peer_public_value with the verifier's nonce, 20 bytes 3. *)
Definition exchanged_imc : private_pts_t :=
  let this := pts_create example_lib true tpm_platform in
  let this := snd (create_dh_nonce example_lib this 14 20) in
  match set_peer_public_value this [5] (replicate 20 3) with
  | Ret this => this
  | NullDeref => this
  end.

(** An IMC-PTS with a TPM that holds an assessment secret and the values of
    PCR 0 and PCR 10. *)
Definition quoting_imc : private_pts_t :=
  run_ops (negotiate (pts_create example_lib true tpm_platform)
             [5] (replicate 20 3))
          [OpAdd 0 [] (pcr_value 1); OpAdd 10 [] (pcr_value 2)].

(** An IMV-PTS that holds an assessment secret, on which PCR 5 was first
    selected and then added. *)
Definition reselected_imv : private_pts_t :=
  run_ops (negotiate fresh_imv [5] (replicate 20 3))
          [OpSelect 5; OpAdd 5 [] (pcr_value 1)].

(** An IMV-PTS that holds the value of PCR 0 and no assessment secret. *)
Definition unnegotiated_imv : private_pts_t :=
  snd (add_pcr fresh_imv 0 [] (pcr_value 1)).

(** * The remaining methods of pts.c *)

(** ** Results of code that reads buffers

    [Undefined] stands for a run in which the C code reads outside the
    string or buffer it was given. *)
Inductive c_result (A : Type) : Type :=
  | Value (a : A)
  | Undefined.
Arguments Value {A} a.
Arguments Undefined {A}.

#[global] Instance c_result_bind : MBind c_result :=
  fun A B (k : A -> c_result B) (r : c_result A) =>
    match r with
    | Value a => k a
    | Undefined => Undefined
    end.

(** ** add_pcr with its read of pcr_before

    At a slot that holds a value add_pcr calls
      memeq(this->pcrs[pcr], pcr_before.ptr, this->pcr_len)
    without looking at pcr_before.len: pcr_len bytes are read at the
    stored value and at pcr_before.ptr. A [pcr_before] with fewer bytes is
    read behind its end (an empty chunk has the pointer NULL). *)
Definition add_pcr_run (this : private_pts_t) (pcr : Z)
    (pcr_before pcr_after : list Z) : c_result (bool * private_pts_t) :=
  if PCR_MAX_NUM <=? pcr then Value (false, this)
  else
    let after_len := Z.of_nat (length pcr_after) in
    (* Is the length of the PCR registers already set? *)
    if negb (pcr_len this =? 0) && negb (after_len =? pcr_len this)
    then Value (false, this)
    else
      let len := if pcr_len this =? 0 then after_len else pcr_len this in
      match pcrs this !! Z.to_nat pcr with
      | Some (Some old) =>
          (* Has the value of the PCR register already been assigned? *)
          if (Z.of_nat (length old) <? len)
             || (Z.of_nat (length pcr_before) <? len)
          then Undefined
          else Value (add_pcr this pcr pcr_before pcr_after)
      | _ => Value (add_pcr this pcr pcr_before pcr_after)
      end.

(** ** Algorithm negotiation *)

Definition set_algorithm_field (v : Z) (this : private_pts_t) :=
  {| proto_caps := proto_caps this; algorithm := v;
     dh_hash_algorithm := dh_hash_algorithm this; dh := dh this;
     initiator_nonce := initiator_nonce this;
     responder_nonce := responder_nonce this; secret := secret this;
     platform_info := platform_info this; is_imc := is_imc this;
     has_tpm := has_tpm this; tpm_version_info := tpm_version_info this;
     aik_blob := aik_blob this; aik := aik this; pcrs := pcrs this;
     pcr_len := pcr_len this; pcr_count := pcr_count this;
     pcr_max := pcr_max this; pcr_select := pcr_select this |}.

Definition set_dh_hash_algorithm_field (v : Z) (this : private_pts_t) :=
  {| proto_caps := proto_caps this; algorithm := algorithm this;
     dh_hash_algorithm := v; dh := dh this;
     initiator_nonce := initiator_nonce this;
     responder_nonce := responder_nonce this; secret := secret this;
     platform_info := platform_info this; is_imc := is_imc this;
     has_tpm := has_tpm this; tpm_version_info := tpm_version_info this;
     aik_blob := aik_blob this; aik := aik this; pcrs := pcrs this;
     pcr_len := pcr_len this; pcr_count := pcr_count this;
     pcr_max := pcr_max this; pcr_select := pcr_select this |}.

(** The test [hash_alg != HASH_UNKNOWN]. *)
Definition hash_known (alg : hash_algorithm_t) : bool :=
  match alg with
  | HASH_UNKNOWN => false
  | _ => true
  end.

Definition get_meas_algorithm (this : private_pts_t) : Z := algorithm this.

(** set_meas_algorithm: an algorithm without hash is silently ignored. *)
Definition set_meas_algorithm (lib : library_t) (this : private_pts_t)
    (alg : Z) : private_pts_t :=
  let hash_alg := pts_meas_algo_to_hash lib alg in
  if hash_known hash_alg then set_algorithm_field alg this else this.

Definition get_dh_hash_algorithm (this : private_pts_t) : Z :=
  dh_hash_algorithm this.

(** set_dh_hash_algorithm: an algorithm without hash is silently ignored. *)
Definition set_dh_hash_algorithm (lib : library_t) (this : private_pts_t)
    (alg : Z) : private_pts_t :=
  let hash_alg := pts_meas_algo_to_hash lib alg in
  if hash_known hash_alg then set_dh_hash_algorithm_field alg this else this.

(** Sequences of the two setters. *)
Inductive algorithm_op : Type :=
  | OpSetMeas (alg : Z)
  | OpSetDhHash (alg : Z).

Definition apply_algorithm_op (lib : library_t) (this : private_pts_t)
    (op : algorithm_op) : private_pts_t :=
  match op with
  | OpSetMeas alg => set_meas_algorithm lib this alg
  | OpSetDhHash alg => set_dh_hash_algorithm lib this alg
  end.

(** ** TPM version info *)

(** get_tpm_version_info: FALSE without TPM, whatever is stored. *)
Definition get_tpm_version_info (this : private_pts_t) : bool * chunk_t :=
  if negb (has_tpm this) then (false, chunk_empty)
  else (true, tpm_version_info this).

Definition set_tpm_version_info (this : private_pts_t) (info : list Z)
  : private_pts_t :=
  set_tpm_version_info_field (chunk_clone info) this.

(** ** File names *)

(** strchr(s, c) for a character c other than NUL: the rest of [s] from the
    first [c] on, or NULL. *)
Fixpoint strchr (s : string) (c : Ascii.ascii) : option string :=
  match s with
  | EmptyString => None
  | String a rest => if Ascii.eqb a c then Some s else strchr rest c
  end.

(** The loop of get_filename:
      while (pos && *(++pos) != 0) { filename = pos;
                                     pos = strchr(filename, '/'); }
    [pos] is the string at the pointer, or NULL. On an empty string ++pos
    leaves the string. Every round moves [pos] forward, so [fuel] rounds,
    one per character, are enough; running out of them is [Undefined]
    too. *)
Fixpoint get_filename_loop (fuel : nat) (pos : option string)
    (filename : string) : c_result string :=
  match pos with
  | None => Value filename
  | Some EmptyString => Undefined
  | Some (String _ EmptyString) => Value filename
  | Some (String _ rest) =>
      match fuel with
      | O => Undefined
      | S fuel => get_filename_loop fuel (strchr rest "/"%char) rest
      end
  end.

(** Get the relative filename of a fully qualified file pathname *)
Definition get_filename (pathname : string) : c_result string :=
  get_filename_loop (String.length pathname) (Some pathname) pathname.

(** ** Files and directories *)

(** struct stat, the members that pts.c reads. *)
Record stat_t : Type := {
  st_mode : Z;
  st_size : Z;
  st_ctime : Z;
  st_mtime : Z;
  st_atime : Z;
  st_uid : Z;
  st_gid : Z
}.

(** The file system as pts.c sees it: the bytes fopen and fread deliver
    for a path (or no stream), what stat fills in (or failure), and the
    entries (relative name, absolute name, stat) that the directory
    enumerator yields (or no enumerator). *)
Record filesystem_t : Type := {
  fs_fopen : string -> option (list Z);
  fs_stat : string -> option stat_t;
  fs_enumerate : string -> option (list (string * string * stat_t))
}.

(** File type bits of st_mode (<sys/stat.h>, Linux numbering). *)
Definition S_IFMT : Z := 0xF000.  (* 0170000 octal *)
Definition S_IFSOCK : Z := 0xC000.  (* 0140000 octal *)
Definition S_IFLNK : Z := 0xA000.  (* 0120000 octal *)
Definition S_IFREG : Z := 0x8000.  (* 0100000 octal *)
Definition S_IFBLK : Z := 0x6000.  (* 0060000 octal *)
Definition S_IFDIR : Z := 0x4000.  (* 0040000 octal *)
Definition S_IFCHR : Z := 0x2000.  (* 0020000 octal *)
Definition S_IFIFO : Z := 0x1000.  (* 0010000 octal *)

Definition S_ISREG (m : Z) : bool := Z.land m S_IFMT =? S_IFREG.
Definition S_ISDIR (m : Z) : bool := Z.land m S_IFMT =? S_IFDIR.
Definition S_ISCHR (m : Z) : bool := Z.land m S_IFMT =? S_IFCHR.
Definition S_ISBLK (m : Z) : bool := Z.land m S_IFMT =? S_IFBLK.
Definition S_ISFIFO (m : Z) : bool := Z.land m S_IFMT =? S_IFIFO.
Definition S_ISLNK (m : Z) : bool := Z.land m S_IFMT =? S_IFLNK.
Definition S_ISSOCK (m : Z) : bool := Z.land m S_IFMT =? S_IFSOCK.

(** The test [*rel_name != '.'] on the first character of a name; the
    first character of the empty name is NUL. *)
Definition not_hidden (rel_name : string) : bool :=
  match rel_name with
  | String c _ => negb (Ascii.eqb c "."%char)
  | EmptyString => true
  end.

(** ** Measurements *)

Definition PTS_BUF_SIZE : Z := 4096.

(** Modelled from the spec: hasher_t.get_hash belongs to libstrongswan; like
    allocate_hash it feeds the data when the result pointer is NULL and
    gives the digest of everything fed otherwise (spec 4.4: the file is
    streamed into the digest, an empty update finalizes it). *)
Definition get_hash (h : hasher_t) (data : list Z) (want_hash : bool)
  : hasher_t * chunk_t :=
  allocate_hash h data want_hash.

(** The loop of hash_file: fread fills the buffer with the next bytes of the
    file, at most PTS_BUF_SIZE; an empty read finalizes. Every round but the
    last consumes a byte, so [fuel] above the file length is never used
    up. *)
Fixpoint hash_file_loop (fuel : nat) (hasher : hasher_t) (file : list Z)
  : hasher_t * chunk_t :=
  let buffer := take (Z.to_nat PTS_BUF_SIZE) file in
  let bytes_read := Z.of_nat (length buffer) in
  match fuel with
  | S fuel =>
      if 0 <? bytes_read
      then hash_file_loop fuel (fst (get_hash hasher buffer false))
             (drop (Z.to_nat PTS_BUF_SIZE) file)
      else get_hash hasher [] true
  | O => get_hash hasher [] true
  end.

(** hash_file: the return value, the hasher afterwards and the hash
    written. *)
Definition hash_file (fs : filesystem_t) (hasher : hasher_t)
    (pathname : string) : bool * hasher_t * chunk_t :=
  match fs_fopen fs pathname with
  | None => (false, hasher, None)
  | Some file =>
      let '(hasher, hash) := hash_file_loop (S (length file)) hasher file in
      (true, hasher, hash)
  end.

(** Modelled from the spec: pts_file_meas_t (pts_file_meas.c, not part of
    pts.c) is the ordered collection of (relative name, digest) pairs tagged
    with a request identifier (spec 3); add appends a pair. *)
Record pts_file_meas_t : Type := {
  meas_request_id : Z;
  meas_entries : list (string * list Z)
}.

Definition pts_file_meas_create (request_id : Z) : pts_file_meas_t :=
  {| meas_request_id := request_id; meas_entries := [] |}.

Definition pts_file_meas_add (m : pts_file_meas_t) (filename : string)
    (measurement : list Z) : pts_file_meas_t :=
  {| meas_request_id := meas_request_id m;
     meas_entries := meas_entries m ++ [(filename, measurement)] |}.

(** The enumeration loop of do_measurements: regular files whose name does
    not start with a dot are hashed and added; the first file that cannot be
    opened ends the loop with NULL. The measurement is the digest written
    by hash_file, get_hash_size bytes. *)
Fixpoint measure_entries (fs : filesystem_t) (hasher : hasher_t)
    (entries : list (string * string * stat_t))
    (measurements : pts_file_meas_t) : option pts_file_meas_t :=
  match entries with
  | [] => Some measurements
  | (rel_name, abs_name, st) :: entries =>
      (* measure regular files only *)
      if S_ISREG (st_mode st) && not_hidden rel_name then
        match hash_file fs hasher abs_name with
        | (false, _, _) => None
        | (true, hasher, hash) =>
            measure_entries fs hasher entries
              (pts_file_meas_add measurements rel_name (chunk_data hash))
        end
      else measure_entries fs hasher entries measurements
  end.

(** do_measurements: the measurements, or NULL. *)
Definition do_measurements (lib : library_t) (fs : filesystem_t)
    (this : private_pts_t) (request_id : Z) (pathname : string)
    (is_directory : bool) : c_result (option pts_file_meas_t) :=
  (* Create a hasher *)
  let hash_alg := pts_meas_algo_to_hash lib (algorithm this) in
  match hasher_create lib hash_alg with
  | None => Value None
  | Some hasher =>
      (* Create a measurement object *)
      let measurements := pts_file_meas_create request_id in
      if is_directory then
        match fs_enumerate fs pathname with
        | None => Value None
        | Some entries =>
            Value (measure_entries fs hasher entries measurements)
        end
      else
        match hash_file fs hasher pathname with
        | (false, _, _) => Value None
        | (true, _, hash) =>
            filename ← get_filename pathname;
            Value (Some (pts_file_meas_add measurements filename
                           (chunk_data hash)))
        end
  end.

(** ** File metadata *)

Inductive pts_file_type_t : Type :=
  | PTS_FILE_OTHER
  | PTS_FILE_FIFO
  | PTS_FILE_CHAR_SPEC
  | PTS_FILE_DIRECTORY
  | PTS_FILE_BLOCK_SPEC
  | PTS_FILE_REGULAR
  | PTS_FILE_SYM_LINK
  | PTS_FILE_SOCKET.

Record pts_file_metadata_t : Type := {
  meta_type : pts_file_type_t;
  meta_filesize : Z;
  meta_created : Z;
  meta_modified : Z;
  meta_accessed : Z;
  meta_owner : Z;
  meta_group : Z;
  meta_filename : string
}.

(** Obtain statistical information describing a file. The filename member
    is left for the caller to assign; it is the empty string until then. *)
Definition file_metadata (fs : filesystem_t) (pathname : string)
  : option pts_file_metadata_t :=
  match fs_stat fs pathname with
  | None => None
  | Some st =>
      let m := st_mode st in
      let type :=
        if S_ISREG m then PTS_FILE_REGULAR
        else if S_ISDIR m then PTS_FILE_DIRECTORY
        else if S_ISCHR m then PTS_FILE_CHAR_SPEC
        else if S_ISBLK m then PTS_FILE_BLOCK_SPEC
        else if S_ISFIFO m then PTS_FILE_FIFO
        else if S_ISLNK m then PTS_FILE_SYM_LINK
        else if S_ISSOCK m then PTS_FILE_SOCKET
        else PTS_FILE_OTHER in
      Some {| meta_type := type; meta_filesize := st_size st;
              meta_created := st_ctime st; meta_modified := st_mtime st;
              meta_accessed := st_atime st; meta_owner := st_uid st;
              meta_group := st_gid st; meta_filename := EmptyString |}
  end.

(** The assignment [entry->filename = strdup(name)]. *)
Definition set_meta_filename (entry : pts_file_metadata_t) (name : string)
  : pts_file_metadata_t :=
  {| meta_type := meta_type entry; meta_filesize := meta_filesize entry;
     meta_created := meta_created entry;
     meta_modified := meta_modified entry;
     meta_accessed := meta_accessed entry; meta_owner := meta_owner entry;
     meta_group := meta_group entry; meta_filename := name |}.

(** The enumeration loop of get_metadata; the metadata object is the list
    of its entries in the order they were added. *)
Fixpoint metadata_entries (fs : filesystem_t)
    (entries : list (string * string * stat_t))
    (metadata : list pts_file_metadata_t)
  : option (list pts_file_metadata_t) :=
  match entries with
  | [] => Some metadata
  | (rel_name, abs_name, st) :: entries =>
      (* measure regular files only *)
      if S_ISREG (st_mode st) && not_hidden rel_name then
        match file_metadata fs abs_name with
        | None => None
        | Some entry =>
            metadata_entries fs entries
              (metadata ++ [set_meta_filename entry rel_name])
        end
      else metadata_entries fs entries metadata
  end.

(** get_metadata: the metadata, or NULL. *)
Definition get_metadata (fs : filesystem_t) (pathname : string)
    (is_directory : bool) : c_result (option (list pts_file_metadata_t)) :=
  if is_directory then
    match fs_enumerate fs pathname with
    | None => Value None
    | Some entries => Value (metadata_entries fs entries [])
    end
  else
    match file_metadata fs pathname with
    | None => Value None
    | Some entry =>
        filename ← get_filename pathname;
        Value (Some [set_meta_filename entry filename])
    end.

(** ** Quoting with the TPM *)

Definition HASH_SIZE_SHA1 : Z := 20.

(** The TSS calls of quote_tpm, each as the outcome it has ([true] for
    TSS_SUCCESS). The calls that work on the PCR composite object take the
    flag use_quote2; the quote gets the PCRs selected into the composite
    object and the external data, and gives rgbData and
    rgbValidationData. *)
Record tss_t : Type := {
  Tspi_Context_Create : bool;
  Tspi_Context_Connect : bool;
  Tspi_Context_GetTpmObject : bool;
  Tspi_Context_LoadKeyByUUID : bool;
  Tspi_GetPolicyObject : bool;
  Tspi_Policy_SetSecret : bool;
  Tspi_Context_LoadKeyByBlob : chunk_t -> bool;
  Tspi_Context_CreateObject : bool -> bool;
  Tspi_PcrComposite_SelectPcrIndex : bool -> Z -> bool;
  Tspi_TPM_Quote : bool -> list Z -> chunk_t -> option (list Z * list Z)
}.

(** The loop "Select PCRs" of quote_tpm over the PCR numbers [numbers],
    with the byte index [i] and the bit mask [f] of the source; [selected]
    collects the PCRs selected so far. [None] when a TSS call fails. As in
    write_pcr_select, a byte beyond pcr_select reads as 0. *)
Fixpoint select_pcrs_loop (tss : tss_t) (this : private_pts_t)
    (use_quote2 : bool) (numbers : list Z) (i f : Z) (selected : list Z)
  : option (list Z) :=
  match numbers with
  | [] => Some selected
  | pcr :: numbers =>
      let i := if f =? 256 then (i + 1) mod 2 ^ 32 else i in
      let f := if f =? 256 then 1 else f in
      if negb (Z.land (default 0 (pcr_select this !! Z.to_nat i)) f =? 0)
      then
        if Tspi_PcrComposite_SelectPcrIndex tss use_quote2 pcr
        then select_pcrs_loop tss this use_quote2 numbers i
               (Z.shiftl f 1 mod 2 ^ 32) (selected ++ [pcr])
        else None
      else select_pcrs_loop tss this use_quote2 numbers i
             (Z.shiftl f 1 mod 2 ^ 32) selected
  end.

(** for (pcr = 0; pcr <= this->pcr_max; pcr++) with i = 0, f = 1. *)
Definition select_pcrs (tss : tss_t) (this : private_pts_t)
    (use_quote2 : bool) : option (list Z) :=
  select_pcrs_loop tss this use_quote2 (seqZ 0 (pcr_max this + 1)) 0 1 [].

(** The bytes copied into pcr_comp: the last 20 bytes of rgbData for a
    TPM_Quote_Info2 structure, bytes 8..28 for a TPM_Quote_Info structure;
    [Undefined] when rgbData is too short for the copy. *)
Definition quote_composite_hash (use_quote2 : bool) (rgbData : list Z)
  : c_result (list Z) :=
  let ulDataLength := Z.of_nat (length rgbData) in
  if use_quote2 then
    if ulDataLength <? HASH_SIZE_SHA1 then Undefined
    else Value (drop (Z.to_nat (ulDataLength - HASH_SIZE_SHA1)) rgbData)
  else
    if ulDataLength <? 8 + HASH_SIZE_SHA1 then Undefined
    else Value (take (Z.to_nat HASH_SIZE_SHA1) (drop 8 rgbData)).

(** quote_tpm without its first step: [None] when one of the TSS calls
    fails (the jumps to err1 .. err4), otherwise the two output chunks. *)
Definition quote_tpm_steps (tss : tss_t) (this : private_pts_t)
    (use_quote2 : bool) : c_result (option (chunk_t * chunk_t)) :=
  if negb (Tspi_Context_Connect tss) then Value None
  else if negb (Tspi_Context_GetTpmObject tss) then Value None
  (* Retrieve SRK from TPM and set the authentication to well known secret *)
  else if negb (Tspi_Context_LoadKeyByUUID tss) then Value None
  else if negb (Tspi_GetPolicyObject tss) then Value None
  else if negb (Tspi_Policy_SetSecret tss) then Value None
  else if negb (Tspi_Context_LoadKeyByBlob tss (aik_blob this))
  then Value None
  (* Create PCR composite object *)
  else if negb (Tspi_Context_CreateObject tss use_quote2) then Value None
  else
    (* Select PCRs *)
    match select_pcrs tss this use_quote2 with
    | None => Value None
    | Some selected =>
        (* Set the Validation Data, TPM Quote *)
        match Tspi_TPM_Quote tss use_quote2 selected (secret this) with
        | None => Value None
        | Some (rgbData, rgbValidationData) =>
            (* Set output chunks *)
            hash ← quote_composite_hash use_quote2 rgbData;
            Value (Some (Some hash, chunk_clone rgbValidationData))
        end
    end.

(** quote_tpm: the return value, the object afterwards and the two output
    chunks ([None] while nothing was written to them). *)
Definition quote_tpm (tss : tss_t) (this : private_pts_t)
    (use_quote2 : bool)
  : c_result (bool * private_pts_t * chunk_t * chunk_t) :=
  if negb (Tspi_Context_Create tss)
  then Value (false, this, None, None)
  else
    outputs ← quote_tpm_steps tss this use_quote2;
    match outputs with
    | Some (pcr_comp, quote_sig) =>
        Value (true, clear_pcrs this, pcr_comp, quote_sig)
    | None => Value (false, clear_pcrs this, None, None)
    end.

(** ** The files that are measured

    The test of the two enumeration loops, and what each loop does with
    an entry that passes it. *)
Definition measured (entry : string * string * stat_t) : bool :=
  S_ISREG (st_mode entry.2) && not_hidden entry.1.1.

(** The measurement of one entry: its relative name and the digest of its
    file. *)
Definition measure_entry (fs : filesystem_t) (digest : list Z -> list Z)
    (entry : string * string * stat_t) : option (string * list Z) :=
  file ← fs_fopen fs entry.1.2; Some (entry.1.1, digest file).

(** The metadata of one entry, filed under its relative name. *)
Definition metadata_entry (fs : filesystem_t)
    (entry : string * string * stat_t) : option pts_file_metadata_t :=
  m ← file_metadata fs entry.1.2; Some (set_meta_filename m entry.1.1).

(** A file system to run the functions on: the directory /etc/tnc with
    two regular files, a hidden file and a subdirectory. *)
Definition regular_stat (size : Z) : stat_t :=
  {| st_mode := Z.lor S_IFREG 0x1A4; st_size := size; st_ctime := 1000;
     st_mtime := 2000; st_atime := 3000; st_uid := 0; st_gid := 0 |}.

Definition directory_stat : stat_t :=
  {| st_mode := Z.lor S_IFDIR 0x1ED; st_size := 4096; st_ctime := 1000;
     st_mtime := 2000; st_atime := 3000; st_uid := 0; st_gid := 0 |}.

Definition example_fs : filesystem_t :=
  {| fs_fopen path :=
       if String.eqb path "/etc/tnc/a.conf" then Some [1; 2; 3]
       else if String.eqb path "/etc/tnc/.lock" then Some [4]
       else if String.eqb path "/etc/tnc/b.conf" then Some []
       else None;
     fs_stat path :=
       if String.eqb path "/etc/tnc/a.conf" then Some (regular_stat 3)
       else if String.eqb path "/etc/tnc/.lock" then Some (regular_stat 1)
       else if String.eqb path "/etc/tnc/b.conf" then Some (regular_stat 0)
       else if String.eqb path "/etc/tnc/keys" then Some directory_stat
       else if String.eqb path "/etc/tnc" then Some directory_stat
       else None;
     fs_enumerate path :=
       if String.eqb path "/etc/tnc"
       then Some [("a.conf", "/etc/tnc/a.conf", regular_stat 3);
                  (".lock", "/etc/tnc/.lock", regular_stat 1);
                  ("keys", "/etc/tnc/keys", directory_stat);
                  ("b.conf", "/etc/tnc/b.conf", regular_stat 0)]%string
       else None |}.

(** The metadata of a file with [regular_stat]. *)
Definition regular_metadata (name : string) (size : Z)
  : pts_file_metadata_t :=
  {| meta_type := PTS_FILE_REGULAR; meta_filesize := size;
     meta_created := 1000; meta_modified := 2000; meta_accessed := 3000;
     meta_owner := 0; meta_group := 0; meta_filename := name |}.

(** ** Predicates and examples for quote_tpm *)

(** Every selected register is at most pcr_max. *)
Definition selected_below_max (this : private_pts_t) : Prop :=
  forall pcr : Z, 0 <= pcr < PCR_MAX_NUM ->
    pcr_selected this pcr = true -> pcr <= pcr_max this.

(** The value of [i] and [f] at the head of the selection loop of quote_tpm
    before the round for [pcr]. *)
Definition head_i (pcr : Z) : Z :=
  if (pcr mod 8 =? 0) && (0 <? pcr) then pcr / 8 - 1 else pcr / 8.

Definition head_f (pcr : Z) : Z :=
  if (pcr mod 8 =? 0) && (0 <? pcr) then 256 else 2 ^ (pcr mod 8).

(** A TSS whose calls succeed; the quote structure it returns has the
    20 bytes [hash] at the place of the composite hash and signs with
    [signature]. *)
Definition example_tss (hash signature : list Z) : tss_t :=
  {| Tspi_Context_Create := true; Tspi_Context_Connect := true;
     Tspi_Context_GetTpmObject := true; Tspi_Context_LoadKeyByUUID := true;
     Tspi_GetPolicyObject := true; Tspi_Policy_SetSecret := true;
     Tspi_Context_LoadKeyByBlob _ := true;
     Tspi_Context_CreateObject _ := true;
     Tspi_PcrComposite_SelectPcrIndex _ _ := true;
     Tspi_TPM_Quote use_quote2 selected external :=
       Some (if use_quote2
             then [0; 54; 81; 85; 84; 50] ++ chunk_data external
                  ++ [0; 3; 0; 0; 0; 1] ++ hash
             else [1; 1; 0; 0; 81; 85; 79; 84] ++ hash
                  ++ chunk_data external,
             signature) |}.

(** The TSS calls of quote_tpm in front of the selection loop all
    succeed. *)
Definition tss_ready (tss : tss_t) (this : private_pts_t)
    (use_quote2 : bool) : bool :=
  Tspi_Context_Create tss && Tspi_Context_Connect tss
  && Tspi_Context_GetTpmObject tss && Tspi_Context_LoadKeyByUUID tss
  && Tspi_GetPolicyObject tss && Tspi_Policy_SetSecret tss
  && Tspi_Context_LoadKeyByBlob tss (aik_blob this)
  && Tspi_Context_CreateObject tss use_quote2.

(** An IMC-PTS with a TPM and an assessment secret, PCR 16 selected and
    the value of PCR 10 added. *)
Definition selecting_imc : private_pts_t :=
  run_ops (negotiate (pts_create example_lib true tpm_platform)
             [5] (replicate 20 3))
          [OpSelect 16; OpAdd 10 [] (pcr_value 2)].

(** What holds of the counters as long as registers are only added: the
    shape, a stored value for every set bit, and pcr_count equal to both
    the number of set bits and the number of stored values. *)
Record registry_exact (this : private_pts_t) : Prop := {
  exact_ok : registry_ok this;
  exact_selected_stored : forall pcr : Z,
      0 <= pcr < PCR_MAX_NUM -> pcr_selected this pcr = true ->
      exists value, pcrs this !! Z.to_nat pcr = Some (Some value);
  exact_selected : pcr_count this = selected_count this;
  exact_populated : pcr_count this = populated_count this
}.

(** ** Examples for the negotiation *)

(** An IMC-PTS and an IMV-PTS after create_dh_nonce. *)
Definition nonce_imc : private_pts_t :=
  snd (create_dh_nonce example_lib (pts_create example_lib true tpm_platform)
         14 20).

Definition nonce_imv : private_pts_t :=
  snd (create_dh_nonce example_lib fresh_imv 14 20).

(** ** The platform string *)

(** The bytes of a string literal. *)
Definition codes (s : string) : list Z :=
  (fun c => Z.of_N (N_of_ascii c)) <$> String.list_ascii_of_string s.

(** The C string that starts at the head of [bytes]: the bytes in front of
    the first NUL. *)
Fixpoint c_str (bytes : list Z) : list Z :=
  match bytes with
  | [] => []
  | b :: bytes => if b =? 0 then [] else b :: c_str bytes
  end.

(** strchr(s, c) on a C string, as the offset of the first [c]. *)
Fixpoint strchr_offset (s : list Z) (c : Z) : option Z :=
  match s with
  | [] => None
  | b :: s => if b =? c then Some 0 else Z.succ <$> strchr_offset s c
  end.

(** strstr(s, needle) on a C string, as the offset of the first
    occurrence. *)
Fixpoint strstr_offset (s needle : list Z) : option Z :=
  if bool_decide (take (length needle) s = needle) then Some 0
  else
    match s with
    | [] => None
    | _ :: s => Z.succ <$> strstr_offset s needle
    end.

Definition RELEASE_LSB : Z := 0.
Definition RELEASE_DEBIAN : Z := 1.

(** Linux/Unix distribution release info (from http://linuxmafia.com) *)
Definition releases : list string :=
  ["/etc/lsb-release";           "/etc/debian_version";
   "/etc/SuSE-release";          "/etc/novell-release";
   "/etc/sles-release";          "/etc/redhat-release";
   "/etc/fedora-release";        "/etc/gentoo-release";
   "/etc/slackware-version";     "/etc/annvix-release";
   "/etc/arch-release";          "/etc/arklinux-release";
   "/etc/aurox-release";         "/etc/blackcat-release";
   "/etc/cobalt-release";        "/etc/conectiva-release";
   "/etc/debian_release";        "/etc/immunix-release";
   "/etc/lfs-release";           "/etc/linuxppc-release";
   "/etc/mandrake-release";      "/etc/mandriva-release";
   "/etc/mandrakelinux-release"; "/etc/mklinux-release";
   "/etc/pld-release";           "/etc/redhat_version";
   "/etc/slackware-release";     "/etc/e-smith-release";
   "/etc/release";               "/etc/sun-release";
   "/etc/tinysofa-release";      "/etc/turbolinux-release";
   "/etc/ultrapenguin-release";  "/etc/UnitedLinux-release";
   "/etc/va-release";            "/etc/yellowdog-release"]%string.

Definition description : list Z :=
  codes "DISTRIB_DESCRIPTION=" ++ [34 (* the double quote *)].

Definition str_debian : list Z := codes "Debian ".

(** The loop over [releases] up to the first file that fopen finds: its
    index and its bytes. *)
Fixpoint first_release (fs : filesystem_t) (i : Z) (paths : list string)
  : option (Z * list Z) :=
  match paths with
  | [] => None
  | path :: paths =>
      match fs_fopen fs path with
      | None => first_release fs (i + 1) paths
      | Some file => Some (i, file)
      end
  end.

(** What the body of the loop leaves for the release file [i] with the
    bytes [file]: the buffer as a C string and the offsets of value and
    pos in it, or NULL returned. fread delivers the [len] bytes asked
    for. *)
Definition scan_release (BUF_LEN : Z) (i : Z) (file : list Z)
  : option (list Z * Z * Z) :=
  let pos := 0 in
  let len := BUF_LEN - 1 in
  let '(buf, pos, len) :=
    if i =? RELEASE_DEBIAN
    then (str_debian, pos + Z.of_nat (length str_debian),
          len - Z.of_nat (length str_debian))
    else ([], pos, len) in
  let len := Z.min (Z.of_nat (length file)) len in
  let buf := c_str (buf ++ take (Z.to_nat len) file) in
  if i =? RELEASE_LSB then
    match strstr_offset buf description with
    | None => None
    | Some pos =>
        let value := pos + Z.of_nat (length description) in
        match strchr_offset (drop (Z.to_nat value) buf) 34 with
        | None => None
        | Some pos => Some (buf, value, value + pos)
        end
    end
  else
    let value := 0 in
    match strchr_offset (drop (Z.to_nat pos) buf) 10 (* newline *) with
    | None => None
    | Some offset => Some (buf, value, pos + offset)
    end.

(** Determine Linux distribution and hardware platform. [BUF_LEN] is the
    size of the local buffer, a macro of libstrongswan; [uname] is the
    machine name, or [None] when uname fails. strncpy writes exactly [len]
    bytes at [pos], padding with NUL; the result is [Undefined] when they
    do not fit into the buffer. *)
Definition extract_platform_info (BUF_LEN : Z) (fs : filesystem_t)
    (uname : option (list Z)) : c_result (option (list Z)) :=
  match first_release fs 0 releases with
  | None => Value None
  | Some (i, file) =>
      match scan_release BUF_LEN i file with
      | None => Value None
      | Some (buf, value, pos) =>
          match uname with
          | None => Value None
          | Some machine =>
              let buf := take (Z.to_nat pos) buf ++ [32 (* ' ' *)] in
              let pos := pos + 1 in
              let len := BUF_LEN - 1 + pos in
              if BUF_LEN <? pos + len then Undefined
              else
                let buf :=
                  buf ++ take (Z.to_nat len)
                           (machine ++ replicate (Z.to_nat len) 0) in
                Value (Some (c_str (drop (Z.to_nat value) buf)))
          end
      end
  end.

(** A file system with an lsb-release file. *)
Definition lsb_fs : filesystem_t :=
  {| fs_fopen path :=
       if String.eqb path "/etc/lsb-release"
       then Some (codes "DISTRIB_ID=Ubuntu" ++ [10]
                  ++ description ++ codes "Ubuntu 12.04 LTS" ++ [34; 10])
       else None;
     fs_stat _ := None;
     fs_enumerate _ := None |}.

(** * Theorems *)

(** ** Path validation *)

(** C10: is_path_valid returns success when the path is accessible and also
    when stat fails with "not found" (ENOENT, ENOTDIR) or "invalid path"
    (EFAULT), the classification being delivered in the error code, which is
    zeroed first; it returns failure only for another errno, and then the
    error code is zero whatever the caller's variable held. *)
Theorem is_path_valid_classifies
    (TCG_PTS_FILE_NOT_FOUND TCG_PTS_INVALID_PATH : Z)
    (stat : option Z) (error_code : Z) :
  (stat = None ->
   is_path_valid TCG_PTS_FILE_NOT_FOUND TCG_PTS_INVALID_PATH stat error_code
   = (true, 0))
  /\ (forall errno, stat = Some errno -> errno = ENOENT \/ errno = ENOTDIR ->
      is_path_valid TCG_PTS_FILE_NOT_FOUND TCG_PTS_INVALID_PATH stat error_code
      = (true, TCG_PTS_FILE_NOT_FOUND))
  /\ (forall errno, stat = Some errno -> errno = EFAULT ->
      is_path_valid TCG_PTS_FILE_NOT_FOUND TCG_PTS_INVALID_PATH stat error_code
      = (true, TCG_PTS_INVALID_PATH))
  /\ (forall errno, stat = Some errno ->
      errno <> ENOENT -> errno <> ENOTDIR -> errno <> EFAULT ->
      is_path_valid TCG_PTS_FILE_NOT_FOUND TCG_PTS_INVALID_PATH stat error_code
      = (false, 0))
  /\ (fst (is_path_valid TCG_PTS_FILE_NOT_FOUND TCG_PTS_INVALID_PATH
             stat error_code) = false ->
      snd (is_path_valid TCG_PTS_FILE_NOT_FOUND TCG_PTS_INVALID_PATH
             stat error_code) = 0
      /\ exists errno, stat = Some errno
           /\ errno <> ENOENT /\ errno <> ENOTDIR /\ errno <> EFAULT).
Proof.
  unfold is_path_valid, ENOENT, ENOTDIR, EFAULT.
  repeat split.
  - intros ->. reflexivity.
  - intros errno -> [-> | ->]; reflexivity.
  - intros errno -> ->. reflexivity.
  - intros errno -> H1 H2 H3.
    destruct (Z.eqb_spec errno 2) as [|_]; [lia|].
    destruct (Z.eqb_spec errno 20) as [|_]; [lia|].
    destruct (Z.eqb_spec errno 14) as [|_]; [lia|].
    reflexivity.
  - destruct stat as [errno|]; simpl in *; [|discriminate].
    destruct (Z.eqb_spec errno 2); [discriminate|].
    destruct (Z.eqb_spec errno 20); [discriminate|].
    destruct (Z.eqb_spec errno 14); [discriminate|]. reflexivity.
  - destruct stat as [errno|]; simpl in *; [|discriminate].
    exists errno.
    destruct (Z.eqb_spec errno 2); [discriminate|].
    destruct (Z.eqb_spec errno 20); [discriminate|].
    destruct (Z.eqb_spec errno 14); [discriminate|]. auto.
Qed.

(** ** Signature verification *)

(** With a credential held, verify_quote_signature fails when no public key
    can be extracted, and otherwise passes exactly when the key verifies the
    signature under RSA EMSA-PKCS1 with SHA-1. *)
Lemma verify_quote_signature_with_aik (this : private_pts_t)
    (cert : certificate_t) (data signature : list Z) :
  aik this = Some cert ->
  verify_quote_signature this data signature
  = Ret (match get_public_key cert with
         | None => false
         | Some key => verify key SIGN_RSA_EMSA_PKCS1_SHA1 data signature
         end).
Proof.
  intros Haik. unfold verify_quote_signature. rewrite Haik. simpl.
  destruct (get_public_key cert) as [key|]; [|reflexivity].
  destruct (verify key _ data signature); reflexivity.
Qed.

(** C8: on a PTS object that holds no AIK (a fresh IMV-PTS),
    verify_quote_signature follows the NULL pointer [this->aik] instead of
    returning failure, whereas get_aik_keyid tests it and returns FALSE. *)
Theorem verify_quote_signature_without_aik (data signature : list Z) :
  aik fresh_imv = None
  /\ verify_quote_signature fresh_imv data signature = NullDeref
  /\ get_aik_keyid fresh_imv = (false, chunk_empty).
Proof. repeat split. Qed.

(** ** The table of extended PCRs *)

(** C7: select_pcr 5 followed by add_pcr 5 on a fresh IMV-PTS counts the
    register twice: pcr_count is 2 while one bit of the bitmap is set and
    one slot holds a value. *)
Theorem add_pcr_after_select_counts_twice :
  pcr_count (run_ops fresh_imv [OpSelect 5; OpAdd 5 [] (pcr_value 1)]) = 2
  /\ selected_count
       (run_ops fresh_imv [OpSelect 5; OpAdd 5 [] (pcr_value 1)]) = 1
  /\ populated_count
       (run_ops fresh_imv [OpSelect 5; OpAdd 5 [] (pcr_value 1)]) = 1.
Proof. repeat split; vm_compute; reflexivity. Qed.

(** add_pcr rejects a PCR number of 24 or more. *)
Lemma add_pcr_rejects_index (this : private_pts_t) (pcr : Z)
    (pcr_before pcr_after : list Z) :
  PCR_MAX_NUM <= pcr ->
  add_pcr this pcr pcr_before pcr_after = (false, this).
Proof.
  intros Hpcr. unfold add_pcr.
  destruct (Z.leb_spec PCR_MAX_NUM pcr); [reflexivity | lia].
Qed.

(** After a successful add_pcr the register length is the length of the
    value just stored. *)
Lemma add_pcr_fixes_length (this this' : private_pts_t) (pcr : Z)
    (pcr_before pcr_after : list Z) :
  add_pcr this pcr pcr_before pcr_after = (true, this') ->
  pcr_len this' = Z.of_nat (length pcr_after).
Proof.
  unfold add_pcr. intros H.
  destruct (PCR_MAX_NUM <=? pcr); [discriminate|].
  destruct (Z.eqb_spec (pcr_len this) 0) as [H0|H0]; simpl in H.
  - destruct (pcrs this !! Z.to_nat pcr) as [[old|]|];
      inversion H; reflexivity.
  - destruct (Z.eqb_spec (Z.of_nat (length pcr_after)) (pcr_len this))
      as [Heq|Hne]; simpl in H; [|discriminate].
    destruct (pcrs this !! Z.to_nat pcr) as [[old|]|];
      inversion H; simpl; congruence.
Qed.

(** Once the register length is set (not zero), add_pcr of a value of
    another length fails and changes nothing. *)
Lemma add_pcr_rejects_length (this : private_pts_t) (pcr : Z)
    (pcr_before pcr_after : list Z) :
  pcr_len this <> 0 ->
  Z.of_nat (length pcr_after) <> pcr_len this ->
  add_pcr this pcr pcr_before pcr_after = (false, this).
Proof.
  intros Hset Hne. unfold add_pcr.
  destruct (PCR_MAX_NUM <=? pcr); [reflexivity|].
  destruct (Z.eqb_spec (pcr_len this) 0); [contradiction|].
  destruct (Z.eqb_spec (Z.of_nat (length pcr_after)) (pcr_len this));
    [contradiction | reflexivity].
Qed.

(** C6 (as amended): add_pcr rejects every index of 24 or more; a successful
    add_pcr leaves the register length equal to the length of its value; and
    when that value is not empty, every later add_pcr of a value of another
    length fails and leaves the whole object, registry included, unchanged. *)
Theorem add_pcr_register_length (this this' : private_pts_t) (pcr : Z)
    (pcr_before pcr_after : list Z) :
  add_pcr this pcr pcr_before pcr_after = (true, this') ->
  pcr < PCR_MAX_NUM
  /\ pcr_len this' = Z.of_nat (length pcr_after)
  /\ (forall (s : private_pts_t) (pcr' : Z) (pcr_before' pcr_after' : list Z),
        PCR_MAX_NUM <= pcr' ->
        add_pcr s pcr' pcr_before' pcr_after' = (false, s))
  /\ (pcr_after <> [] ->
      forall (pcr' : Z) (pcr_before' pcr_after' : list Z),
        length pcr_after' <> length pcr_after ->
        add_pcr this' pcr' pcr_before' pcr_after' = (false, this')).
Proof.
  intros Hadd.
  pose proof (add_pcr_fixes_length _ _ _ _ _ Hadd) as Hlen.
  split; [|split; [|split]].
  - destruct (Z.leb_spec PCR_MAX_NUM pcr) as [Hge|]; [|assumption].
    rewrite (add_pcr_rejects_index _ _ _ _ Hge) in Hadd. discriminate.
  - assumption.
  - intros. by apply add_pcr_rejects_index.
  - intros Hne pcr' b' a' Hdiff. apply add_pcr_rejects_length.
    + rewrite Hlen. destruct pcr_after; [contradiction | simpl; lia].
    + rewrite Hlen. lia.
Qed.

(** The theorem at add_pcr 3 of a 20 byte value on a fresh IMV-PTS. *)
Lemma add_pcr_register_length_witness :
  pcr_len (snd (add_pcr fresh_imv 3 [] (pcr_value 1))) = 20
  /\ add_pcr (snd (add_pcr fresh_imv 3 [] (pcr_value 1))) 4 [] [1; 2; 3]
     = (false, snd (add_pcr fresh_imv 3 [] (pcr_value 1)))
  /\ add_pcr fresh_imv 24 [] (pcr_value 1) = (false, fresh_imv).
Proof.
  assert (Hadd : add_pcr fresh_imv 3 [] (pcr_value 1)
                 = (true, snd (add_pcr fresh_imv 3 [] (pcr_value 1))))
    by (vm_compute; reflexivity).
  destruct (add_pcr_register_length _ _ _ _ _ Hadd)
    as (_ & Hlen & Hindex & Hlater).
  split; [exact Hlen|]. split.
  - apply Hlater; vm_compute; discriminate.
  - apply Hindex. vm_compute. discriminate.
Defined.

(** C6 (counterexample): after a first successful add_pcr of an empty value
    the register length is 0, the length of that value, and a later add_pcr
    of a one byte value at another index succeeds and sets the register
    length to 1. *)
Lemma add_pcr_empty_value_refixes_length :
  add_pcr fresh_imv 0 [] [] = (true, snd (add_pcr fresh_imv 0 [] []))
  /\ pcr_len (snd (add_pcr fresh_imv 0 [] [])) = Z.of_nat (length (@nil Z))
  /\ fst (add_pcr (snd (add_pcr fresh_imv 0 [] [])) 1 [] [5]) = true
  /\ pcr_len (snd (add_pcr (snd (add_pcr fresh_imv 0 [] [])) 1 [] [5])) = 1.
Proof. repeat split. Qed.

(** ** The shape of the registry is kept *)

Lemma pts_create_registry_ok (lib : library_t) (imc : bool)
    (pf : platform_t) :
  registry_ok (pts_create lib imc pf) /\ values_ok (pts_create lib imc pf).
Proof.
  assert (Hnone : forall (i : nat) (value : list Z),
             replicate (Z.to_nat PCR_MAX_NUM) (@None (list Z)) !! i
             <> Some (Some value)).
  { intros i value Hi. apply lookup_replicate in Hi as [Hi _]. discriminate. }
  unfold pts_create.
  destruct imc; [destruct (probe_tpm_version_info pf)|];
    (split; [split; simpl; try done;
             [intros i value Hi; by apply Hnone in Hi
             | repeat constructor; lia]
            | intros i value Hi; simpl in Hi; by apply Hnone in Hi]).
Qed.

Lemma select_pcr_registry_ok (this : private_pts_t) (pcr : Z) :
  0 <= pcr -> registry_ok this -> registry_ok (snd (select_pcr this pcr)).
Proof.
  intros Hpcr [Hslots Hsel Hmax Hbelow Hbytes]. unfold select_pcr.
  destruct (Z.leb_spec PCR_MAX_NUM pcr); [done|].
  destruct (_ =? 0); [|done].
  split; simpl.
  - done.
  - by rewrite length_insert.
  - lia.
  - intros i value Hi. specialize (Hbelow i value Hi). lia.
  - apply Forall_insert; [done|]. apply Z.mod_pos_bound. lia.
Qed.

Lemma add_pcr_registry_ok (this : private_pts_t) (pcr : Z)
    (pcr_before pcr_after : list Z) :
  0 <= pcr -> registry_ok this ->
  registry_ok (snd (add_pcr this pcr pcr_before pcr_after)).
Proof.
  intros Hpcr [Hslots Hsel Hmax Hbelow Hbytes]. unfold add_pcr.
  destruct (Z.leb_spec PCR_MAX_NUM pcr); [done|].
  destruct (negb _ && negb _); [done|].
  destruct (pcrs this !! Z.to_nat pcr) as [[old|]|] eqn:Hslot; split; simpl;
    rewrite ?length_insert; try done; try lia.
  - intros i value Hi.
    destruct (decide (Z.to_nat pcr = i)) as [<-|Hne].
    + by apply Hbelow in Hslot.
    + rewrite list_lookup_insert_ne in Hi by done. by apply Hbelow in Hi.
  - intros i value Hi.
    destruct (decide (Z.to_nat pcr = i)) as [<-|Hne]; [lia|].
    rewrite list_lookup_insert_ne in Hi by done. apply Hbelow in Hi. lia.
  - apply Forall_insert; [done|]. apply Z.mod_pos_bound. lia.
  - intros i value Hi.
    destruct (decide (Z.to_nat pcr = i)) as [<-|Hne]; [lia|].
    rewrite list_lookup_insert_ne in Hi by done. apply Hbelow in Hi. lia.
  - apply Forall_insert; [done|]. apply Z.mod_pos_bound. lia.
Qed.

(** Stored values keep the register length as long as no empty value is
    added. *)
Lemma add_pcr_values_ok (this : private_pts_t) (pcr : Z)
    (pcr_before pcr_after : list Z) :
  pcr_after <> [] -> values_ok this ->
  values_ok (snd (add_pcr this pcr pcr_before pcr_after)).
Proof.
  intros Hne Hvals. unfold add_pcr.
  destruct (PCR_MAX_NUM <=? pcr); [done|].
  assert (Hpos : Z.of_nat (length pcr_after) <> 0)
    by (destruct pcr_after; [done | simpl; lia]).
  destruct (Z.eqb_spec (pcr_len this) 0) as [H0|H0]; simpl.
  - assert (Hempty : forall i value, pcrs this !! i <> Some (Some value)).
    { intros i value Hi. apply Hvals in Hi. lia. }
    destruct (pcrs this !! Z.to_nat pcr) as [[old|]|] eqn:Hslot;
      [by apply Hempty in Hslot| |];
      intros i value Hi; simpl in *;
      (destruct (decide (Z.to_nat pcr = i)) as [<-|Hd];
       [ apply list_lookup_insert_Some in Hi as [(_ & Hv & _)|[? _]];
         [ injection Hv as <-; done | done ]
       | rewrite list_lookup_insert_ne in Hi by done;
         by apply Hempty in Hi ]).
  - destruct (Z.eqb_spec (Z.of_nat (length pcr_after)) (pcr_len this))
      as [Heq|Hdiff]; simpl; [|done].
    destruct (pcrs this !! Z.to_nat pcr) as [[old|]|] eqn:Hslot;
      intros i value Hi; simpl in *;
      (destruct (decide (Z.to_nat pcr = i)) as [<-|Hd];
       [ apply list_lookup_insert_Some in Hi as [(_ & Hv & _)|[? _]];
         [ injection Hv as <-; done | done ]
       | rewrite list_lookup_insert_ne in Hi by done;
         by apply Hvals in Hi ]).
Qed.

Lemma select_pcr_values_ok (this : private_pts_t) (pcr : Z) :
  values_ok this -> values_ok (snd (select_pcr this pcr)).
Proof.
  intros Hvals. unfold select_pcr.
  destruct (PCR_MAX_NUM <=? pcr); [done|].
  destruct (_ =? 0); done.
Qed.

(** ** clear_pcrs *)

Lemma clear_slots_length (tbl : list (option (list Z))) (l : list nat) :
  length (foldl (fun tbl i => <[i := None]> tbl) tbl l) = length tbl.
Proof.
  revert tbl. induction l as [|i l IH]; intros tbl; simpl; [done|].
  by rewrite IH, length_insert.
Qed.

Lemma clear_slots_lookup (tbl : list (option (list Z))) (n i : nat) :
  foldl (fun tbl i => <[i := None]> tbl) tbl (seq 0 n) !! i
  = if decide (i < n /\ i < length tbl)%nat then Some None else tbl !! i.
Proof.
  induction n as [|n IH].
  - destruct (decide _) as [[? _]|_]; [lia | done].
  - rewrite seq_S, foldl_app. cbn [foldl Nat.add].
    rewrite list_lookup_insert, clear_slots_length, IH.
    repeat destruct (decide _); try done; lia.
Qed.

Lemma clear_pcrs_cleared (this : private_pts_t) :
  registry_ok this -> registry_cleared (clear_pcrs this).
Proof.
  intros [Hslots Hsel Hmax Hbelow Hbytes].
  unfold registry_cleared, clear_pcrs, set_registry.
  cbn [pcrs pcr_count pcr_max pcr_select]. repeat split.
  apply list_eq. intros i. rewrite clear_slots_lookup.
  case_decide as Hi.
  - symmetry. apply lookup_replicate_2. rewrite <- Hslots. lia.
  - destruct (decide (i < length (pcrs this))%nat) as [Hlt|Hge].
    + rewrite lookup_replicate_2 by (rewrite <- Hslots; lia).
      destruct (pcrs this !! i) as [[value|]|] eqn:Hslot.
      * apply Hbelow in Hslot. lia.
      * done.
      * apply lookup_ge_None in Hslot. lia.
    + rewrite !(proj2 (lookup_ge_None _ _));
        rewrite ?length_replicate; try done; lia.
Qed.

Lemma clear_pcrs_registry_ok (this : private_pts_t) :
  registry_ok this ->
  registry_ok (clear_pcrs this) /\ values_ok (clear_pcrs this).
Proof.
  intros Hok. destruct (clear_pcrs_cleared this Hok) as (Htbl & _ & Hmx & Hsel).
  assert (Hnone : forall (i : nat) (value : list Z),
             pcrs (clear_pcrs this) !! i <> Some (Some value)).
  { intros i value Hi. rewrite Htbl in Hi.
    apply lookup_replicate in Hi as [Hi _]. discriminate. }
  split; [split|].
  - rewrite Htbl. apply length_replicate.
  - by rewrite Hsel.
  - rewrite Hmx. done.
  - intros i value Hi. by apply Hnone in Hi.
  - rewrite Hsel. repeat constructor; lia.
  - intros i value Hi. by apply Hnone in Hi.
Qed.

(** ** The counters of the registry *)

Lemma testbit_pow2 (k j : Z) :
  0 <= k -> Z.testbit (Z.shiftl 1 k) j = (k =? j).
Proof.
  intros Hk. rewrite Z.shiftl_1_l.
  rewrite <- (Z.lor_0_l (2 ^ k)), <- Z.setbit_spec', Z.setbit_eqb by done.
  by rewrite Z.bits_0, orb_false_r.
Qed.

(** The byte after [byte |= 1 << k]. *)
Lemma testbit_set_byte (byte k j : Z) :
  0 <= k < 8 -> 0 <= j < 8 ->
  Z.testbit (Z.lor byte (Z.shiftl 1 k) mod 256) j
  = (k =? j) || Z.testbit byte j.
Proof.
  intros Hk Hj. change 256 with (2 ^ 8).
  rewrite Z.mod_pow2_bits_low by lia.
  rewrite Z.lor_spec, testbit_pow2 by lia. apply orb_comm.
Qed.

(** The test [byte & (1 << k)]. *)
Lemma land_pow2_eqb (byte k : Z) :
  0 <= k -> (Z.land byte (Z.shiftl 1 k) =? 0) = negb (Z.testbit byte k).
Proof.
  intros Hk. destruct (Z.testbit byte k) eqn:Hbit; simpl.
  - apply Z.eqb_neq. intros Hzero.
    assert (Hk' : Z.testbit (Z.land byte (Z.shiftl 1 k)) k = true).
    { rewrite Z.land_spec, Hbit, testbit_pow2, Z.eqb_refl by done. done. }
    rewrite Hzero, Z.bits_0 in Hk'. discriminate.
  - apply Z.eqb_eq. apply Z.bits_inj'. intros n Hn.
    rewrite Z.land_spec, testbit_pow2, Z.bits_0 by done.
    destruct (Z.eqb_spec k n) as [->|]; [by rewrite Hbit | apply andb_false_r].
Qed.

(** The bitmap after bit [p] is set, read at bit [i]. *)
Lemma pcr_select_set_bit (sel : list Z) (p i : Z) :
  length sel = 3%nat -> 0 <= p < 24 -> 0 <= i < 24 ->
  Z.testbit
    (default 0
       (<[Z.to_nat (p / 8) :=
            Z.lor (default 0 (sel !! Z.to_nat (p / 8)))
                  (Z.shiftl 1 (p mod 8)) mod 256]> sel
        !! Z.to_nat (i / 8)))
    (i mod 8)
  = (p =? i) || Z.testbit (default 0 (sel !! Z.to_nat (i / 8))) (i mod 8).
Proof.
  intros Hlen Hp Hi.
  assert (0 <= p / 8 <= 2 /\ 0 <= i / 8 <= 2 /\ 0 <= p mod 8 < 8
          /\ 0 <= i mod 8 < 8) as (Hpd & Hid & Hpm & Him)
    by (Z.div_mod_to_equations; lia).
  destruct (decide (p / 8 = i / 8)) as [Heq|Hne].
  - rewrite Heq, list_lookup_insert_eq by lia. simpl.
    rewrite <- Heq, testbit_set_byte by done. f_equal.
    destruct (Z.eqb_spec p i) as [->|Hpi]; [apply Z.eqb_refl|].
    apply Z.eqb_neq. Z.div_mod_to_equations. lia.
  - rewrite list_lookup_insert_ne by lia.
    destruct (Z.eqb_spec p i) as [->|]; done.
Qed.

Section counting.
Context (P Q : Z -> Prop) `{!forall x, Decision (P x)}
  `{!forall x, Decision (Q x)}.

Lemma count_same (l : list Z) :
  (forall x, x ∈ l -> (Q x <-> P x)) ->
  length (filter Q l) = length (filter P l).
Proof.
  induction l as [|y l IH]; intros Hiff; [done|].
  rewrite !filter_cons.
  assert (Hl : forall x, x ∈ l -> (Q x <-> P x))
    by (intros x Hx; apply Hiff; by right).
  destruct (Hiff y) as [H1 H2]; [by left|].
  destruct (decide (Q y)), (decide (P y)); simpl; rewrite ?IH; tauto.
Qed.

Lemma count_one_more (l : list Z) (p : Z) :
  NoDup l -> p ∈ l -> ~ P p ->
  (forall x, x ∈ l -> (Q x <-> x = p \/ P x)) ->
  length (filter Q l) = S (length (filter P l)).
Proof.
  induction l as [|y l IH]; intros Hnd Hin HnP Hiff.
  - by apply elem_of_nil in Hin.
  - apply NoDup_cons in Hnd as [Hy Hnd]. rewrite !filter_cons.
    destruct (decide (y = p)) as [->|Hyp].
    + destruct (decide (Q p)) as [_|HnQ];
        [|exfalso; apply HnQ, Hiff; [by left | by left]].
      destruct (decide (P p)); [done|]. simpl. f_equal.
      apply count_same. intros x Hx. rewrite Hiff by (by right).
      split; [intros [->|]; done | by right].
    + apply elem_of_cons in Hin as [->|Hin]; [done|].
      assert (Hl : forall x, x ∈ l -> (Q x <-> x = p \/ P x))
        by (intros x Hx; apply Hiff; by right).
      destruct (Hiff y) as [H1 H2]; [by left|].
      destruct (decide (Q y)), (decide (P y)); simpl;
        rewrite ?IH by done; try done.
      * destruct H1 as [->|]; done.
      * exfalso. tauto.
Qed.
End counting.

(** Storing a value into a slot that holds one keeps the number of stored
    values; storing into an empty slot adds one. *)
Lemma populated_insert (tbl : list (option (list Z))) (i : nat)
    (value : list Z) :
  (forall old, tbl !! i = Some (Some old) ->
     length (omap id (<[i := Some value]> tbl)) = length (omap id tbl))
  /\ (tbl !! i = Some None ->
      length (omap id (<[i := Some value]> tbl))
      = S (length (omap id tbl))).
Proof.
  revert i. induction tbl as [|slot tbl IH]; intros i; [done|].
  destruct i as [|i]; simpl.
  - split; intros; by simplify_eq.
  - destruct (IH i) as [IH1 IH2]. unfold omap in IH1, IH2.
    split; [intros old Hi | intros Hi]; destruct slot; simpl;
      rewrite ?(IH1 _ Hi), ?(IH2 Hi); done.
Qed.

(** The number of set bits after bit [p] is set. *)
Lemma selected_count_set_bit (this this' : private_pts_t) (p : Z) :
  0 <= p < PCR_MAX_NUM ->
  length (pcr_select this) = 3%nat ->
  pcr_select this'
  = <[Z.to_nat (p / 8) :=
        Z.lor (default 0 (pcr_select this !! Z.to_nat (p / 8)))
              (Z.shiftl 1 (p mod 8)) mod 256]> (pcr_select this) ->
  (forall i, 0 <= i < PCR_MAX_NUM ->
     pcr_selected this' i = (p =? i) || pcr_selected this i)
  /\ selected_count this'
     = selected_count this + (if pcr_selected this p then 0 else 1).
Proof.
  intros Hp Hlen Hsel. unfold PCR_MAX_NUM in *.
  assert (Hbit : forall i, 0 <= i < 24 ->
             pcr_selected this' i = (p =? i) || pcr_selected this i).
  { intros i Hi. unfold pcr_selected. rewrite Hsel.
    by apply pcr_select_set_bit. }
  split; [exact Hbit|]. unfold selected_count, PCR_MAX_NUM.
  destruct (pcr_selected this p) eqn:Hsp.
  - rewrite Z.add_0_r. f_equal. apply count_same.
    intros x Hx. apply elem_of_seqZ in Hx. rewrite Hbit by lia.
    destruct (Z.eqb_spec p x) as [->|]; [by rewrite Hsp | done].
  - rewrite (count_one_more (fun i => pcr_selected this i = true)
               (fun i => pcr_selected this' i = true) _ p).
    + lia.
    + apply NoDup_seqZ.
    + apply elem_of_seqZ. lia.
    + by rewrite Hsp.
    + intros x Hx. apply elem_of_seqZ in Hx. rewrite Hbit by lia.
      destruct (Z.eqb_spec p x) as [->|Hne]; simpl;
        [split; [by left | done] | split; [by right | by intros [->|]]].
Qed.

Lemma populated_count_bound (this : private_pts_t) :
  0 <= selected_count this <= 24
  /\ 0 <= populated_count this <= Z.of_nat (length (pcrs this)).
Proof.
  unfold selected_count, populated_count. split.
  - pose proof (length_filter (fun pcr => pcr_selected this pcr = true)
                  (seqZ 0 PCR_MAX_NUM)) as Hle.
    rewrite length_seqZ in Hle. unfold PCR_MAX_NUM in *. lia.
  - assert (Hle : forall tbl : list (option (list Z)),
               (length (omap id tbl) <= length tbl)%nat).
    { unfold omap. induction tbl as [|[v|] tbl IH]; simpl; lia. }
    specialize (Hle (pcrs this)). lia.
Qed.

Lemma pts_create_registry_inv (lib : library_t) (imc : bool)
    (pf : platform_t) :
  registry_inv (pts_create lib imc pf).
Proof.
  destruct (pts_create_registry_ok lib imc pf) as [Hok _].
  assert (Hclr : registry_cleared (pts_create lib imc pf)).
  { unfold pts_create.
    destruct imc; [destruct (probe_tpm_version_info pf)|]; by repeat split. }
  destruct Hclr as (Htbl & Hcount & Hmax & Hsel).
  split; [done| | |by repeat split].
  - intros i value Hi. rewrite Htbl in Hi.
    apply lookup_replicate in Hi as [Hi _]. discriminate.
  - rewrite Hcount. unfold selected_count, populated_count, pcr_selected.
    rewrite Htbl, Hsel. by vm_compute.
Qed.

Lemma clear_pcrs_registry_inv (this : private_pts_t) :
  registry_ok this -> registry_inv (clear_pcrs this).
Proof.
  intros Hok. destruct (clear_pcrs_registry_ok this Hok) as [Hok' _].
  pose proof (clear_pcrs_cleared this Hok) as Hclr.
  destruct Hclr as (Htbl & Hcount & Hmax & Hsel).
  split; [done| | |by repeat split].
  - intros i value Hi. rewrite Htbl in Hi.
    apply lookup_replicate in Hi as [Hi _]. discriminate.
  - rewrite Hcount. unfold selected_count, populated_count, pcr_selected.
    rewrite Htbl, Hsel. by vm_compute.
Qed.

Lemma select_pcr_registry_inv (this : private_pts_t) (pcr : Z) :
  0 <= pcr -> registry_inv this -> registry_inv (snd (select_pcr this pcr)).
Proof.
  intros Hpcr Hinv.
  pose proof (select_pcr_registry_ok this pcr Hpcr (inv_ok _ Hinv)) as Hok'.
  destruct Hinv as [Hok Hstored Hcount Hempty].
  revert Hok'. unfold select_pcr.
  destruct (Z.leb_spec PCR_MAX_NUM pcr); [by split|].
  rewrite land_pow2_eqb by (Z.div_mod_to_equations; lia).
  rewrite <- Z.mod_eq by done.
  fold (pcr_selected this pcr).
  destruct (pcr_selected this pcr) eqn:Hsel; [by split|].
  cbn [negb snd]. intros Hok'.
  match goal with |- registry_inv ?s => set (this' := s) in * end.
  destruct (selected_count_set_bit this this' pcr) as [Hbit Hcnt];
    [done | apply (ok_select _ Hok) | reflexivity |].
  rewrite Hsel in Hcnt.
  destruct (populated_count_bound this) as [Hsc Hpc].
  rewrite (ok_slots _ Hok) in Hpc. unfold PCR_MAX_NUM in *.
  assert (Hnew : pcr_count this' = pcr_count this + 1).
  { subst this'. cbn [pcr_count set_registry]. apply Z.mod_small.
    change (Z.of_nat (Z.to_nat 24)) with 24 in Hpc. lia. }
  split; [done| | |].
  - intros i value Hi. change (pcrs this') with (pcrs this) in Hi.
    pose proof (lookup_lt_Some _ _ _ Hi) as Hlt.
    rewrite (ok_slots _ Hok) in Hlt.
    rewrite Hbit by (unfold PCR_MAX_NUM in *; lia).
    by rewrite (Hstored i value Hi), orb_true_r.
  - change (populated_count this') with (populated_count this). lia.
  - lia.
Qed.

Lemma add_pcr_registry_inv (this : private_pts_t) (pcr : Z)
    (pcr_before pcr_after : list Z) :
  0 <= pcr -> pcr_after <> [] -> registry_inv this ->
  registry_inv (snd (add_pcr this pcr pcr_before pcr_after)).
Proof.
  intros Hpcr _ Hinv.
  pose proof (add_pcr_registry_ok this pcr pcr_before pcr_after Hpcr
                (inv_ok _ Hinv)) as Hok'.
  destruct Hinv as [Hok Hstored Hcount Hempty].
  revert Hok'. unfold add_pcr.
  destruct (Z.leb_spec PCR_MAX_NUM pcr); [by split|].
  destruct (negb _ && negb _); [by split|].
  destruct (populated_count_bound this) as [Hsc Hpc].
  rewrite (ok_slots _ Hok) in Hpc.
  change (Z.of_nat (Z.to_nat PCR_MAX_NUM)) with 24 in Hpc.
  assert (Hidx : (Z.to_nat pcr < length (pcrs this))%nat)
    by (rewrite (ok_slots _ Hok); unfold PCR_MAX_NUM in *; lia).
  destruct (pcrs this !! Z.to_nat pcr) as [[old|]|] eqn:Hslot; cbn [snd].
  - (* the slot holds a value: it is replaced *)
    intros Hok'.
    match goal with |- registry_inv ?s => set (this' := s) in * end.
    assert (Hpop : populated_count this' = populated_count this).
    { unfold populated_count. subst this'. cbn [pcrs set_registry].
      f_equal. exact (proj1 (populated_insert _ _ pcr_after) old Hslot). }
    assert (Hnz : pcr_count this <> 0).
    { intros Hz. destruct (Hempty Hz) as [Htbl _]. rewrite Htbl in Hslot.
      apply lookup_replicate in Hslot as [? _]. discriminate. }
    split; [done| | |].
    + intros i value Hi.
      change (pcr_selected this' (Z.of_nat i))
        with (pcr_selected this (Z.of_nat i)).
      subst this'. cbn [pcrs set_registry] in Hi.
      destruct (decide (Z.to_nat pcr = i)) as [<-|Hne].
      * by apply (Hstored _ old).
      * rewrite list_lookup_insert_ne in Hi by done. by apply Hstored in Hi.
    + change (selected_count this') with (selected_count this).
      change (pcr_count this') with (pcr_count this). lia.
    + intros Hz. by change (pcr_count this') with (pcr_count this) in Hz.
  - (* the slot is empty: the register is added *)
    intros Hok'.
    match goal with |- registry_inv ?s => set (this' := s) in * end.
    destruct (selected_count_set_bit this this' pcr) as [Hbit Hcnt];
      [done | apply (ok_select _ Hok) | reflexivity |].
    assert (Hpop : populated_count this' = populated_count this + 1).
    { unfold populated_count. subst this'. cbn [pcrs set_registry].
      transitivity (Z.of_nat (S (length (omap id (pcrs this))))); [|lia].
      f_equal. exact (proj2 (populated_insert _ _ pcr_after) Hslot). }
    assert (Hnew : pcr_count this' = pcr_count this + 1).
    { subst this'. cbn [pcr_count set_registry]. apply Z.mod_small. lia. }
    split; [done| | |].
    + intros i value Hi.
      pose proof (lookup_lt_Some _ _ _ Hi) as Hlt.
      rewrite (ok_slots _ Hok') in Hlt.
      rewrite Hbit by (unfold PCR_MAX_NUM in *; lia).
      subst this'. cbn [pcrs set_registry] in Hi.
      destruct (decide (Z.to_nat pcr = i)) as [<-|Hne].
      * rewrite Z2Nat.id, Z.eqb_refl by done. done.
      * rewrite list_lookup_insert_ne in Hi by done.
        by rewrite (Hstored i value Hi), orb_true_r.
    + destruct (pcr_selected this pcr); lia.
    + lia.
  - apply lookup_ge_None in Hslot. lia.
Qed.

(** Every sequence of select_pcr and of add_pcr of non-empty values keeps
    the invariant. *)
Lemma run_ops_registry_inv (this : private_pts_t) (ops : list registry_op) :
  Forall (fun op => match op with
                    | OpSelect pcr => 0 <= pcr
                    | OpAdd pcr _ pcr_after => 0 <= pcr /\ pcr_after <> []
                    end) ops ->
  registry_inv this -> registry_inv (run_ops this ops).
Proof.
  unfold run_ops. intros Hops. revert this.
  induction Hops as [|op ops Hop _ IH]; intros this Hinv; [done|].
  cbn [foldl]. apply IH. destruct op; simpl.
  - by apply select_pcr_registry_inv.
  - destruct Hop. by apply add_pcr_registry_inv.
Qed.

(** ** get_quote_info and the registry *)

Lemma hasher_create_Some (lib : library_t) (alg : hash_algorithm_t)
    (digest : list Z -> list Z) :
  create_hasher lib alg = Some digest ->
  hasher_create lib alg
  = Some {| hasher_digest := digest; hasher_pending := [] |}.
Proof. intros H. unfold hasher_create. by rewrite H. Qed.

(** The invariant reads the four registry fields only. *)
Lemma registry_inv_frame (this this' : private_pts_t) :
  pcrs this' = pcrs this -> pcr_count this' = pcr_count this ->
  pcr_max this' = pcr_max this -> pcr_select this' = pcr_select this ->
  registry_inv this -> registry_inv this'.
Proof.
  intros Htbl Hcount Hmax Hsel [[H1 H2 H3 H4 H5] Hstored Hcnt Hempty].
  assert (Hbits : forall i, pcr_selected this' i = pcr_selected this i)
    by (intros i; unfold pcr_selected; by rewrite Hsel).
  split; [split|..].
  - by rewrite Htbl.
  - by rewrite Hsel.
  - by rewrite Hmax.
  - intros i value. rewrite Htbl, Hmax. apply H4.
  - by rewrite Hsel.
  - intros i value. rewrite Htbl, Hbits. apply Hstored.
  - unfold selected_count, populated_count in *.
    rewrite Htbl, Hcount.
    rewrite (count_same (fun i => pcr_selected this i = true)
               (fun i => pcr_selected this' i = true));
      [done | intros x _; by rewrite Hbits].
  - unfold registry_cleared. rewrite Htbl, Hcount, Hmax, Hsel. apply Hempty.
Qed.

(** The secret negotiation leaves the registry alone. *)
Lemma negotiation_keeps_registry_inv (lib : library_t)
    (this : private_pts_t) :
  registry_inv this ->
  (forall group nonce_len,
     registry_inv (snd (create_dh_nonce lib this group nonce_len)))
  /\ (forall value nonce this',
        set_peer_public_value this value nonce = Ret this' ->
        registry_inv this')
  /\ (forall ok this',
        calculate_secret lib this = Ret (ok, this') -> registry_inv this').
Proof.
  intros Hinv. split; [|split].
  - intros group nonce_len. unfold create_dh_nonce.
    destruct (create_rng lib); [destruct (is_imc _)|];
      by apply (registry_inv_frame this).
  - intros value nonce this'. unfold set_peer_public_value.
    destruct (dh this); [|done]. simpl. destruct (is_imc this);
      intros [= <-]; by apply (registry_inv_frame this).
  - intros ok this'. unfold calculate_secret.
    destruct (_ || _); [by intros [= _ <-]|].
    destruct (dh this) as [d|]; [|done]. simpl.
    destruct (get_shared_secret lib d); [|by intros [= _ <-]].
    destruct (hasher_create lib _); [|done]. simpl.
    intros [= _ <-]. by apply (registry_inv_frame this).
Qed.

(** C1 (as amended): for every registry that satisfies the invariant and
    every combination of use_quote2 and use_ver_info, get_quote_info
    returns (the hashers being available); it succeeds exactly when its
    three preconditions hold, and then the registry is cleared: every slot
    empty, count zero, highest index zero, bitmap all zeros. When a
    precondition fails it returns FALSE, writes no output and leaves the
    object, registry included, as it was: cleared when the failure is that
    no register is selected, since the registry is then empty already, and
    not cleared when the secret or the version info is missing. *)
Theorem get_quote_info_registry_effect (lib : library_t)
    (this : private_pts_t) (use_quote2 use_ver_info : bool)
    (comp_hash_algo : Z) :
  registry_inv this ->
  hashers_available lib comp_hash_algo = true ->
  exists (ok : bool) (this' : private_pts_t) (comp info : chunk_t),
    get_quote_info lib this use_quote2 use_ver_info comp_hash_algo
    = Ret (ok, this', comp, info)
    /\ ok = quote_preconditions this use_quote2 use_ver_info
    /\ (ok = true -> registry_cleared this')
    /\ (ok = false -> this' = this /\ comp = None /\ info = None)
    /\ (pcr_count this = 0 -> ok = false /\ registry_cleared this')
    /\ registry_inv this'.
Proof.
  intros Hinv Hhash. pose proof (inv_ok _ Hinv) as Hok.
  unfold hashers_available in Hhash.
  apply andb_true_iff in Hhash as [Hcomp Hsha1].
  apply bool_decide_eq_true in Hsha1 as [sha1 Hsha1].
  unfold get_quote_info, quote_preconditions.
  assert (Hfail : forall shape : bool,
    negb (pcr_count this =? 0) && shape = false ->
    exists (ok : bool) (this' : private_pts_t) (comp' info' : chunk_t),
      Ret (false, this, @None (list Z), @None (list Z))
      = Ret (ok, this', comp', info')
      /\ ok = negb (pcr_count this =? 0) && shape
      /\ (ok = true -> registry_cleared this')
      /\ (ok = false -> this' = this /\ comp' = None /\ info' = None)
      /\ (pcr_count this = 0 -> ok = false /\ registry_cleared this')
      /\ registry_inv this').
  { intros shape Hshape. exists false, this, None, None.
    split; [reflexivity|]. split; [by rewrite Hshape|].
    split; [discriminate|]. split; [done|]. split; [|done].
    intros Hzero. split; [reflexivity | by apply (inv_empty _ Hinv)]. }
  destruct (Z.eqb_spec (pcr_count this) 0) as [Hzero|Hcount].
  { rewrite <- andb_assoc. apply Hfail. reflexivity. }
  destruct (chunk_is_null (secret this));
    [rewrite <- andb_assoc; apply Hfail; reflexivity|].
  destruct (use_quote2 && use_ver_info
            && chunk_is_null (tpm_version_info this));
    [rewrite <- andb_assoc; apply Hfail; reflexivity|].
  clear Hfail.
  rewrite (hasher_create_Some _ _ _ Hsha1).
  assert (Hdone : forall comp info,
    exists (ok : bool) (this' : private_pts_t) (comp' info' : chunk_t),
      Ret (true, clear_pcrs this, comp, info) = Ret (ok, this', comp', info')
      /\ ok = true
      /\ (ok = true -> registry_cleared this')
      /\ (ok = false -> this' = this /\ comp' = None /\ info' = None)
      /\ (pcr_count this = 0 -> ok = false /\ registry_cleared this')
      /\ registry_inv this').
  { intros comp info. exists true, (clear_pcrs this), comp, info.
    split; [reflexivity|]. split; [reflexivity|].
    split; [intros _; by apply clear_pcrs_cleared|].
    split; [discriminate|]. split; [done|].
    by apply clear_pcrs_registry_inv. }
  destruct (comp_hash_algo =? 0).
  - apply Hdone.
  - apply bool_decide_eq_true in Hcomp as [digest Hcomp].
    rewrite (hasher_create_Some _ _ _ Hcomp). apply Hdone.
Qed.

(** The examples satisfy the invariant. *)
Lemma example_objects_inv :
  registry_inv quoting_imv /\ registry_inv quoting_imc
  /\ registry_inv unnegotiated_imv.
Proof.
  split; [|split].
  - apply add_pcr_registry_inv; [done..|].
    apply (registry_inv_frame fresh_imv); try reflexivity.
    apply pts_create_registry_inv.
  - apply run_ops_registry_inv; [repeat constructor; done|].
    apply (registry_inv_frame (pts_create example_lib true tpm_platform));
      try reflexivity.
    apply pts_create_registry_inv.
  - apply add_pcr_registry_inv; [done..|]. apply pts_create_registry_inv.
Qed.

(** The theorem at an IMV-PTS that holds a secret and the value of PCR 0:
    get_quote_info succeeds and the registry is cleared. *)
Lemma get_quote_info_registry_effect_witness :
  exists (this' : private_pts_t) (comp info : chunk_t),
    get_quote_info example_lib quoting_imv false false 0
    = Ret (true, this', comp, info)
    /\ registry_cleared this'.
Proof.
  destruct (get_quote_info_registry_effect example_lib quoting_imv
              false false 0 (proj1 example_objects_inv) eq_refl)
    as (ok & this' & comp & info & Hrun & Hpre & Hclr & _).
  exists this', comp, info.
  assert (Htrue : ok = true) by (rewrite Hpre; vm_compute; reflexivity).
  split; [by rewrite <- Htrue | by apply Hclr].
Defined.

(** C1 (counterexample): at an IMV-PTS that holds the value of PCR 0 and no
    assessment secret, get_quote_info returns FALSE and the registry is as
    before: one register counted, slot 0 holding its value, bit 0 set. *)
Lemma get_quote_info_failure_keeps_registry :
  get_quote_info example_lib unnegotiated_imv false false 0
  = Ret (false, unnegotiated_imv, None, None)
  /\ pcr_count unnegotiated_imv = 1
  /\ pcrs unnegotiated_imv !! 0%nat = Some (Some (pcr_value 1))
  /\ pcr_select unnegotiated_imv = [1; 0; 0]
  /\ ~ registry_cleared unnegotiated_imv.
Proof.
  repeat split. intros (_ & Hcount & _). vm_compute in Hcount. discriminate.
Qed.

(** ** The Register Composite *)

Lemma size_of_select_ok (this : private_pts_t) :
  registry_ok this ->
  size_of_select this = 3 /\ Z.max 3 (1 + pcr_max this / 8) = 3.
Proof.
  intros [_ _ Hmax _ _]. unfold size_of_select, PCR_MAX_NUM in *.
  assert (0 <= pcr_max this / 8 <= 2) by (Z.div_mod_to_equations; lia).
  change (24 / 8) with 3.
  rewrite Z.max_l by lia. done.
Qed.

Lemma write_pcr_select_ok (this : private_pts_t) (w : bio_writer_t) :
  registry_ok this -> write_pcr_select this w = w ++ pcr_select this.
Proof.
  intros Hok. destruct (size_of_select_ok this Hok) as [Hsize _].
  destruct Hok as [_ Hsel _ _ Hbytes].
  unfold write_pcr_select. rewrite Hsize.
  destruct (pcr_select this) as [|a [|b [|c [|? ?]]]]; try discriminate.
  apply Forall_cons in Hbytes as [Ha Hbytes].
  apply Forall_cons in Hbytes as [Hb Hbytes].
  apply Forall_cons in Hbytes as [Hc _].
  simpl. unfold write_uint8.
  rewrite !Z.mod_small by lia. by rewrite <- !app_assoc.
Qed.

Lemma write_values_foldl (tbl : list (option (list Z))) (n : nat)
    (w : bio_writer_t) :
  (forall (i : nat) (value : list Z),
      tbl !! i = Some (Some value) -> length value = n) ->
  foldl (fun w i =>
           match tbl !! i with
           | Some (Some value) => write_data w (take n value)
           | _ => w
           end) w (seq 0 (length tbl))
  = w ++ concat (omap id tbl).
Proof.
  revert w. induction tbl as [|slot tbl IH]; intros w Hlen.
  - simpl. by rewrite app_nil_r.
  - cbn [length seq foldl]. rewrite <- fmap_S_seq, foldl_fmap.
    cbn [lookup list_lookup].
    rewrite IH by (intros i value Hi; by apply (Hlen (S i))).
    destruct slot as [value|]; simpl.
    + unfold write_data.
      rewrite take_ge by (rewrite (Hlen 0%nat value eq_refl); lia).
      by rewrite <- app_assoc.
    + done.
Qed.

Lemma write_pcr_values_ok (this : private_pts_t) (w : bio_writer_t) :
  registry_ok this -> values_ok this ->
  write_pcr_values this w = w ++ concat (stored_values this).
Proof.
  intros Hok Hvals. destruct (size_of_select_ok this Hok) as [Hsize _].
  unfold write_pcr_values, stored_values. rewrite Hsize.
  change (Z.to_nat (8 * 3)) with (Z.to_nat PCR_MAX_NUM).
  rewrite <- (ok_slots this Hok).
  apply write_values_foldl.
  intros i value Hi. apply Hvals in Hi as [Hi _]. lia.
Qed.

(** The stored values, each of the register length, make a value block of
    as many register lengths as there are stored values. *)
Lemma stored_values_length (this : private_pts_t) :
  values_ok this ->
  Z.of_nat (length (concat (stored_values this)))
  = populated_count this * pcr_len this.
Proof.
  intros Hvalues. unfold populated_count, stored_values.
  assert (Hall : Forall (fun value => Z.of_nat (length value) = pcr_len this)
                   (omap id (pcrs this))).
  { apply Forall_forall. intros value (slot & Hin & Hslot)%list_elem_of_omap.
    simpl in Hslot. subst slot.
    apply list_elem_of_lookup in Hin as [i Hi].
    by destruct (Hvalues i value Hi). }
  induction Hall as [|value l Hvalue _ IH]; [done|].
  cbn [concat length]. rewrite length_app. lia.
Qed.

(** The TPM_PCR_COMPOSITE built by the code is the Register Composite of
    the specification where every counted register holds a value: the
    code writes pcr_count * pcr_len as the length of the value block. *)
Lemma pcr_composite_spec (this : private_pts_t) :
  registry_ok this -> values_ok this ->
  pcr_count this = populated_count this ->
  pcr_composite this = spec_register_composite this.
Proof.
  intros Hok Hvals Hcount.
  destruct (size_of_select_ok this Hok) as [Hsize Hwidth].
  unfold pcr_composite, spec_register_composite.
  rewrite Hwidth, (stored_values_length this Hvals), <- Hcount.
  rewrite write_pcr_values_ok, write_pcr_select_ok by done.
  unfold write_uint32, write_uint16, bio_writer_create. rewrite Hsize.
  rewrite take_ge by (rewrite (ok_select this Hok); done).
  by rewrite <- !app_assoc.
Qed.

(** The big-endian bytes denote the number written, modulo the width. *)
Lemma uint16_be_value (v : Z) :
  exists hi lo, uint16_be v = [hi; lo]
    /\ 0 <= hi < 256 /\ 0 <= lo < 256 /\ hi * 2 ^ 8 + lo = v mod 2 ^ 16.
Proof.
  exists (v / 2 ^ 8 mod 256), (v mod 256). split; [done|].
  pose proof (Z.mod_pos_bound (v / 2 ^ 8) 256 eq_refl).
  pose proof (Z.mod_pos_bound v 256 eq_refl).
  repeat split; try lia.
  change (2 ^ 16) with 65536. change (2 ^ 8) with 256.
  clear. Z.div_mod_to_equations. lia.
Qed.

Lemma uint32_be_value (v : Z) :
  exists b3 b2 b1 b0, uint32_be v = [b3; b2; b1; b0]
    /\ 0 <= b3 < 256 /\ 0 <= b2 < 256 /\ 0 <= b1 < 256 /\ 0 <= b0 < 256
    /\ b3 * 2 ^ 24 + b2 * 2 ^ 16 + b1 * 2 ^ 8 + b0 = v mod 2 ^ 32.
Proof.
  exists (v / 2 ^ 24 mod 256), (v / 2 ^ 16 mod 256),
         (v / 2 ^ 8 mod 256), (v mod 256). split; [done|].
  pose proof (Z.mod_pos_bound (v / 2 ^ 24) 256 eq_refl).
  pose proof (Z.mod_pos_bound (v / 2 ^ 16) 256 eq_refl).
  pose proof (Z.mod_pos_bound (v / 2 ^ 8) 256 eq_refl).
  pose proof (Z.mod_pos_bound v 256 eq_refl).
  repeat split; try lia.
  change (2 ^ 32) with 4294967296. change (2 ^ 24) with 16777216.
  change (2 ^ 16) with 65536. change (2 ^ 8) with 256.
  clear. Z.div_mod_to_equations. lia.
Qed.

(** get_quote_info when its preconditions hold and its hashers exist. *)
Lemma get_quote_info_success (lib : library_t) (this : private_pts_t)
    (use_quote2 use_ver_info : bool) (comp_hash_algo : Z)
    (sha1 : list Z -> list Z) (comp : chunk_t) :
  quote_preconditions this use_quote2 use_ver_info = true ->
  create_hasher lib HASH_SHA1 = Some sha1 ->
  composite_output lib comp_hash_algo (pcr_composite this) = Some comp ->
  get_quote_info lib this use_quote2 use_ver_info comp_hash_algo
  = Ret (true, clear_pcrs this, comp,
         Some (quote_info this use_quote2 use_ver_info
                 (Some (sha1 (pcr_composite this))))).
Proof.
  unfold quote_preconditions, get_quote_info, composite_output.
  intros Hpre Hsha1 Hcomp.
  apply andb_true_iff in Hpre as [Hpre Hver].
  apply andb_true_iff in Hpre as [Hcount Hsecret].
  apply negb_true_iff in Hcount, Hsecret, Hver.
  rewrite Hcount, Hsecret, Hver.
  unfold hasher_create. rewrite Hsha1.
  revert Hcomp. destruct (comp_hash_algo =? 0).
  - cbn. intros Hcomp. simplify_eq. reflexivity.
  - destruct (create_hasher lib (pts_meas_algo_to_hash lib comp_hash_algo))
      as [digest|]; [|done].
    cbn. intros Hcomp. simplify_eq. reflexivity.
Qed.

(** add_pcr of a non-empty value into an empty slot, the register length
    being unset or that of the value. *)
Lemma add_pcr_fresh (this : private_pts_t) (pcr : Z)
    (pcr_before pcr_after : list Z) :
  0 <= pcr < PCR_MAX_NUM -> pcr_after <> [] ->
  pcr_len this = 0 \/ pcr_len this = Z.of_nat (length pcr_after) ->
  pcrs this !! Z.to_nat pcr = Some None ->
  pcrs (snd (add_pcr this pcr pcr_before pcr_after))
  = <[Z.to_nat pcr := Some pcr_after]> (pcrs this)
  /\ pcr_len (snd (add_pcr this pcr pcr_before pcr_after))
     = Z.of_nat (length pcr_after)
  /\ pcr_count (snd (add_pcr this pcr pcr_before pcr_after))
     = (pcr_count this + 1) mod 2 ^ 32
  /\ pcr_max (snd (add_pcr this pcr pcr_before pcr_after))
     = Z.max (pcr_max this) pcr
  /\ pcr_select (snd (add_pcr this pcr pcr_before pcr_after))
     = <[Z.to_nat (pcr / 8) :=
           Z.lor (default 0 (pcr_select this !! Z.to_nat (pcr / 8)))
                 (Z.shiftl 1 (pcr mod 8)) mod 256]> (pcr_select this).
Proof.
  intros Hpcr _ Hlen Hslot. unfold add_pcr.
  destruct (Z.leb_spec PCR_MAX_NUM pcr); [lia|].
  rewrite Hslot.
  destruct (Z.eqb_spec (pcr_len this) 0) as [H0|H0]; simpl.
  - done.
  - destruct (Z.eqb_spec (Z.of_nat (length pcr_after)) (pcr_len this));
      simpl; [|lia].
    repeat split; lia.
Qed.

(** Where pcr_count is the number of stored values: for every registry of
    the right shape whose stored values have the register length, the
    Composite that get_quote_info encodes is the 2-byte big-endian selection
    width max(3, 1 + pcr_max / 8), that many bytes of the selection bitmap,
    the 4-byte big-endian length of the value block, and the stored values
    in ascending index order; with no composite hash algorithm this
    Composite is the first output of get_quote_info. In particular, after
    add_pcr at 0, 1 and 23 of values of one length R on a cleared registry,
    byte 0 of the bitmap has bits 0 and 1 set, byte 2 has bit 7 set, and the
    value block has length 3 * R. *)
Lemma register_composite_layout (lib : library_t) (this : private_pts_t)
    (use_quote2 use_ver_info : bool) (sha1 : list Z -> list Z)
    (v0 v1 v23 : list Z) :
  registry_ok this -> values_ok this ->
  (pcr_count this = populated_count this ->
   pcr_composite this = spec_register_composite this
   /\ (quote_preconditions this use_quote2 use_ver_info = true ->
       create_hasher lib HASH_SHA1 = Some sha1 ->
       get_quote_info lib this use_quote2 use_ver_info 0
       = Ret (true, clear_pcrs this, Some (spec_register_composite this),
              Some (quote_info this use_quote2 use_ver_info
                      (Some (sha1 (spec_register_composite this)))))))
  /\ (v0 <> [] -> length v1 = length v0 -> length v23 = length v0 ->
      pcr_len this = 0 \/ pcr_len this = Z.of_nat (length v0) ->
      pcr_select (run_ops (clear_pcrs this)
                    [OpAdd 0 [] v0; OpAdd 1 [] v1; OpAdd 23 [] v23])
      = [3; 0; 128]
      /\ Z.testbit 3 0 = true /\ Z.testbit 3 1 = true
      /\ Z.testbit 128 7 = true
      /\ pcr_composite (run_ops (clear_pcrs this)
                          [OpAdd 0 [] v0; OpAdd 1 [] v1; OpAdd 23 [] v23])
         = [0; 3] ++ [3; 0; 128]
           ++ uint32_be (3 * Z.of_nat (length v0))
           ++ (v0 ++ v1 ++ v23)
      /\ Z.of_nat (length (v0 ++ v1 ++ v23)) = 3 * Z.of_nat (length v0)).
Proof.
  intros Hok Hvals. split.
  { intros Hexact.
    pose proof (pcr_composite_spec this Hok Hvals Hexact) as Hspec.
    split; [exact Hspec|].
    intros Hpre Hsha1. rewrite <- Hspec.
    by apply get_quote_info_success. }
  intros Hne Hl1 Hl23 Hlen.
  destruct (clear_pcrs_cleared this Hok) as (Htbl & Hcount & Hmax & Hsel).
  destruct (clear_pcrs_registry_ok this Hok) as [Hok0 Hvals0].
  assert (Hlen0 : pcr_len (clear_pcrs this) = pcr_len this) by reflexivity.
  assert (Hne1 : v1 <> []) by (intros ->; destruct v0; done).
  assert (Hne23 : v23 <> []) by (intros ->; destruct v0; done).
  unfold run_ops. cbn [foldl apply_op].
  set (s0 := clear_pcrs this) in *.
  set (s1 := snd (add_pcr s0 0 [] v0)).
  set (s2 := snd (add_pcr s1 1 [] v1)).
  set (s3 := snd (add_pcr s2 23 [] v23)).
  destruct (add_pcr_fresh s0 0 [] v0) as (Ht1 & Hn1 & Hc1 & Hm1 & Hs1);
    [done | done | by rewrite Hlen0 | by rewrite Htbl |].
  fold s1 in Ht1, Hn1, Hc1, Hm1, Hs1.
  rewrite Htbl in Ht1. rewrite Hcount in Hc1. rewrite Hmax in Hm1.
  rewrite Hsel in Hs1.
  destruct (add_pcr_fresh s1 1 [] v1) as (Ht2 & Hn2 & Hc2 & Hm2 & Hs2);
    [done | done | right; rewrite Hn1; lia | by rewrite Ht1 |].
  fold s2 in Ht2, Hn2, Hc2, Hm2, Hs2.
  rewrite Ht1 in Ht2. rewrite Hc1 in Hc2. rewrite Hm1 in Hm2.
  rewrite Hs1 in Hs2.
  destruct (add_pcr_fresh s2 23 [] v23) as (Ht3 & Hn3 & Hc3 & Hm3 & Hs3);
    [done | done | right; rewrite Hn2; lia | by rewrite Ht2 |].
  fold s3 in Ht3, Hn3, Hc3, Hm3, Hs3.
  rewrite Ht2 in Ht3. rewrite Hc2 in Hc3. rewrite Hm2 in Hm3.
  rewrite Hs2 in Hs3.
  assert (Hok3 : registry_ok s3).
  { repeat (apply add_pcr_registry_ok; [lia|]). exact Hok0. }
  assert (Hvals3 : values_ok s3).
  { repeat (apply add_pcr_values_ok; [done|]). exact Hvals0. }
  assert (Hexact3 : pcr_count s3 = populated_count s3).
  { unfold populated_count. by rewrite Hc3, Ht3. }
  split; [exact Hs3|]. repeat (split; [reflexivity|]).
  split.
  - rewrite (pcr_composite_spec s3 Hok3 Hvals3 Hexact3).
    unfold spec_register_composite, stored_values.
    rewrite Ht3, Hm3, Hs3.
    simpl. rewrite app_nil_r, !length_app.
    by replace (Z.of_nat (length v0 + (length v1 + length v23)))
      with (3 * Z.of_nat (length v0)) by lia.
  - rewrite !length_app. lia.
Qed.

(** ** The Quote Info structures *)

(** The examples have the shape of a registry. *)
Lemma example_objects_ok :
  (registry_ok quoting_imv /\ values_ok quoting_imv)
  /\ (registry_ok quoting_imc /\ values_ok quoting_imc).
Proof.
  assert (Hnone : forall (i : nat) (value : list Z),
             replicate 24 (@None (list Z)) !! i <> Some (Some value)).
  { intros i value Hi. apply lookup_replicate in Hi as [Hi _]. discriminate. }
  assert (Hbase : forall this,
             pcrs this = replicate 24 None -> pcr_select this = [0; 0; 0] ->
             pcr_max this = 0 -> registry_ok this /\ values_ok this).
  { intros this Htbl Hsel Hmax. split; [split|].
    - by rewrite Htbl.
    - by rewrite Hsel.
    - rewrite Hmax. done.
    - intros i value Hi. rewrite Htbl in Hi. by apply Hnone in Hi.
    - rewrite Hsel. repeat constructor; lia.
    - intros i value Hi. rewrite Htbl in Hi. by apply Hnone in Hi. }
  split.
  - destruct (Hbase (negotiate fresh_imv [5] (replicate 20 3)))
      as [Hok Hvals]; [reflexivity..|].
    split; [by apply add_pcr_registry_ok | by apply add_pcr_values_ok].
  - destruct (Hbase (negotiate (pts_create example_lib true tpm_platform)
                       [5] (replicate 20 3)))
      as [Hok Hvals]; [reflexivity..|].
    unfold quoting_imc, run_ops. cbn [foldl apply_op].
    split; [by repeat (apply add_pcr_registry_ok; [lia|])
           | by repeat (apply add_pcr_values_ok; [done|])].
Qed.

(** The lemma at an IMV-PTS that holds PCR 0, and at three 20 byte
    values. *)
Lemma register_composite_layout_witness :
  pcr_composite quoting_imv = spec_register_composite quoting_imv
  /\ get_quote_info example_lib quoting_imv false false 0
     = Ret (true, clear_pcrs quoting_imv,
            Some (spec_register_composite quoting_imv),
            Some (quote_info quoting_imv false false
                    (Some (prefix_digest 20
                             (spec_register_composite quoting_imv)))))
  /\ pcr_select (run_ops (clear_pcrs quoting_imv)
                   [OpAdd 0 [] (pcr_value 1); OpAdd 1 [] (pcr_value 2);
                    OpAdd 23 [] (pcr_value 3)])
     = [3; 0; 128].
Proof.
  destruct example_objects_ok as [[Hok Hvals] _].
  destruct (register_composite_layout example_lib quoting_imv false false
              (prefix_digest 20) (pcr_value 1) (pcr_value 2) (pcr_value 3)
              Hok Hvals) as (Hexact & Hthree).
  destruct (Hexact eq_refl) as [Hcomp Hquote].
  split; [exact Hcomp|]. split; [by apply Hquote|].
  refine (proj1 (Hthree _ _ _ _)).
  - vm_compute. discriminate.
  - reflexivity.
  - reflexivity.
  - right. reflexivity.
Defined.

(** C4: the length field of the Composite is not the length of the value
    block once a register was counted twice. On an IMV-PTS with an
    assessment secret, after select_pcr 5 and add_pcr 5 of a 20 byte
    value, get_quote_info encodes the width 3, the bitmap bytes 32 0 0,
    the length 40 and then the one stored value of 20 bytes; the Register
    Composite of the specification has the length 20 there. *)
Theorem register_composite_length_field :
  (exists info : list Z,
     get_quote_info example_lib reselected_imv false false 0
     = Ret (true, clear_pcrs reselected_imv,
            Some ([0; 3] ++ [32; 0; 0] ++ [0; 0; 0; 40] ++ pcr_value 1),
            Some info))
  /\ pcr_count reselected_imv = 2 /\ pcr_len reselected_imv = 20
  /\ stored_values reselected_imv = [pcr_value 1]
  /\ length (concat (stored_values reselected_imv)) = 20%nat
  /\ spec_register_composite reselected_imv
     = [0; 3] ++ [32; 0; 0] ++ [0; 0; 0; 20] ++ pcr_value 1
  /\ pcr_composite reselected_imv <> spec_register_composite reselected_imv.
Proof.
  split; [eexists; vm_compute; reflexivity|].
  repeat (split; [vm_compute; reflexivity|]).
  vm_compute. discriminate.
Qed.

(** C2 (as amended): when the preconditions of get_quote_info hold, the
    SHA-1 hasher gives 20 bytes and the assessment secret has its 20 bytes,
    the legacy (use_quote2 false) Quote Info is exactly 48 bytes: the version
    01 01 00 00, the 4 bytes "QUOT", the SHA-1 digest of the Composite and
    the assessment secret. *)
Theorem legacy_quote_info_layout (lib : library_t) (this : private_pts_t)
    (use_ver_info : bool) (comp_hash_algo : Z) (sha1 : list Z -> list Z)
    (comp : chunk_t) :
  quote_preconditions this false use_ver_info = true ->
  create_hasher lib HASH_SHA1 = Some sha1 ->
  composite_output lib comp_hash_algo (pcr_composite this) = Some comp ->
  (forall data, length (sha1 data) = 20%nat) ->
  length (chunk_data (secret this)) = 20%nat ->
  exists info : list Z,
    get_quote_info lib this false use_ver_info comp_hash_algo
    = Ret (true, clear_pcrs this, comp, Some info)
    /\ info = [1; 1; 0; 0] ++ [81; 85; 79; 84]
              ++ sha1 (pcr_composite this) ++ chunk_data (secret this)
    /\ length info = 48%nat.
Proof.
  intros Hpre Hsha1 Hcomp Hdigest Hsecret.
  eexists. split; [by apply get_quote_info_success|].
  unfold quote_info, write_data, bio_writer_create.
  change (chunk_data (Some (sha1 (pcr_composite this))))
    with (sha1 (pcr_composite this)).
  split.
  - by rewrite <- !app_assoc.
  - rewrite !length_app, Hdigest, Hsecret. reflexivity.
Qed.

(** The theorem at an IMV-PTS that holds a secret and PCR 0. *)
Lemma legacy_quote_info_layout_witness :
  exists info : list Z,
    get_quote_info example_lib quoting_imv false false 0
    = Ret (true, clear_pcrs quoting_imv, Some (pcr_composite quoting_imv),
           Some info)
    /\ info = [1; 1; 0; 0] ++ [81; 85; 79; 84]
              ++ prefix_digest 20 (pcr_composite quoting_imv)
              ++ chunk_data (secret quoting_imv)
    /\ length info = 48%nat.
Proof.
  apply (legacy_quote_info_layout example_lib quoting_imv false 0
           (prefix_digest 20)).
  - reflexivity.
  - reflexivity.
  - reflexivity.
  - intros data. unfold prefix_digest.
    rewrite length_take, length_app, length_replicate. lia.
  - reflexivity.
Defined.

(** C2 (counterexample): at an IMV-PTS that holds a 20 byte secret and
    PCR 0, the legacy Quote Info has 48 bytes, not 56, and starts with
    01 01 00 00, so it is not the structure that starts with 01 00 00 00. *)
Lemma legacy_quote_info_version_bytes :
  get_quote_info example_lib quoting_imv false false 0
  = Ret (true, clear_pcrs quoting_imv, Some (pcr_composite quoting_imv),
         Some ([1; 1; 0; 0] ++ [81; 85; 79; 84]
               ++ prefix_digest 20 (pcr_composite quoting_imv)
               ++ chunk_data (secret quoting_imv)))
  /\ length (chunk_data (secret quoting_imv)) = 20%nat
  /\ length ([1; 1; 0; 0] ++ [81; 85; 79; 84]
             ++ prefix_digest 20 (pcr_composite quoting_imv)
             ++ chunk_data (secret quoting_imv)) = 48%nat
  /\ [1; 1; 0; 0] ++ [81; 85; 79; 84]
     ++ prefix_digest 20 (pcr_composite quoting_imv)
     ++ chunk_data (secret quoting_imv)
     <> spec_legacy_quote_info
          (prefix_digest 20 (pcr_composite quoting_imv))
          (chunk_data (secret quoting_imv)).
Proof.
  repeat (split; [reflexivity|]). unfold spec_legacy_quote_info.
  discriminate.
Qed.

(** C5 (as amended): when the preconditions of get_quote_info hold on a
    registry of the right shape, the extended (use_quote2) Quote Info is:
    the 2-byte tag 0x0036, the 4 bytes "QUT2", the assessment secret, the
    2-byte selection width, that many bytes of the selection bitmap, one
    locality byte of value 1 (TPM_LOC_ZERO, the mask bit of locality zero),
    the SHA-1 digest of the Composite, and the TPM version info exactly
    when use_ver_info is set; with a 20 byte secret and a 20 byte digest
    the part before the version info has 52 bytes. *)
Theorem extended_quote_info_layout (lib : library_t) (this : private_pts_t)
    (use_ver_info : bool) (comp_hash_algo : Z) (sha1 : list Z -> list Z)
    (comp : chunk_t) :
  registry_ok this ->
  quote_preconditions this true use_ver_info = true ->
  create_hasher lib HASH_SHA1 = Some sha1 ->
  composite_output lib comp_hash_algo (pcr_composite this) = Some comp ->
  (forall data, length (sha1 data) = 20%nat) ->
  length (chunk_data (secret this)) = 20%nat ->
  exists info : list Z,
    get_quote_info lib this true use_ver_info comp_hash_algo
    = Ret (true, clear_pcrs this, comp, Some info)
    /\ info = [0; 54] ++ [81; 85; 84; 50]
              ++ chunk_data (secret this)
              ++ uint16_be (Z.max 3 (1 + pcr_max this / 8))
              ++ take (Z.to_nat (Z.max 3 (1 + pcr_max this / 8)))
                      (pcr_select this)
              ++ [1]
              ++ sha1 (pcr_composite this)
              ++ (if use_ver_info
                  then chunk_data (tpm_version_info this) else [])
    /\ (use_ver_info = true -> is_Some (tpm_version_info this))
    /\ length info
       = (52 + if use_ver_info
               then length (chunk_data (tpm_version_info this)) else 0)%nat.
Proof.
  intros Hok Hpre Hsha1 Hcomp Hdigest Hsecret.
  destruct (size_of_select_ok this Hok) as [Hsize Hwidth].
  eexists. split; [by apply get_quote_info_success|].
  assert (Hinfo :
      quote_info this true use_ver_info (Some (sha1 (pcr_composite this)))
      = [0; 54] ++ [81; 85; 84; 50] ++ chunk_data (secret this)
        ++ [0; 3] ++ pcr_select this ++ [1] ++ sha1 (pcr_composite this)
        ++ (if use_ver_info
            then chunk_data (tpm_version_info this) else [])).
  { unfold quote_info. rewrite write_pcr_select_ok by done. rewrite Hsize.
    unfold write_data, write_uint16, write_uint8, bio_writer_create.
    change (chunk_data (Some (sha1 (pcr_composite this))))
      with (sha1 (pcr_composite this)).
    destruct use_ver_info; rewrite <- ?app_assoc; [done|].
    by rewrite app_nil_r. }
  rewrite Hinfo, Hwidth.
  rewrite take_ge by (rewrite (ok_select this Hok); done).
  split; [done|]. split.
  - intros ->. unfold quote_preconditions in Hpre.
    destruct (tpm_version_info this); [done|].
    simpl in Hpre. by rewrite !andb_false_r in Hpre.
  - rewrite !length_app, Hdigest, Hsecret, (ok_select this Hok).
    destruct use_ver_info; simpl; lia.
Qed.

(** The theorem at an IMC-PTS with a TPM that holds a secret and two PCR
    values, with the version info appended. *)
Lemma extended_quote_info_layout_witness :
  exists info : list Z,
    get_quote_info example_lib quoting_imc true true 0
    = Ret (true, clear_pcrs quoting_imc, Some (pcr_composite quoting_imc),
           Some info)
    /\ info = [0; 54] ++ [81; 85; 84; 50]
              ++ chunk_data (secret quoting_imc)
              ++ [0; 3] ++ [1; 4; 0] ++ [1]
              ++ prefix_digest 20 (pcr_composite quoting_imc)
              ++ replicate 15 4
    /\ length info = 67%nat.
Proof.
  destruct example_objects_ok as [_ [Hok _]].
  destruct (extended_quote_info_layout example_lib quoting_imc true 0
              (prefix_digest 20) (Some (pcr_composite quoting_imc)) Hok)
    as (info & Hrun & Hinfo & _ & Hlen).
  - reflexivity.
  - reflexivity.
  - reflexivity.
  - intros data. unfold prefix_digest.
    rewrite length_take, length_app, length_replicate. lia.
  - reflexivity.
  - exists info. split; [exact Hrun|]. split; [exact Hinfo | exact Hlen].
Defined.

(** The locality byte is not 0: at the IMC-PTS with a TPM, byte 31 of the
    extended Quote Info, behind the tag, "QUT2", the secret, the width and
    the three bitmap bytes, is 1, and the Quote Info differs from the
    layout of the specification, which has the value 0 there. *)
Lemma extended_quote_info_locality_byte :
  (exists info : list Z,
     get_quote_info example_lib quoting_imc true false 0
     = Ret (true, clear_pcrs quoting_imc, Some (pcr_composite quoting_imc),
            Some info)
     /\ length (chunk_data (secret quoting_imc)) = 20%nat
     /\ info !! 31%nat = Some 1
     /\ spec_extended_quote_info (chunk_data (secret quoting_imc)) 3
          [1; 4; 0] (prefix_digest 20 (pcr_composite quoting_imc)) []
        !! 31%nat = Some 0
     /\ info <> spec_extended_quote_info (chunk_data (secret quoting_imc)) 3
                  [1; 4; 0] (prefix_digest 20 (pcr_composite quoting_imc))
                  []).
Proof.
  eexists. split; [vm_compute; reflexivity|].
  repeat (split; [vm_compute; reflexivity|]).
  vm_compute. discriminate.
Qed.

(** ** The assessment secret *)

(** create_dh_nonce writes the nonce of this side: on an IMC (the measurer)
    the responder nonce, on an IMV (the verifier) the initiator nonce; the
    nonce of the other side is left as it was. *)
Lemma create_dh_nonce_own_side (lib : library_t) (this : private_pts_t)
    (group nonce_len : Z) (rng : Z -> list Z) :
  create_rng lib = Some rng ->
  fst (create_dh_nonce lib this group nonce_len) = true
  /\ nonce_of_side (is_imc this)
       (snd (create_dh_nonce lib this group nonce_len))
     = Some (rng nonce_len)
  /\ nonce_of_side (negb (is_imc this))
       (snd (create_dh_nonce lib this group nonce_len))
     = nonce_of_side (negb (is_imc this)) this
  /\ is_imc (snd (create_dh_nonce lib this group nonce_len)) = is_imc this.
Proof.
  intros Hrng. unfold create_dh_nonce. rewrite Hrng. simpl.
  destruct (is_imc this) eqn:Himc; simpl; rewrite ?Himc; done.
Qed.

(** set_peer_public_value writes the nonce of the other side. *)
Lemma set_peer_public_value_other_side (this : private_pts_t)
    (d : diffie_hellman_t) (value nonce : list Z) :
  dh this = Some d ->
  exists this', set_peer_public_value this value nonce = Ret this'
    /\ nonce_of_side (negb (is_imc this)) this' = Some nonce
    /\ nonce_of_side (is_imc this) this' = nonce_of_side (is_imc this) this
    /\ is_imc this' = is_imc this.
Proof.
  intros Hdh. unfold set_peer_public_value. rewrite Hdh. simpl.
  eexists. split; [reflexivity|].
  destruct (is_imc this) eqn:Himc; simpl; rewrite ?Himc; done.
Qed.

(** The secret that calculate_secret stores has at most 20 bytes, and
    exactly 20 when the digest gives at least 20. *)
Lemma assessment_secret_length (digest : list Z -> list Z) (data : list Z) :
  (length (take 20 (digest data)) <= 20)%nat
  /\ ((20 <= length (digest data))%nat ->
      length (take 20 (digest data)) = 20%nat).
Proof. rewrite length_take. lia. Qed.

(** C3 (as amended): calculate_secret fails, changing nothing, when the
    initiator or the responder nonce is absent, and when the DH object gives
    no shared secret. Otherwise it succeeds and stores as assessment secret
    the digest, under the DH hash algorithm, of "1" || initiator nonce ||
    responder nonce || shared secret, that is "1" || verifier nonce ||
    measurer nonce || shared secret, truncated to at most 20 bytes; the
    secret depends on the object through the two nonces, the DH hash
    algorithm and the shared secret only. *)
Theorem calculate_secret_spec (lib : library_t) (this : private_pts_t)
    (d : diffie_hellman_t) (digest : list Z -> list Z) :
  (chunk_len (initiator_nonce this) = 0
   \/ chunk_len (responder_nonce this) = 0 ->
   calculate_secret lib this = Ret (false, this))
  /\ (dh this = Some d -> get_shared_secret lib d = None ->
      calculate_secret lib this = Ret (false, this))
  /\ (forall shared_secret : list Z,
        chunk_len (initiator_nonce this) <> 0 ->
        chunk_len (responder_nonce this) <> 0 ->
        dh this = Some d ->
        get_shared_secret lib d = Some shared_secret ->
        create_hasher lib (pts_meas_algo_to_hash lib (dh_hash_algorithm this))
        = Some digest ->
        calculate_secret lib this
        = Ret (true,
               set_secret
                 (Some (take 20 (digest ([49] ++ verifier_nonce this
                                         ++ measurer_nonce this
                                         ++ shared_secret))))
                 this)
        /\ (length (take 20 (digest ([49%Z] ++ verifier_nonce this
                                     ++ measurer_nonce this
                                     ++ shared_secret))) <= 20)%nat
        /\ forall (this2 : private_pts_t) (d2 : diffie_hellman_t),
             initiator_nonce this2 = initiator_nonce this ->
             responder_nonce this2 = responder_nonce this ->
             dh_hash_algorithm this2 = dh_hash_algorithm this ->
             dh this2 = Some d2 ->
             get_shared_secret lib d2 = Some shared_secret ->
             exists this' this2',
               calculate_secret lib this = Ret (true, this')
               /\ calculate_secret lib this2 = Ret (true, this2')
               /\ secret this2' = secret this').
Proof.
  assert (Hrun : forall (s : private_pts_t) (ds : diffie_hellman_t)
                        (shared_secret : list Z),
             chunk_len (initiator_nonce s) <> 0 ->
             chunk_len (responder_nonce s) <> 0 ->
             dh s = Some ds ->
             get_shared_secret lib ds = Some shared_secret ->
             create_hasher lib
               (pts_meas_algo_to_hash lib (dh_hash_algorithm s))
             = Some digest ->
             calculate_secret lib s
             = Ret (true,
                    set_secret
                      (Some (take 20
                               (digest ([49] ++ verifier_nonce s
                                        ++ measurer_nonce s
                                        ++ shared_secret))))
                      s)).
  { intros s ds shared_secret Hi Hr Hdh Hshared Hhasher.
    unfold calculate_secret.
    destruct (Z.eqb_spec (chunk_len (initiator_nonce s)) 0); [done|].
    destruct (Z.eqb_spec (chunk_len (responder_nonce s)) 0); [done|].
    rewrite Hdh. simpl. rewrite Hshared.
    rewrite (hasher_create_Some _ _ _ Hhasher). simpl.
    unfold verifier_nonce, measurer_nonce, nonce_of_side.
    by rewrite <- !app_assoc. }
  split; [|split].
  - intros Hnone. unfold calculate_secret.
    destruct (Z.eqb_spec (chunk_len (initiator_nonce this)) 0); [done|].
    destruct (Z.eqb_spec (chunk_len (responder_nonce this)) 0); [done|].
    by destruct Hnone.
  - intros Hdh Hshared. unfold calculate_secret.
    destruct (_ || _); [done|]. rewrite Hdh. simpl. by rewrite Hshared.
  - intros shared_secret Hi Hr Hdh Hshared Hhasher.
    split; [by eapply Hrun|].
    split; [apply assessment_secret_length|].
    intros this2 d2 Hi2 Hr2 Halg2 Hdh2 Hshared2.
    eexists _, _. split; [by eapply Hrun|]. split.
    + eapply Hrun; rewrite ?Hi2, ?Hr2, ?Halg2; done.
    + simpl. unfold verifier_nonce, measurer_nonce, nonce_of_side.
      by rewrite Hi2, Hr2.
Qed.

(** The theorem at an IMC-PTS that has drawn its nonce and holds the
    verifier's. *)
Lemma calculate_secret_spec_witness :
  calculate_secret example_lib exchanged_imc
  = Ret (true,
         set_secret
           (Some (take 20 (prefix_digest 32
                             ([49] ++ verifier_nonce exchanged_imc
                              ++ measurer_nonce exchanged_imc
                              ++ [5; 9]))))
           exchanged_imc).
Proof.
  refine (proj1 (proj2 (proj2
            (calculate_secret_spec example_lib exchanged_imc
               {| dh_group := 14; dh_other_public_value := Some [5] |}
               (prefix_digest 32))) [5; 9] _ _ _ _ _)).
  - vm_compute. discriminate.
  - vm_compute. discriminate.
  - reflexivity.
  - reflexivity.
  - reflexivity.
Defined.

(** C3 (counterexample): on an IMC-PTS, the measurer, whose own nonce is 20
    bytes 7 and which holds the verifier's nonce of 20 bytes 3, the secret
    that calculate_secret stores starts with "1" and the verifier's nonce;
    the digest of "1" || measurer nonce || verifier nonce || shared secret
    starts with "1" and the measurer's nonce. *)
Lemma calculate_secret_nonce_order :
  is_imc exchanged_imc = true
  /\ measurer_nonce exchanged_imc = replicate 20 7
  /\ verifier_nonce exchanged_imc = replicate 20 3
  /\ calculate_secret example_lib exchanged_imc
     = Ret (true, set_secret (Some (49 :: replicate 19 3)) exchanged_imc)
  /\ spec_assessment_secret (prefix_digest 32) exchanged_imc [5; 9]
     = 49 :: replicate 19 7
  /\ Some (spec_assessment_secret (prefix_digest 32) exchanged_imc [5; 9])
     <> Some (49 :: replicate 19 3).
Proof.
  repeat (split; [reflexivity|]). vm_compute. discriminate.
Qed.

(** ** File names *)

Lemma string_length_app (a b : string) :
  String.length (a +:+ b) = (String.length a + String.length b)%nat.
Proof. induction a as [|c a IH]; simpl; [done | by f_equal]. Qed.

Lemma string_app_assoc (a b c : string) :
  (a +:+ b) +:+ c = a +:+ (b +:+ c).
Proof.
  induction a as [|x a IH]; [done|].
  change (String x ((a +:+ b) +:+ c) = String x (a +:+ (b +:+ c))).
  by f_equal.
Qed.

(** The first slash of dir/tail: either the one in front of [tail], or one
    inside [dir]. *)
Lemma strchr_first_slash (dir tail : string) :
  strchr (dir +:+ String "/" tail) "/"%char = Some (String "/" tail)
  \/ exists dir2,
       strchr (dir +:+ String "/" tail) "/"%char
       = Some (String "/" (dir2 +:+ String "/" tail))
       /\ (String.length dir2 < String.length dir)%nat.
Proof.
  induction dir as [|c dir IH]; [by left|].
  simpl.
  destruct (Ascii.eqb_spec c "/"%char) as [->|Hc].
  - right. exists dir. split; [done | simpl; lia].
  - destruct IH as [IH|(dir2 & IH & Hlen)]; [by left|].
    right. exists dir2. split; [done | simpl; lia].
Qed.

(** What strchr returns is a suffix that starts with the character. *)
Lemma strchr_Some (s t : string) (c : ascii) :
  strchr s c = Some t ->
  exists pre rest, s = pre +:+ t /\ t = String c rest
    /\ (String.length t <= String.length s)%nat.
Proof.
  induction s as [|a s IH]; [discriminate|]. simpl.
  destruct (Ascii.eqb_spec a c) as [->|Hc].
  - intros [= <-]. by exists EmptyString, s.
  - intros Ht. destruct (IH Ht) as (pre & rest & -> & -> & Hlen).
    exists (String a pre), rest. repeat split; simpl in *; lia.
Qed.

(** One round on a name without slash. *)
Lemma get_filename_loop_name (fuel : nat) (c : ascii)
    (name filename : string) :
  name <> EmptyString -> strchr name "/"%char = None -> (1 <= fuel)%nat ->
  get_filename_loop fuel (Some (String c name)) filename = Value name.
Proof.
  intros Hname Hslash Hfuel.
  destruct name as [|a name]; [done|]. destruct fuel as [|fuel]; [lia|].
  cbn [get_filename_loop]. rewrite Hslash. by destruct fuel.
Qed.

(** Two rounds on a name without slash that a slash follows. *)
Lemma get_filename_loop_name_slash (fuel : nat) (c : ascii)
    (name filename : string) :
  name <> EmptyString -> strchr name "/"%char = None -> (1 <= fuel)%nat ->
  get_filename_loop fuel (Some (String c (name +:+ "/"))) filename
  = Value (name +:+ "/").
Proof.
  intros Hname Hslash Hfuel.
  assert (Hs : strchr (name +:+ "/") "/"%char = Some "/"%string).
  { clear Hname. induction name as [|a name IH]; [done|]. simpl in *.
    destruct (Ascii.eqb a "/"); [discriminate | by apply IH]. }
  destruct name as [|a name]; [done|]. destruct fuel as [|fuel]; [lia|].
  simpl String.append in *. cbn [get_filename_loop]. rewrite Hs.
  by destruct fuel.
Qed.

(** The rounds that lead through [dir] to its last slash. *)
Lemma get_filename_loop_dir (tail result : string) (n : nat) :
  (forall (fuel : nat) (c : ascii) (filename : string),
      (1 <= fuel)%nat ->
      get_filename_loop fuel (Some (String c tail)) filename
      = Value result) ->
  forall (dir : string) (fuel : nat) (c : ascii) (filename : string),
    (String.length dir < n)%nat -> (String.length dir + 2 <= fuel)%nat ->
    get_filename_loop fuel (Some (String c (dir +:+ String "/" tail)))
      filename
    = Value result.
Proof.
  intros Htail. induction n as [|n IH]; [lia|].
  intros dir fuel c filename Hn Hfuel.
  destruct fuel as [|fuel]; [lia|].
  assert (Hrest : exists a rest, dir +:+ String "/" tail = String a rest)
    by (destruct dir; simpl; eauto).
  destruct Hrest as (a & rest & Hrest).
  cbn [get_filename_loop]. rewrite Hrest. rewrite <- Hrest.
  destruct (strchr_first_slash dir tail) as [Hs|(dir2 & Hs & Hlen)];
    rewrite Hs.
  - apply Htail. lia.
  - apply IH; lia.
Qed.

Lemma get_filename_dir (dir tail result : string) :
  (forall (fuel : nat) (c : ascii) (filename : string),
      (1 <= fuel)%nat ->
      get_filename_loop fuel (Some (String c tail)) filename
      = Value result) ->
  get_filename (dir +:+ String "/" tail) = Value result.
Proof.
  intros Htail. unfold get_filename.
  destruct dir as [|c dir]; simpl String.append.
  - apply Htail. simpl. lia.
  - apply (get_filename_loop_dir tail result (S (String.length dir)));
      [done | lia |].
    simpl. rewrite string_length_app. simpl. lia.
Qed.

(** X1: for a pathname dir/name, where the last component name is not empty
    and holds no slash, get_filename returns name, whatever dir is (empty,
    relative or with slashes of its own). *)
Theorem get_filename_last_component (dir name : string) :
  name <> EmptyString -> strchr name "/"%char = None ->
  get_filename (dir +:+ String "/" name) = Value name.
Proof.
  intros Hname Hslash. apply get_filename_dir.
  intros fuel c filename Hfuel. by apply get_filename_loop_name.
Qed.

(** The theorem at an absolute path. *)
Lemma get_filename_last_component_witness :
  get_filename "/etc/tnc/file.conf" = Value "file.conf"%string.
Proof.
  apply (get_filename_last_component "/etc/tnc" "file.conf");
    [discriminate | reflexivity].
Defined.

(** X2: what get_filename does outside fully qualified names. A pathname
    without slash loses its first character; a pathname that ends in a
    slash gives its last component with that slash; a pathname of one
    character is returned as it is; on the empty pathname the loop reads
    the byte behind the terminator. *)
Theorem get_filename_edge_cases (c : ascii) (dir name : string) :
  name <> EmptyString -> strchr name "/"%char = None ->
  get_filename (String c name) = Value name
  /\ get_filename (dir +:+ String "/" (name +:+ "/")) = Value (name +:+ "/")
  /\ get_filename (String c EmptyString) = Value (String c EmptyString)
  /\ get_filename EmptyString = Undefined.
Proof.
  intros Hname Hslash. repeat split.
  - unfold get_filename. apply get_filename_loop_name; [done..|simpl; lia].
  - apply get_filename_dir. intros fuel a filename Hfuel.
    by apply get_filename_loop_name_slash.
Qed.

(** The theorem at the relative name "file" and at "/etc/tnc/". *)
Lemma get_filename_edge_cases_witness :
  get_filename "file" = Value "ile"%string
  /\ get_filename "/etc/tnc/" = Value "tnc/"%string.
Proof.
  destruct (get_filename_edge_cases "f" "/etc" "ile")
    as (Hrel & _ & _ & _); [discriminate | reflexivity |].
  destruct (get_filename_edge_cases "f" "/etc" "tnc")
    as (_ & Hslash & _ & _); [discriminate | reflexivity |].
  split; [exact Hrel | exact Hslash].
Defined.

(** A suffix of a string. *)
Lemma get_filename_loop_suffix (pathname : string) (fuel : nat) :
  forall (pos : option string) (filename : string),
    filename <> EmptyString ->
    (exists pre, pathname = pre +:+ filename) ->
    (forall p, pos = Some p ->
       p <> EmptyString /\ (exists pre, pathname = pre +:+ p)
       /\ (String.length p <= fuel + 1)%nat) ->
    exists f, get_filename_loop fuel pos filename = Value f
      /\ f <> EmptyString /\ exists pre, pathname = pre +:+ f.
Proof.
  induction fuel as [|fuel IH]; intros pos filename Hne Hsuf Hpos.
  - destruct pos as [[|c [|a rest]]|]; simpl; eauto.
    + by destruct (Hpos _ eq_refl) as [? _].
    + destruct (Hpos _ eq_refl) as (_ & _ & Hlen). simpl in Hlen. lia.
  - destruct pos as [[|c [|a rest]]|]; cbn [get_filename_loop]; eauto.
    + by destruct (Hpos _ eq_refl) as [? _].
    + destruct (Hpos _ eq_refl) as (_ & [pre Hpre] & Hlen).
      assert (Hrest : exists pre', pathname = pre' +:+ String a rest).
      { exists (pre +:+ String c EmptyString).
        by rewrite string_app_assoc. }
      apply IH; [done | done |].
      intros p Hp. apply strchr_Some in Hp as (pre2 & r & Hp & -> & Hl).
      split; [done|]. split.
      * destruct Hrest as [pre' ->]. exists (pre' +:+ pre2).
        by rewrite Hp, string_app_assoc.
      * simpl in *. lia.
Qed.

(** X3: on every pathname that is not empty get_filename returns, and what
    it returns is never empty and is a suffix of the pathname. *)
Theorem get_filename_total (pathname : string) :
  pathname <> EmptyString ->
  exists filename, get_filename pathname = Value filename
    /\ filename <> EmptyString
    /\ exists pre, pathname = pre +:+ filename.
Proof.
  intros Hne. apply get_filename_loop_suffix; [done | by exists EmptyString|].
  intros p [= <-]. split; [done|]. split; [by exists EmptyString | lia].
Qed.

Lemma get_filename_total_witness :
  exists filename, get_filename "/usr/lib//" = Value filename
    /\ filename <> EmptyString
    /\ exists pre, "/usr/lib//"%string = pre +:+ filename.
Proof. apply get_filename_total. discriminate. Defined.

(** ** Measurements *)

Lemma hash_file_loop_digest (fuel : nat) :
  forall (hasher : hasher_t) (file : list Z),
    (length file < fuel)%nat ->
    hash_file_loop fuel hasher file
    = ({| hasher_digest := hasher_digest hasher; hasher_pending := [] |},
       Some (hasher_digest hasher (hasher_pending hasher ++ file))).
Proof.
  induction fuel as [|fuel IH]; intros hasher file Hlen; [lia|].
  cbn [hash_file_loop]. destruct file as [|b file].
  - rewrite take_nil. cbn [length Z.of_nat Z.ltb Z.compare].
    unfold get_hash, allocate_hash. by rewrite app_nil_r.
  - assert (Hread : (0 <? Z.of_nat (length (take (Z.to_nat PTS_BUF_SIZE)
                                              (b :: file)))) = true).
    { apply Z.ltb_lt. rewrite length_take. simpl length.
      unfold PTS_BUF_SIZE. lia. }
    rewrite Hread, IH.
    + unfold get_hash, allocate_hash. cbn [fst hasher_digest hasher_pending].
      by rewrite <- app_assoc, take_drop.
    + rewrite length_drop. simpl length in *. unfold PTS_BUF_SIZE. lia.
Qed.

(** X4: hash_file gives the digest of the whole file after what the hasher
    was fed before, however many reads of PTS_BUF_SIZE bytes it takes, and
    leaves the hasher reset; a file that cannot be opened gives FALSE,
    writes no hash and leaves the hasher as it was. *)
Theorem hash_file_whole_file (fs : filesystem_t) (hasher : hasher_t)
    (pathname : string) :
  hash_file fs hasher pathname
  = match fs_fopen fs pathname with
    | Some file =>
        (true,
         {| hasher_digest := hasher_digest hasher; hasher_pending := [] |},
         Some (hasher_digest hasher (hasher_pending hasher ++ file)))
    | None => (false, hasher, None)
    end.
Proof.
  unfold hash_file. destruct (fs_fopen fs pathname) as [file|]; [|done].
  rewrite hash_file_loop_digest; [done | lia].
Qed.

Lemma hash_file_fresh (fs : filesystem_t) (digest : list Z -> list Z)
    (pathname : string) :
  hash_file fs {| hasher_digest := digest; hasher_pending := [] |} pathname
  = match fs_fopen fs pathname with
    | Some file =>
        (true, {| hasher_digest := digest; hasher_pending := [] |},
         Some (digest file))
    | None =>
        (false, {| hasher_digest := digest; hasher_pending := [] |}, None)
    end.
Proof.
  unfold hash_file. destruct (fs_fopen fs pathname) as [file|]; [|done].
  rewrite hash_file_loop_digest; [done | lia].
Qed.

Lemma measure_entries_mapM (fs : filesystem_t) (digest : list Z -> list Z)
    (entries : list (string * string * stat_t)) :
  forall measurements : pts_file_meas_t,
    measure_entries fs {| hasher_digest := digest; hasher_pending := [] |}
      entries measurements
    = (l ← mapM (measure_entry fs digest)
             (filter (fun entry => measured entry = true) entries);
       Some {| meas_request_id := meas_request_id measurements;
               meas_entries := meas_entries measurements ++ l |}).
Proof.
  induction entries as [|[[rel_name abs_name] st] entries IH];
    intros measurements.
  - simpl. rewrite app_nil_r. by destruct measurements.
  - cbn [measure_entries].
    change (S_ISREG (st_mode st) && not_hidden rel_name)
      with (measured (rel_name, abs_name, st)).
    destruct (measured (rel_name, abs_name, st)) eqn:Hmeasured.
    + rewrite filter_cons_True by done. rewrite hash_file_fresh.
      cbn [mapM].
      change (measure_entry fs digest (rel_name, abs_name, st))
        with (fs_fopen fs abs_name
              ≫= fun file => Some (rel_name, digest file)).
      destruct (fs_fopen fs abs_name) as [file|]; [|done].
      rewrite IH. cbn.
      destruct (mapM _ _) as [l|]; [|done]. cbn.
      by rewrite <- app_assoc.
    + rewrite filter_cons_False by (by rewrite Hmeasured). apply IH.
Qed.

(** X5: on a directory do_measurements measures the regular files whose name
    does not start with a dot, in the order of the enumeration; every
    measurement is the digest of that file alone, and the result is NULL as
    soon as one of these files cannot be opened. *)
Theorem do_measurements_directory (lib : library_t) (fs : filesystem_t)
    (this : private_pts_t) (request_id : Z) (pathname : string)
    (digest : list Z -> list Z) (entries : list (string * string * stat_t)) :
  create_hasher lib (pts_meas_algo_to_hash lib (algorithm this))
  = Some digest ->
  fs_enumerate fs pathname = Some entries ->
  do_measurements lib fs this request_id pathname true
  = Value (l ← mapM (measure_entry fs digest)
                 (filter (fun entry => measured entry = true) entries);
           Some {| meas_request_id := request_id; meas_entries := l |}).
Proof.
  intros Hhasher Henum. unfold do_measurements.
  rewrite (hasher_create_Some _ _ _ Hhasher), Henum.
  by rewrite measure_entries_mapM.
Qed.

Lemma do_measurements_directory_witness :
  do_measurements example_lib example_fs fresh_imv 7 "/etc/tnc" true
  = Value (Some {| meas_request_id := 7;
                   meas_entries :=
                     [("a.conf"%string, prefix_digest 32 [1; 2; 3]);
                      ("b.conf"%string, prefix_digest 32 [])] |}).
Proof.
  rewrite (do_measurements_directory example_lib example_fs fresh_imv 7
             "/etc/tnc" (prefix_digest 32)
             [("a.conf", "/etc/tnc/a.conf", regular_stat 3);
              (".lock", "/etc/tnc/.lock", regular_stat 1);
              ("keys", "/etc/tnc/keys", directory_stat);
              ("b.conf", "/etc/tnc/b.conf", regular_stat 0)]%string);
    reflexivity.
Defined.

(** X6: on a single file dir/name do_measurements gives one measurement,
    filed under the last component name and holding the digest of the file;
    it gives NULL when the file cannot be opened. *)
Theorem do_measurements_file (lib : library_t) (fs : filesystem_t)
    (this : private_pts_t) (request_id : Z) (dir name : string)
    (digest : list Z -> list Z) :
  create_hasher lib (pts_meas_algo_to_hash lib (algorithm this))
  = Some digest ->
  name <> EmptyString -> strchr name "/"%char = None ->
  do_measurements lib fs this request_id (dir +:+ String "/" name) false
  = Value (file ← fs_fopen fs (dir +:+ String "/" name);
           Some {| meas_request_id := request_id;
                   meas_entries := [(name, digest file)] |}).
Proof.
  intros Hhasher Hname Hslash. unfold do_measurements.
  rewrite (hasher_create_Some _ _ _ Hhasher), hash_file_fresh.
  destruct (fs_fopen fs (dir +:+ String "/" name)) as [file|]; [|done].
  rewrite (get_filename_dir dir name name); [done|].
  intros fuel c filename Hfuel. by apply get_filename_loop_name.
Qed.

Lemma do_measurements_file_witness :
  do_measurements example_lib example_fs fresh_imv 7 "/etc/tnc/a.conf" false
  = Value (Some {| meas_request_id := 7;
                   meas_entries :=
                     [("a.conf"%string, prefix_digest 32 [1; 2; 3])] |}).
Proof.
  refine (do_measurements_file example_lib example_fs fresh_imv 7
            "/etc/tnc" "a.conf" (prefix_digest 32) _ _ _);
    [reflexivity | discriminate | reflexivity].
Defined.

(** X7: on a directory do_measurements gives NULL in three cases and no
    other: there is no hasher for the measurement algorithm, the directory
    cannot be enumerated, or one of the regular files whose name does not
    start with a dot cannot be opened. *)
Theorem do_measurements_directory_null (lib : library_t)
    (fs : filesystem_t) (this : private_pts_t) (request_id : Z)
    (pathname : string) :
  do_measurements lib fs this request_id pathname true = Value None
  <-> create_hasher lib (pts_meas_algo_to_hash lib (algorithm this)) = None
      \/ fs_enumerate fs pathname = None
      \/ exists entries entry,
           fs_enumerate fs pathname = Some entries
           /\ entry ∈ entries /\ measured entry = true
           /\ fs_fopen fs entry.1.2 = None.
Proof.
  unfold do_measurements, hasher_create.
  destruct (create_hasher lib _) as [digest|]; [|by split; [left|]].
  destruct (fs_enumerate fs pathname) as [entries|]; [|by split; [right; left|]].
  rewrite measure_entries_mapM.
  destruct (mapM (measure_entry fs digest) _) as [l|] eqn:Hl; cbn.
  - split; [done|]. intros [?|[?|(entries' & entry & ? & Hin & Hm & Hopen)]];
      [done | done |]. simplify_eq.
    assert (His : is_Some (mapM (measure_entry fs digest)
                             (filter (fun e => measured e = true) entries')))
      by (by rewrite Hl).
    apply mapM_is_Some in His. rewrite Forall_forall in His.
    destruct (His entry) as [x Hx]; [by apply list_elem_of_filter|].
    unfold measure_entry in Hx. by rewrite Hopen in Hx.
  - split; [|done]. intros _. right. right. exists entries.
    assert (Hnot : ~ is_Some (mapM (measure_entry fs digest)
                                (filter (fun e => measured e = true) entries)))
      by (rewrite Hl; by intros [? ?]).
    rewrite mapM_is_Some in Hnot.
    apply not_Forall_Exists in Hnot; [|intros e; apply _].
    apply Exists_exists in Hnot as (entry & [Hm Hin]%list_elem_of_filter & Hno).
    exists entry. repeat split; [done..|].
    unfold measure_entry in Hno. cbn in Hno.
    destruct (fs_fopen fs entry.1.2); [|done].
    exfalso. apply Hno. by eexists.
Qed.

(** ** File metadata *)

Lemma metadata_entries_mapM (fs : filesystem_t)
    (entries : list (string * string * stat_t)) :
  forall metadata : list pts_file_metadata_t,
    metadata_entries fs entries metadata
    = (l ← mapM (metadata_entry fs)
             (filter (fun entry => measured entry = true) entries);
       Some (metadata ++ l)).
Proof.
  induction entries as [|[[rel_name abs_name] st] entries IH];
    intros metadata.
  - simpl. by rewrite app_nil_r.
  - cbn [metadata_entries].
    change (S_ISREG (st_mode st) && not_hidden rel_name)
      with (measured (rel_name, abs_name, st)).
    destruct (measured (rel_name, abs_name, st)) eqn:Hmeasured.
    + rewrite filter_cons_True by done. cbn [mapM].
      change (metadata_entry fs (rel_name, abs_name, st))
        with (file_metadata fs abs_name
              ≫= fun m => Some (set_meta_filename m rel_name)).
      destruct (file_metadata fs abs_name) as [entry|]; [|done].
      rewrite IH. cbn.
      destruct (mapM _ _) as [l|]; [|done]. cbn.
      by rewrite <- app_assoc.
    + rewrite filter_cons_False by (by rewrite Hmeasured). apply IH.
Qed.

Lemma file_metadata_regular (fs : filesystem_t) (pathname : string)
    (st : stat_t) :
  fs_stat fs pathname = Some st -> S_ISREG (st_mode st) = true ->
  exists m, file_metadata fs pathname = Some m
    /\ meta_type m = PTS_FILE_REGULAR /\ meta_filesize m = st_size st.
Proof.
  intros Hstat Hreg. unfold file_metadata. rewrite Hstat, Hreg. eauto.
Qed.

(** X8: on a directory get_metadata describes the same files that
    do_measurements measures, in the same order: when both succeed, the
    file names of the metadata are the file names of the measurements. *)
Theorem get_metadata_same_files (lib : library_t) (fs : filesystem_t)
    (this : private_pts_t) (request_id : Z) (pathname : string)
    (measurements : pts_file_meas_t) (metadata : list pts_file_metadata_t) :
  do_measurements lib fs this request_id pathname true
  = Value (Some measurements) ->
  get_metadata fs pathname true = Value (Some metadata) ->
  meta_filename <$> metadata = fst <$> meas_entries measurements.
Proof.
  unfold do_measurements, get_metadata, hasher_create.
  destruct (create_hasher lib _) as [digest|]; [|done].
  destruct (fs_enumerate fs pathname) as [entries|]; [|done].
  rewrite measure_entries_mapM, metadata_entries_mapM.
  destruct (mapM (measure_entry fs digest) _) as [l1|] eqn:H1; [|done].
  destruct (mapM (metadata_entry fs) _) as [l2|] eqn:H2; [|done].
  cbn. intros [= <-] [= <-]. cbn [meas_entries].
  apply mapM_Some in H1, H2. revert l2 H2.
  induction H1 as [|e [name hash] l l1 He _ IH]; intros l2 H2;
    inversion H2 as [|? m ? l2' Hm Hl2]; subst; [done|].
  cbn. f_equal; [|by apply IH].
  unfold measure_entry in He. unfold metadata_entry in Hm.
  destruct (fs_fopen fs e.1.2); [|done].
  destruct (file_metadata fs e.1.2); [|done].
  cbn in He, Hm. by simplify_eq.
Qed.

Lemma get_metadata_same_files_witness :
  meta_filename
  <$> [regular_metadata "a.conf" 3; regular_metadata "b.conf" 0]
  = fst <$> [("a.conf"%string, prefix_digest 32 [1; 2; 3]);
             ("b.conf"%string, prefix_digest 32 [])].
Proof.
  apply (get_metadata_same_files example_lib example_fs fresh_imv 7
           "/etc/tnc"
           {| meas_request_id := 7;
              meas_entries :=
                [("a.conf"%string, prefix_digest 32 [1; 2; 3]);
                 ("b.conf"%string, prefix_digest 32 [])] |});
    reflexivity.
Defined.

(** X9: when stat gives for every measured file what the enumerator gave,
    get_metadata on a directory does not fail; every entry it returns is a
    regular file, carries the size the enumerator saw, and has a name that
    does not start with a dot. *)
Theorem get_metadata_directory_regular (fs : filesystem_t)
    (pathname : string) (entries : list (string * string * stat_t)) :
  fs_enumerate fs pathname = Some entries ->
  (forall entry, entry ∈ entries -> measured entry = true ->
     fs_stat fs entry.1.2 = Some entry.2) ->
  exists metadata,
    get_metadata fs pathname true = Value (Some metadata)
    /\ Forall2 (fun entry m =>
                  meta_type m = PTS_FILE_REGULAR
                  /\ meta_filename m = entry.1.1
                  /\ meta_filesize m = st_size entry.2
                  /\ not_hidden (meta_filename m) = true)
         (filter (fun entry => measured entry = true) entries) metadata.
Proof.
  intros Henum Hstat. unfold get_metadata. rewrite Henum.
  rewrite metadata_entries_mapM.
  assert (Hall : Forall (fun entry => measured entry = true
                           /\ fs_stat fs entry.1.2 = Some entry.2)
                   (filter (fun entry => measured entry = true) entries)).
  { apply Forall_forall. intros entry [Hm Hin]%list_elem_of_filter. eauto. }
  induction Hall as [|entry l [Hm Hst] _ IH].
  - exists []. by split.
  - destruct IH as (metadata & IH & Hmeta).
    apply andb_prop in Hm as Hm2. destruct Hm2 as [Hreg Hhidden].
    destruct (file_metadata_regular fs _ _ Hst Hreg) as (m & Hfile & Ht & Hs).
    exists (set_meta_filename m entry.1.1 :: metadata). split.
    + cbn [mapM].
      change (metadata_entry fs entry)
        with (file_metadata fs entry.1.2
              ≫= fun m => Some (set_meta_filename m entry.1.1)).
      rewrite Hfile. cbn.
      destruct (mapM (metadata_entry fs) l) as [l'|]; [|done].
      cbn in IH. simplify_eq. done.
    + by constructor.
Qed.

Lemma get_metadata_directory_regular_witness :
  exists metadata,
    get_metadata example_fs "/etc/tnc" true = Value (Some metadata)
    /\ Forall2 (fun entry m =>
                  meta_type m = PTS_FILE_REGULAR
                  /\ meta_filename m = entry.1.1
                  /\ meta_filesize m = st_size entry.2
                  /\ not_hidden (meta_filename m) = true)
         [("a.conf", "/etc/tnc/a.conf", regular_stat 3);
          ("b.conf", "/etc/tnc/b.conf", regular_stat 0)]%string metadata.
Proof.
  apply (get_metadata_directory_regular example_fs "/etc/tnc"
           [("a.conf", "/etc/tnc/a.conf", regular_stat 3);
            (".lock", "/etc/tnc/.lock", regular_stat 1);
            ("keys", "/etc/tnc/keys", directory_stat);
            ("b.conf", "/etc/tnc/b.conf", regular_stat 0)]%string);
    [reflexivity|].
  intros entry Hin Hm.
  repeat (apply elem_of_cons in Hin as [->|Hin]; [by vm_compute in Hm |- * |]).
  by apply elem_of_nil in Hin.
Defined.

(** X10: file_metadata classifies by the format bits of st_mode alone. The
    seven format codes are distinct, so the order of the tests does not
    matter: each type is returned exactly for its code, PTS_FILE_OTHER for
    every other value of the format bits. *)
Theorem file_metadata_type_by_format (fs : filesystem_t) (pathname : string)
    (st : stat_t) :
  fs_stat fs pathname = Some st ->
  exists m, file_metadata fs pathname = Some m
    /\ (meta_type m = PTS_FILE_REGULAR
        <-> Z.land (st_mode st) S_IFMT = S_IFREG)
    /\ (meta_type m = PTS_FILE_DIRECTORY
        <-> Z.land (st_mode st) S_IFMT = S_IFDIR)
    /\ (meta_type m = PTS_FILE_CHAR_SPEC
        <-> Z.land (st_mode st) S_IFMT = S_IFCHR)
    /\ (meta_type m = PTS_FILE_BLOCK_SPEC
        <-> Z.land (st_mode st) S_IFMT = S_IFBLK)
    /\ (meta_type m = PTS_FILE_FIFO
        <-> Z.land (st_mode st) S_IFMT = S_IFIFO)
    /\ (meta_type m = PTS_FILE_SYM_LINK
        <-> Z.land (st_mode st) S_IFMT = S_IFLNK)
    /\ (meta_type m = PTS_FILE_SOCKET
        <-> Z.land (st_mode st) S_IFMT = S_IFSOCK).
Proof.
  intros Hstat. unfold file_metadata. rewrite Hstat. eexists. split; [done|].
  cbn [meta_type].
  unfold S_ISREG, S_ISDIR, S_ISCHR, S_ISBLK, S_ISFIFO, S_ISLNK, S_ISSOCK.
  generalize (Z.land (st_mode st) S_IFMT). intros code.
  unfold S_IFREG, S_IFDIR, S_IFCHR, S_IFBLK, S_IFIFO, S_IFLNK, S_IFSOCK.
  repeat (match goal with
          | |- context [?a =? ?b] => destruct (Z.eqb_spec a b)
          end);
    repeat split; intros; try done; try lia.
Qed.

Lemma file_metadata_type_by_format_witness :
  exists m, file_metadata example_fs "/etc/tnc/keys" = Some m
    /\ meta_type m = PTS_FILE_DIRECTORY.
Proof.
  destruct (file_metadata_type_by_format example_fs "/etc/tnc/keys"
              directory_stat eq_refl) as (m & Hm & _ & Hdir & _).
  exists m. split; [exact Hm|]. apply Hdir. reflexivity.
Defined.

(** ** Quoting with the TPM *)

Lemma head_step (pcr : Z) :
  0 <= pcr < 2 ^ 31 ->
  let i := if head_f pcr =? 256 then (head_i pcr + 1) mod 2 ^ 32
           else head_i pcr in
  let f := if head_f pcr =? 256 then 1 else head_f pcr in
  i = pcr / 8 /\ f = Z.shiftl 1 (pcr mod 8)
  /\ head_i (pcr + 1) = i /\ head_f (pcr + 1) = Z.shiftl f 1 mod 2 ^ 32.
Proof.
  intros Hpcr. unfold head_i, head_f.
  assert (Hr : 0 <= pcr mod 8 < 8) by (apply Z.mod_pos_bound; lia).
  assert (Hnext : (pcr + 1) mod 8 = (if pcr mod 8 =? 7 then 0 else pcr mod 8 + 1)
                  /\ (pcr + 1) / 8 = (if pcr mod 8 =? 7 then pcr / 8 + 1 else pcr / 8)).
  { destruct (Z.eqb_spec (pcr mod 8) 7); split;
      Z.div_mod_to_equations; lia. }
  destruct Hnext as [-> ->].
  assert (Hcases : pcr mod 8 = 0 \/ pcr mod 8 = 1 \/ pcr mod 8 = 2
                   \/ pcr mod 8 = 3 \/ pcr mod 8 = 4 \/ pcr mod 8 = 5
                   \/ pcr mod 8 = 6 \/ pcr mod 8 = 7) by lia.
  destruct (Z.ltb_spec 0 pcr) as [Hpos|Hzero].
  - assert (Hdiv : 0 <= pcr / 8 < 2 ^ 28) by (Z.div_mod_to_equations; lia).
    destruct Hcases as [H|[H|[H|[H|[H|[H|[H|H]]]]]]]; rewrite H; simpl;
      destruct (Z.ltb_spec 0 (pcr + 1)); try lia;
      repeat split; try lia; Z.div_mod_to_equations; lia.
  - assert (pcr = 0) as -> by lia. by cbn.
Qed.

Lemma select_pcrs_loop_selected (tss : tss_t) (this : private_pts_t)
    (use_quote2 : bool) (len : nat) :
  forall (start : Z) (selected : list Z),
    0 <= start -> start + Z.of_nat len < 2 ^ 31 ->
    (forall pcr, start <= pcr < start + Z.of_nat len ->
       pcr_selected this pcr = true ->
       Tspi_PcrComposite_SelectPcrIndex tss use_quote2 pcr = true) ->
    select_pcrs_loop tss this use_quote2 (seqZ start (Z.of_nat len))
      (head_i start) (head_f start) selected
    = Some (selected
            ++ filter (fun pcr => pcr_selected this pcr = true)
                 (seqZ start (Z.of_nat len))).
Proof.
  induction len as [|len IH]; intros start selected Hstart Hend Htss.
  - simpl. by rewrite app_nil_r.
  - rewrite seqZ_cons by lia. cbn [select_pcrs_loop].
    destruct (head_step start) as (Hi & Hf & Hi' & Hf'); [lia|].
    cbn zeta in Hi, Hf, Hi', Hf'.
    set (i := if head_f start =? 256 then _ else _) in *.
    set (f := if head_f start =? 256 then 1 else _) in *.
    assert (Htest :
              negb (Z.land (default 0 (pcr_select this !! Z.to_nat i)) f =? 0)
              = pcr_selected this start).
    { rewrite Hi, Hf, land_pow2_eqb by (apply Z.mod_pos_bound; lia).
      by rewrite negb_involutive. }
    rewrite Htest, <- Hf', <- Hi'.
    replace (Z.pred (Z.of_nat (S len))) with (Z.of_nat len) by lia.
    replace (Z.succ start) with (start + 1) by lia.
    destruct (pcr_selected this start) eqn:Hsel.
    + rewrite Htss by (done || lia). rewrite IH; [|lia|lia|].
      * rewrite filter_cons_True by done. by rewrite <- app_assoc.
      * intros pcr Hpcr. apply Htss. lia.
    + rewrite IH; [|lia|lia|].
      * rewrite filter_cons_False; [done|]. by rewrite Hsel.
      * intros pcr Hpcr. apply Htss. lia.
Qed.

Lemma select_pcrs_selected (tss : tss_t) (this : private_pts_t)
    (use_quote2 : bool) :
  registry_ok this ->
  (forall pcr, 0 <= pcr <= pcr_max this -> pcr_selected this pcr = true ->
     Tspi_PcrComposite_SelectPcrIndex tss use_quote2 pcr = true) ->
  select_pcrs tss this use_quote2
  = Some (filter (fun pcr => pcr_selected this pcr = true)
            (seqZ 0 (pcr_max this + 1))).
Proof.
  intros Hok Htss. destruct (ok_max _ Hok) as [Hmin Hmax].
  unfold PCR_MAX_NUM in Hmax.
  pose proof (select_pcrs_loop_selected tss this use_quote2
                (Z.to_nat (pcr_max this + 1)) 0 []) as Hloop.
  rewrite Z2Nat.id in Hloop by lia.
  unfold select_pcrs. apply Hloop; [lia | lia |].
  intros pcr Hpcr. apply Htss. lia.
Qed.

(** The registers up to pcr_max are all the registers when no bit is set
    above pcr_max. *)
Lemma filter_selected_below_max (this : private_pts_t) :
  registry_ok this -> selected_below_max this ->
  filter (fun pcr => pcr_selected this pcr = true) (seqZ 0 (pcr_max this + 1))
  = filter (fun pcr => pcr_selected this pcr = true) (seqZ 0 PCR_MAX_NUM).
Proof.
  intros Hok Hbelow. destruct (ok_max _ Hok) as [Hmin Hmax].
  assert (Hsplit : seqZ 0 PCR_MAX_NUM
                   = seqZ 0 (pcr_max this + 1)
                     ++ seqZ (0 + (pcr_max this + 1))
                          (PCR_MAX_NUM - (pcr_max this + 1))).
  { rewrite <- seqZ_app by lia. f_equal. lia. }
  assert (Hnil : forall l : list Z,
             Forall (fun pcr => pcr_max this < pcr < PCR_MAX_NUM) l ->
             filter (fun pcr => pcr_selected this pcr = true) l = []).
  { induction 1 as [|pcr l Hpcr _ IH]; [done|].
    rewrite filter_cons_False; [done|].
    intros Hsel. apply Hbelow in Hsel; lia. }
  rewrite Hsplit, filter_app, (Hnil (seqZ (0 + _) _)); [by rewrite app_nil_r|].
  apply Forall_forall. intros pcr Hpcr%elem_of_seqZ. lia.
Qed.

Lemma empty_bitmap_selected_below_max (this : private_pts_t) :
  pcr_select this = [0; 0; 0] -> selected_below_max this.
Proof.
  intros Hsel0 pcr Hpcr Hsel. exfalso. revert Hsel. unfold pcr_selected.
  rewrite Hsel0.
  assert (Hbyte : forall i : nat, default 0 ([0; 0; 0] !! i) = 0)
    by (intros [|[|[|i]]]; done).
  by rewrite Hbyte, Z.bits_0.
Qed.

Lemma select_pcr_selected_below_max (this : private_pts_t) (pcr : Z) :
  0 <= pcr -> registry_ok this -> selected_below_max this ->
  selected_below_max (snd (select_pcr this pcr)).
Proof.
  intros Hpcr Hok Hbelow. unfold select_pcr.
  destruct (Z.leb_spec PCR_MAX_NUM pcr); [done|].
  rewrite land_pow2_eqb by (Z.div_mod_to_equations; lia).
  rewrite <- Z.mod_eq by done.
  fold (pcr_selected this pcr).
  destruct (pcr_selected this pcr) eqn:Hsel; [done|].
  cbn [negb snd].
  match goal with |- selected_below_max ?s => set (this' := s) in * end.
  destruct (selected_count_set_bit this this' pcr) as [Hbit _];
    [done | apply (ok_select _ Hok) | reflexivity |].
  intros i Hi. rewrite Hbit by done.
  change (pcr_max this') with (Z.max (pcr_max this) pcr).
  intros [Heq%Z.eqb_eq|Hold%Hbelow]%orb_prop; [lia | lia | done].
Qed.

Lemma add_pcr_selected_below_max (this : private_pts_t) (pcr : Z)
    (pcr_before pcr_after : list Z) :
  0 <= pcr -> registry_ok this -> selected_below_max this ->
  selected_below_max (snd (add_pcr this pcr pcr_before pcr_after)).
Proof.
  intros Hpcr Hok Hbelow. unfold add_pcr.
  destruct (Z.leb_spec PCR_MAX_NUM pcr); [done|].
  destruct (negb _ && negb _); [done|].
  assert (Hadd : forall this',
             pcr_max this' = Z.max (pcr_max this) pcr ->
             pcr_select this'
             = <[Z.to_nat (pcr / 8) :=
                   Z.lor (default 0 (pcr_select this !! Z.to_nat (pcr / 8)))
                         (Z.shiftl 1 (pcr mod 8)) mod 256]> (pcr_select this) ->
             selected_below_max this').
  { intros this' Hmax Hselect.
    destruct (selected_count_set_bit this this' pcr) as [Hbit _];
      [done | apply (ok_select _ Hok) | done |].
    intros i Hi. rewrite Hbit, Hmax by done.
    intros [Heq%Z.eqb_eq|Hold%Hbelow]%orb_prop; [lia | lia | done]. }
  destruct (pcrs this !! Z.to_nat pcr) as [[old|]|]; cbn [snd];
    [done | by apply Hadd | by apply Hadd].
Qed.

Lemma run_ops_selection_bound (this : private_pts_t)
    (ops : list registry_op) :
  Forall (fun op => match op with
                    | OpSelect pcr => 0 <= pcr
                    | OpAdd pcr _ _ => 0 <= pcr
                    end) ops ->
  registry_ok this -> selected_below_max this ->
  registry_ok (run_ops this ops) /\ selected_below_max (run_ops this ops).
Proof.
  intros Hops. revert this.
  induction Hops as [|op ops Hop _ IH]; intros this Hok Hbelow; [done|].
  cbn [run_ops foldl]. apply IH; destruct op as [pcr|pcr before after];
    cbn [apply_op].
  - by apply select_pcr_registry_ok.
  - by apply add_pcr_registry_ok.
  - by apply select_pcr_selected_below_max.
  - by apply add_pcr_selected_below_max.
Qed.

(** X11: after pts_create or clear_pcrs, no sequence of select_pcr and
    add_pcr sets a bit of the selection bitmap above pcr_max, the bound of
    the loops of quote_tpm and clear_pcrs; pcr_max itself stays below 24. *)
Theorem selection_never_above_pcr_max (lib : library_t) (imc : bool)
    (pf : platform_t) (this : private_pts_t) (ops : list registry_op) :
  Forall (fun op => match op with
                    | OpSelect pcr => 0 <= pcr
                    | OpAdd pcr _ _ => 0 <= pcr
                    end) ops ->
  registry_ok this ->
  (selected_below_max (run_ops (pts_create lib imc pf) ops)
   /\ 0 <= pcr_max (run_ops (pts_create lib imc pf) ops) < PCR_MAX_NUM)
  /\ (selected_below_max (run_ops (clear_pcrs this) ops)
      /\ 0 <= pcr_max (run_ops (clear_pcrs this) ops) < PCR_MAX_NUM).
Proof.
  intros Hops Hok. split.
  - destruct (run_ops_selection_bound (pts_create lib imc pf) ops Hops)
      as [Hok' Hbelow].
    + apply pts_create_registry_ok.
    + apply empty_bitmap_selected_below_max.
      unfold pts_create. by destruct imc, (probe_tpm_version_info pf).
    + split; [done | apply (ok_max _ Hok')].
  - destruct (run_ops_selection_bound (clear_pcrs this) ops Hops)
      as [Hok' Hbelow].
    + by apply clear_pcrs_registry_ok.
    + by apply empty_bitmap_selected_below_max.
    + split; [done | apply (ok_max _ Hok')].
Qed.

Lemma selection_never_above_pcr_max_witness :
  selected_below_max
    (run_ops fresh_imv [OpSelect 17; OpAdd 3 [] (pcr_value 1)])
  /\ pcr_max (run_ops fresh_imv [OpSelect 17; OpAdd 3 [] (pcr_value 1)])
     = 17.
Proof.
  destruct (selection_never_above_pcr_max example_lib false bare_platform
              fresh_imv [OpSelect 17; OpAdd 3 [] (pcr_value 1)])
    as [[Hbelow _] _].
  - repeat constructor; lia.
  - apply pts_create_registry_ok.
  - split; [exact Hbelow | reflexivity].
Defined.

Lemma selecting_imc_ok :
  registry_ok selecting_imc /\ selected_below_max selecting_imc.
Proof.
  apply run_ops_selection_bound; [repeat constructor; lia | |].
  - apply inv_ok.
    apply (registry_inv_frame (pts_create example_lib true tpm_platform));
      try reflexivity.
    apply pts_create_registry_inv.
  - by apply empty_bitmap_selected_below_max.
Qed.

(** X12: when the TSS calls succeed, quote_tpm has the TPM quote exactly
    the registers whose bit is set in the selection bitmap, in ascending
    order, with the assessment secret as external data; the composite hash
    is then cut out of the structure the TPM returns, and the registry is
    cleared whether the quote succeeds or not. *)
Theorem quote_tpm_quotes_selection (tss : tss_t) (this : private_pts_t)
    (use_quote2 : bool) :
  registry_ok this -> selected_below_max this ->
  tss_ready tss this use_quote2 = true ->
  (forall pcr, pcr_selected this pcr = true ->
     Tspi_PcrComposite_SelectPcrIndex tss use_quote2 pcr = true) ->
  quote_tpm tss this use_quote2
  = match Tspi_TPM_Quote tss use_quote2
            (filter (fun pcr => pcr_selected this pcr = true)
               (seqZ 0 PCR_MAX_NUM))
            (secret this) with
    | Some (rgbData, rgbValidationData) =>
        hash ← quote_composite_hash use_quote2 rgbData;
        Value (true, clear_pcrs this, Some hash, Some rgbValidationData)
    | None => Value (false, clear_pcrs this, None, None)
    end.
Proof.
  intros Hok Hbelow Hready Hselect. unfold tss_ready in Hready.
  repeat (apply andb_prop in Hready as [Hready ?]).
  unfold quote_tpm, quote_tpm_steps.
  repeat match goal with H : _ = true |- _ => rewrite H; clear H end.
  cbn [negb].
  rewrite select_pcrs_selected, filter_selected_below_max by auto.
  destruct (Tspi_TPM_Quote _ _ _ _) as [[rgbData rgbValidationData]|];
    [|done].
  by destruct (quote_composite_hash use_quote2 rgbData).
Qed.

Lemma quote_tpm_quotes_selection_witness :
  quote_tpm (example_tss (pcr_value 8) [9; 9]) selecting_imc true
  = Value (true, clear_pcrs selecting_imc, Some (pcr_value 8), Some [9; 9])
  /\ filter (fun pcr => pcr_selected selecting_imc pcr = true)
       (seqZ 0 PCR_MAX_NUM) = [10; 16].
Proof.
  split; [|reflexivity].
  rewrite (quote_tpm_quotes_selection (example_tss (pcr_value 8) [9; 9])
             selecting_imc true);
    [reflexivity | apply selecting_imc_ok | apply selecting_imc_ok
     | reflexivity | reflexivity].
Defined.

Lemma quote_composite_hash_length (use_quote2 : bool) (rgbData hash : list Z) :
  quote_composite_hash use_quote2 rgbData = Value hash ->
  length hash = 20%nat.
Proof.
  unfold quote_composite_hash, HASH_SIZE_SHA1. destruct use_quote2.
  - destruct (Z.ltb_spec (Z.of_nat (length rgbData)) 20); [done|].
    intros [= <-]. rewrite length_drop. lia.
  - destruct (Z.ltb_spec (Z.of_nat (length rgbData)) (8 + 20)); [done|].
    intros [= <-]. rewrite length_take, length_drop. lia.
Qed.

Lemma quote_tpm_steps_outputs (tss : tss_t) (this : private_pts_t)
    (use_quote2 : bool) (pcr_comp quote_sig : chunk_t) :
  quote_tpm_steps tss this use_quote2 = Value (Some (pcr_comp, quote_sig)) ->
  exists hash signature : list Z,
    pcr_comp = Some hash /\ length hash = 20%nat
    /\ quote_sig = Some signature.
Proof.
  unfold quote_tpm_steps.
  repeat (destruct (negb _); [done|]).
  destruct (select_pcrs tss this use_quote2) as [selected|]; [|done].
  destruct (Tspi_TPM_Quote _ _ _ _) as [[rgbData rgbValidationData]|];
    [|done].
  destruct (quote_composite_hash use_quote2 rgbData) as [hash|] eqn:Hhash;
    [|done].
  cbn. intros [= <- <-]. exists hash, rgbValidationData.
  split; [done|]. split; [|done]. by eapply quote_composite_hash_length.
Qed.

(** X13: quote_tpm clears the registry on every path behind the creation
    of the TSS context, also when the quote fails, and keeps the register
    length and the assessment secret; when the context cannot be created
    the object is left as it is. A failed quote writes no output; a
    successful one gives a composite hash of 20 bytes and a signature. *)
Theorem quote_tpm_registry_effect (tss : tss_t) (this this' : private_pts_t)
    (use_quote2 ok : bool) (pcr_comp quote_sig : chunk_t) :
  registry_ok this ->
  quote_tpm tss this use_quote2 = Value (ok, this', pcr_comp, quote_sig) ->
  (if Tspi_Context_Create tss
   then registry_cleared this' /\ pcr_len this' = pcr_len this
        /\ secret this' = secret this
   else ok = false /\ this' = this)
  /\ (ok = false -> pcr_comp = None /\ quote_sig = None)
  /\ (ok = true ->
      exists hash signature : list Z,
        pcr_comp = Some hash /\ length hash = 20%nat
        /\ quote_sig = Some signature).
Proof.
  intros Hok. unfold quote_tpm.
  destruct (Tspi_Context_Create tss); cbn [negb].
  - destruct (quote_tpm_steps tss this use_quote2)
      as [[[comp sig]|]|] eqn:Hsteps; [| |done]; cbn; intros [= <- <- <- <-].
    + split; [|split; [done|]].
      * split; [by apply clear_pcrs_cleared | done].
      * intros _. by eapply quote_tpm_steps_outputs.
    + split; [|split; [done|done]].
      split; [by apply clear_pcrs_cleared | done].
  - intros [= <- <- <- <-]. by repeat split.
Qed.

Lemma quote_tpm_registry_effect_witness :
  registry_cleared (clear_pcrs selecting_imc)
  /\ pcr_len (clear_pcrs selecting_imc) = 20.
Proof.
  destruct (quote_tpm_registry_effect (example_tss (pcr_value 8) [9; 9])
              selecting_imc (clear_pcrs selecting_imc) false true
              (Some (pcr_value 8)) (Some [9; 9]))
    as [(Hcleared & Hlen & _) _];
    [apply selecting_imc_ok | reflexivity |].
  split; [exact Hcleared | rewrite Hlen; reflexivity].
Defined.

Lemma quote_composite_hash_suffix (prefix hash : list Z) :
  length hash = 20%nat ->
  quote_composite_hash true (prefix ++ hash) = Value hash.
Proof.
  intros Hlen. unfold quote_composite_hash, HASH_SIZE_SHA1.
  rewrite length_app, Hlen.
  destruct (Z.ltb_spec (Z.of_nat (length prefix + 20)) 20); [lia|].
  replace (Z.to_nat (Z.of_nat (length prefix + 20) - 20))
    with (length prefix) by lia.
  by rewrite drop_app_length.
Qed.

Lemma quote_composite_hash_legacy (prefix hash rest : list Z) :
  length prefix = 8%nat -> length hash = 20%nat ->
  quote_composite_hash false (prefix ++ hash ++ rest) = Value hash.
Proof.
  intros Hprefix Hlen. unfold quote_composite_hash, HASH_SIZE_SHA1.
  rewrite !length_app, Hprefix, Hlen.
  destruct (Z.ltb_spec (Z.of_nat (8 + (20 + length rest))) (8 + 20)); [lia|].
  rewrite <- Hprefix, drop_app_length.
  change (Z.to_nat 20) with 20%nat. rewrite <- Hlen.
  by rewrite take_app_length.
Qed.

(** X14: the structure that get_quote_info builds without version info
    holds the SHA-1 of the PCR composite where quote_tpm reads the composite
    hash out of the structure of the TPM: in bytes 8 to 28 of
    TPM_QUOTE_INFO, in the last 20 bytes of TPM_QUOTE_INFO2. *)
Theorem quote_info_composite_hash_position (lib : library_t)
    (this : private_pts_t) (use_quote2 : bool) (comp_hash_algo : Z)
    (sha1 : list Z -> list Z) (comp : chunk_t) :
  quote_preconditions this use_quote2 false = true ->
  create_hasher lib HASH_SHA1 = Some sha1 ->
  composite_output lib comp_hash_algo (pcr_composite this) = Some comp ->
  length (sha1 (pcr_composite this)) = 20%nat ->
  exists info : list Z,
    get_quote_info lib this use_quote2 false comp_hash_algo
    = Ret (true, clear_pcrs this, comp, Some info)
    /\ quote_composite_hash use_quote2 info
       = Value (sha1 (pcr_composite this)).
Proof.
  intros Hpre Hsha1 Hcomp Hlen.
  rewrite (get_quote_info_success lib this use_quote2 false comp_hash_algo
             sha1 comp) by done.
  eexists. split; [done|].
  unfold quote_info, write_data. destruct use_quote2.
  - by apply quote_composite_hash_suffix.
  - cbn [chunk_data bio_writer_create app].
    by apply (quote_composite_hash_legacy [1; 1; 0; 0; 81; 85; 79; 84]).
Qed.

Lemma quote_info_composite_hash_position_witness :
  exists info : list Z,
    get_quote_info example_lib quoting_imv true false 0
    = Ret (true, clear_pcrs quoting_imv, Some (pcr_composite quoting_imv),
           Some info)
    /\ quote_composite_hash true info
       = Value (prefix_digest 20 (pcr_composite quoting_imv)).
Proof.
  apply (quote_info_composite_hash_position example_lib quoting_imv true 0
           (prefix_digest 20)); reflexivity.
Defined.

(** ** The register length *)

Lemma apply_op_keeps_length (this : private_pts_t) (op : registry_op) :
  pcr_len this <> 0 -> pcr_len (apply_op this op) = pcr_len this.
Proof.
  intros Hlen. destruct op as [pcr|pcr pcr_before pcr_after]; cbn [apply_op].
  - unfold select_pcr. destruct (PCR_MAX_NUM <=? pcr); [done|].
    by destruct (Z.land _ _ =? 0).
  - unfold add_pcr. destruct (PCR_MAX_NUM <=? pcr); [done|].
    destruct (negb _ && negb _); [done|].
    destruct (Z.eqb_spec (pcr_len this) 0); [done|].
    by destruct (pcrs this !! Z.to_nat pcr) as [[old|]|].
Qed.

(** X15: a register length other than 0 is final. No sequence of select_pcr
    and add_pcr changes it and clear_pcrs keeps it, so that also on the
    cleared registry add_pcr rejects every value of another length. *)
Theorem register_length_is_final (this : private_pts_t)
    (ops : list registry_op) :
  pcr_len this <> 0 ->
  pcr_len (run_ops this ops) = pcr_len this
  /\ pcr_len (clear_pcrs (run_ops this ops)) = pcr_len this
  /\ forall (pcr : Z) (pcr_before pcr_after : list Z),
       Z.of_nat (length pcr_after) <> pcr_len this ->
       add_pcr (clear_pcrs (run_ops this ops)) pcr pcr_before pcr_after
       = (false, clear_pcrs (run_ops this ops)).
Proof.
  intros Hlen.
  assert (Hrun : pcr_len (run_ops this ops) = pcr_len this).
  { revert this Hlen. induction ops as [|op ops IH]; intros this Hlen; [done|].
    cbn [run_ops foldl]. rewrite <- (apply_op_keeps_length this op Hlen).
    apply IH. by rewrite apply_op_keeps_length. }
  split; [done|]. split; [done|].
  intros pcr pcr_before pcr_after Hafter.
  apply add_pcr_rejects_length;
    change (pcr_len (clear_pcrs (run_ops this ops)))
      with (pcr_len (run_ops this ops)); by rewrite Hrun.
Qed.

Lemma register_length_is_final_witness :
  pcr_len (run_ops (pts_create example_lib true tpm_platform)
             [OpAdd 0 [] (pcr_value 1)]) = 20
  /\ add_pcr (clear_pcrs (run_ops (pts_create example_lib true tpm_platform)
                            [OpAdd 0 [] (pcr_value 1)]))
       0 [] (replicate 32 1)
     = (false,
        clear_pcrs (run_ops (pts_create example_lib true tpm_platform)
                      [OpAdd 0 [] (pcr_value 1)])).
Proof.
  destruct (register_length_is_final
              (pts_create example_lib true tpm_platform)
              [OpAdd 0 [] (pcr_value 1)]) as (Hlen & _ & Hadd);
    [discriminate|].
  split; [exact Hlen|]. apply Hadd. discriminate.
Defined.

(** ** Quoting twice *)

Lemma get_quote_info_true (lib : library_t) (this this' : private_pts_t)
    (use_quote2 use_ver_info : bool) (comp_hash_algo : Z)
    (comp info : chunk_t) :
  get_quote_info lib this use_quote2 use_ver_info comp_hash_algo
  = Ret (true, this', comp, info) ->
  this' = clear_pcrs this.
Proof.
  unfold get_quote_info.
  destruct (pcr_count this =? 0); [done|].
  destruct (chunk_is_null (secret this)); [done|].
  destruct (use_quote2 && use_ver_info && _); [done|].
  destruct (comp_hash_algo =? 0); cbn.
  - destruct (hasher_create lib HASH_SHA1); cbn; [|done]. by intros [= <-].
  - destruct (hasher_create lib (pts_meas_algo_to_hash lib comp_hash_algo));
      cbn; [|done].
    destruct (hasher_create lib HASH_SHA1); cbn; [|done]. by intros [= <-].
Qed.

(** X16: get_quote_info works once. After a call that succeeded the
    registry is empty, and every further call fails without output until
    registers are selected or added again. *)
Theorem get_quote_info_only_once (lib : library_t)
    (this this' : private_pts_t) (use_quote2 use_ver_info : bool)
    (comp_hash_algo : Z) (comp info : chunk_t) :
  get_quote_info lib this use_quote2 use_ver_info comp_hash_algo
  = Ret (true, this', comp, info) ->
  forall (use_quote2' use_ver_info' : bool) (comp_hash_algo' : Z),
    get_quote_info lib this' use_quote2' use_ver_info' comp_hash_algo'
    = Ret (false, this', None, None).
Proof.
  intros Hfirst%get_quote_info_true use_quote2' use_ver_info' comp_hash_algo'.
  by subst this'.
Qed.

Lemma get_quote_info_only_once_witness :
  get_quote_info example_lib (clear_pcrs quoting_imv) true false (2 ^ 15)
  = Ret (false, clear_pcrs quoting_imv, None, None).
Proof.
  apply (get_quote_info_only_once example_lib quoting_imv
           (clear_pcrs quoting_imv) false false 0
           (Some (pcr_composite quoting_imv))
           (Some (quote_info quoting_imv false false
                    (Some (prefix_digest 20 (pcr_composite quoting_imv)))))).
  reflexivity.
Defined.

(** ** Selecting and adding a register twice *)

(** X17: select_pcr is idempotent: a second call for the same register
    returns what the first returned and leaves the object as the first
    left it. *)
Theorem select_pcr_idempotent (this : private_pts_t) (pcr : Z) :
  0 <= pcr -> registry_ok this ->
  select_pcr (snd (select_pcr this pcr)) pcr
  = (fst (select_pcr this pcr), snd (select_pcr this pcr)).
Proof.
  intros Hpcr Hok.
  destruct (Z.leb_spec PCR_MAX_NUM pcr) as [Hbig|Hsmall].
  - unfold select_pcr. apply Z.leb_le in Hbig. by rewrite Hbig.
  - assert (Htest : forall s,
               select_pcr s pcr
               = if pcr_selected s pcr then (true, s)
                 else (true,
                       set_registry (pcrs s) (pcr_len s)
                         ((pcr_count s + 1) mod 2 ^ 32)
                         (Z.max (pcr_max s) pcr)
                         (<[Z.to_nat (pcr / 8) :=
                              Z.lor (default 0 (pcr_select s
                                                !! Z.to_nat (pcr / 8)))
                                    (Z.shiftl 1 (pcr mod 8)) mod 256]>
                            (pcr_select s)) s)).
    { intros s. unfold select_pcr.
      destruct (Z.leb_spec PCR_MAX_NUM pcr); [lia|].
      rewrite land_pow2_eqb by (Z.div_mod_to_equations; lia).
      rewrite <- Z.mod_eq by done. fold (pcr_selected s pcr).
      by destruct (pcr_selected s pcr). }
    rewrite (Htest this).
    destruct (pcr_selected this pcr) eqn:Hsel; cbn [fst snd].
    + by rewrite Htest, Hsel.
    + match goal with |- select_pcr ?s _ = _ => set (this' := s) end.
      destruct (selected_count_set_bit this this' pcr) as [Hbit _];
        [done | apply (ok_select _ Hok) | reflexivity |].
      by rewrite Htest, Hbit, Z.eqb_refl by done.
Qed.

Lemma select_pcr_idempotent_witness :
  select_pcr (snd (select_pcr fresh_imv 9)) 9
  = (true, snd (select_pcr fresh_imv 9))
  /\ pcr_count (snd (select_pcr (snd (select_pcr fresh_imv 9)) 9)) = 1.
Proof.
  split; [|reflexivity].
  apply (select_pcr_idempotent fresh_imv 9); [lia|].
  apply pts_create_registry_ok.
Defined.

(** Where add_pcr returns, it returns what [add_pcr] gives. *)
Lemma add_pcr_run_returns (this : private_pts_t) (pcr : Z)
    (pcr_before pcr_after : list Z) (result : bool * private_pts_t) :
  add_pcr_run this pcr pcr_before pcr_after = Value result ->
  result = add_pcr this pcr pcr_before pcr_after.
Proof.
  unfold add_pcr_run, add_pcr.
  destruct (PCR_MAX_NUM <=? pcr); [by intros [= <-]|].
  destruct (negb _ && negb _); [by intros [= <-]|].
  destruct (pcrs this !! Z.to_nat pcr) as [[old|]|];
    [destruct (_ || _); [done|] | |]; by intros [= <-].
Qed.

(** X18: add_pcr for a register that holds a value, called with a
    pcr_before of at least pcr_len bytes, replaces the value and counts
    nothing anew: pcr_count, pcr_max, the bitmap, the register length and
    the number of stored values stay as they are. The bound on pcr_before
    is what the comparison with the stored value needs: it reads pcr_len
    bytes at pcr_before.ptr without looking at pcr_before.len. *)
Theorem add_pcr_again_replaces (this s1 : private_pts_t) (pcr : Z)
    (before1 after1 before2 after2 : list Z) :
  registry_ok this -> 0 <= pcr -> after1 <> [] ->
  length after2 = length after1 ->
  (length after1 <= length before2)%nat ->
  add_pcr_run this pcr before1 after1 = Value (true, s1) ->
  exists s2,
    add_pcr_run s1 pcr before2 after2 = Value (true, s2)
    /\ pcrs s2 = <[Z.to_nat pcr := Some after2]> (pcrs s1)
    /\ pcr_count s2 = pcr_count s1 /\ pcr_max s2 = pcr_max s1
    /\ pcr_select s2 = pcr_select s1 /\ pcr_len s2 = pcr_len s1
    /\ populated_count s2 = populated_count s1.
Proof.
  intros Hok Hpcr Hne Hlen Hbefore Hfirst%add_pcr_run_returns.
  symmetry in Hfirst.
  pose proof (add_pcr_fixes_length _ _ _ _ _ Hfirst) as Hlen1.
  assert (Hnz : pcr_len s1 <> 0) by (destruct after1; [done | simpl in *; lia]).
  assert (Hsmall : pcr < PCR_MAX_NUM).
  { destruct (Z.leb_spec PCR_MAX_NUM pcr) as [Hbig|]; [|done].
    by rewrite add_pcr_rejects_index in Hfirst. }
  assert (Hslot : pcrs s1 !! Z.to_nat pcr = Some (Some after1)).
  { revert Hfirst. unfold add_pcr.
    destruct (Z.leb_spec PCR_MAX_NUM pcr); [lia|].
    destruct (negb _ && negb _); [done|].
    assert (Hidx : (Z.to_nat pcr < length (pcrs this))%nat)
      by (rewrite (ok_slots _ Hok); unfold PCR_MAX_NUM in *; lia).
    destruct (pcrs this !! Z.to_nat pcr) as [[old|]|]; intros [= <-];
      cbn [pcrs set_registry]; by rewrite list_lookup_insert_eq. }
  unfold add_pcr_run, add_pcr.
  destruct (Z.leb_spec PCR_MAX_NUM pcr); [lia|].
  destruct (Z.eqb_spec (pcr_len s1) 0); [done|].
  destruct (Z.eqb_spec (Z.of_nat (length after2)) (pcr_len s1)); [|lia].
  cbn [negb andb]. rewrite Hslot.
  destruct (Z.ltb_spec (Z.of_nat (length after1)) (pcr_len s1)); [lia|].
  destruct (Z.ltb_spec (Z.of_nat (length before2)) (pcr_len s1)); [lia|].
  cbn [orb]. eexists. split; [done|].
  cbn [pcrs pcr_count pcr_max pcr_select pcr_len set_registry].
  repeat (split; [done|]).
  unfold populated_count. cbn [pcrs set_registry]. f_equal.
  exact (proj1 (populated_insert _ _ after2) after1 Hslot).
Qed.

Lemma add_pcr_again_replaces_witness :
  exists s2,
    add_pcr_run (snd (add_pcr fresh_imv 5 [] (pcr_value 1))) 5 (pcr_value 1)
      (pcr_value 2)
    = Value (true, s2)
    /\ pcrs s2 !! 5%nat = Some (Some (pcr_value 2))
    /\ pcr_count s2 = 1.
Proof.
  destruct (add_pcr_again_replaces fresh_imv
              (snd (add_pcr fresh_imv 5 [] (pcr_value 1))) 5
              [] (pcr_value 1) (pcr_value 1) (pcr_value 2))
    as (s2 & Hadd & Htbl & Hcount & _);
    [apply pts_create_registry_ok | lia | discriminate | reflexivity
     | reflexivity | reflexivity |].
  exists s2. split; [exact Hadd|]. split.
  - rewrite Htbl. reflexivity.
  - rewrite Hcount. reflexivity.
Defined.

(** ** Counting registers *)

Lemma select_pcr_counts (this : private_pts_t) (pcr : Z) :
  0 <= pcr -> registry_ok this -> pcr_count this = selected_count this ->
  pcr_count (snd (select_pcr this pcr))
  = selected_count (snd (select_pcr this pcr)).
Proof.
  intros Hpcr Hok Hcount. unfold select_pcr.
  destruct (Z.leb_spec PCR_MAX_NUM pcr); [done|].
  rewrite land_pow2_eqb by (Z.div_mod_to_equations; lia).
  rewrite <- Z.mod_eq by done.
  fold (pcr_selected this pcr).
  destruct (pcr_selected this pcr) eqn:Hsel; [done|].
  cbn [negb snd].
  match goal with |- _ = selected_count ?s => set (this' := s) in * end.
  destruct (selected_count_set_bit this this' pcr) as [_ Hcnt];
    [done | apply (ok_select _ Hok) | reflexivity |].
  rewrite Hsel in Hcnt. rewrite Hcnt.
  destruct (populated_count_bound this) as [Hsc _].
  subst this'. cbn [pcr_count set_registry]. rewrite Z.mod_small; lia.
Qed.

(** X19: as long as registers are only selected, pcr_count is the number
    of bits set in the selection bitmap, and no value is stored. *)
Theorem select_pcr_counts_selection (this : private_pts_t)
    (ops : list registry_op) :
  Forall (fun op => match op with
                    | OpSelect pcr => 0 <= pcr
                    | OpAdd _ _ _ => False
                    end) ops ->
  registry_ok this -> pcr_count this = selected_count this ->
  pcr_count (run_ops this ops) = selected_count (run_ops this ops)
  /\ pcrs (run_ops this ops) = pcrs this.
Proof.
  intros Hops. revert this.
  induction Hops as [|op ops Hop _ IH]; intros this Hok Hcount; [done|].
  destruct op as [pcr|]; [|done]. cbn [run_ops foldl apply_op].
  destruct (IH (snd (select_pcr this pcr))) as [Hcount' Htbl'].
  - by apply select_pcr_registry_ok.
  - by apply select_pcr_counts.
  - split; [done|]. unfold run_ops in Htbl'. rewrite Htbl'.
    unfold select_pcr. destruct (PCR_MAX_NUM <=? pcr); [done|].
    by destruct (Z.land _ _ =? 0).
Qed.

Lemma select_pcr_counts_selection_witness :
  pcr_count (run_ops fresh_imv [OpSelect 3; OpSelect 3; OpSelect 20]) = 2
  /\ selected_count (run_ops fresh_imv [OpSelect 3; OpSelect 3; OpSelect 20])
     = 2.
Proof.
  destruct (select_pcr_counts_selection fresh_imv
              [OpSelect 3; OpSelect 3; OpSelect 20]) as [Hcount _].
  - repeat constructor; lia.
  - apply pts_create_registry_ok.
  - reflexivity.
  - split; [reflexivity|]. rewrite <- Hcount. reflexivity.
Defined.

Lemma empty_registry_exact (this : private_pts_t) :
  registry_ok this -> pcrs this = replicate (Z.to_nat PCR_MAX_NUM) None ->
  pcr_select this = [0; 0; 0] -> pcr_count this = 0 ->
  registry_exact this.
Proof.
  intros Hok Htbl Hsel Hcount.
  assert (Hnone : forall pcr, pcr_selected this pcr = false).
  { intros pcr. unfold pcr_selected. rewrite Hsel.
    assert (Hbyte : forall i : nat, default 0 ([0; 0; 0] !! i) = 0)
      by (intros [|[|[|i]]]; done).
    by rewrite Hbyte, Z.bits_0. }
  split; [done| | |].
  - intros pcr _ Hpcr. by rewrite Hnone in Hpcr.
  - rewrite Hcount. unfold selected_count, pcr_selected. by rewrite Hsel.
  - rewrite Hcount. unfold populated_count. by rewrite Htbl.
Qed.

Lemma add_pcr_registry_exact (this : private_pts_t) (pcr : Z)
    (pcr_before pcr_after : list Z) :
  0 <= pcr -> registry_exact this ->
  registry_exact (snd (add_pcr this pcr pcr_before pcr_after)).
Proof.
  intros Hpcr Hexact.
  pose proof (add_pcr_registry_ok this pcr pcr_before pcr_after Hpcr
                (exact_ok _ Hexact)) as Hok'.
  destruct Hexact as [Hok Hstored Hsel Hpop].
  revert Hok'. unfold add_pcr.
  destruct (Z.leb_spec PCR_MAX_NUM pcr); [by split|].
  destruct (negb _ && negb _); [by split|].
  destruct (populated_count_bound this) as [Hsc Hpc].
  assert (Hidx : (Z.to_nat pcr < length (pcrs this))%nat)
    by (rewrite (ok_slots _ Hok); unfold PCR_MAX_NUM in *; lia).
  destruct (pcrs this !! Z.to_nat pcr) as [[old|]|] eqn:Hslot; cbn [snd].
  - (* the slot holds a value: it is replaced *)
    intros Hok'.
    match goal with |- registry_exact ?s => set (this' := s) in * end.
    split; [done| | |].
    + intros i Hi.
      change (pcr_selected this' i) with (pcr_selected this i).
      intros [value Hvalue]%Hstored; [|done].
      subst this'. cbn [pcrs set_registry].
      destruct (decide (Z.to_nat pcr = Z.to_nat i)) as [<-|Hne].
      * rewrite list_lookup_insert_eq by done. by eexists.
      * rewrite list_lookup_insert_ne by done. by eexists.
    + change (selected_count this') with (selected_count this).
      by change (pcr_count this') with (pcr_count this).
    + change (pcr_count this') with (pcr_count this). rewrite Hpop.
      unfold populated_count. subst this'. cbn [pcrs set_registry].
      f_equal. symmetry.
      exact (proj1 (populated_insert _ _ pcr_after) old Hslot).
  - (* the slot is empty: the register is added *)
    intros Hok'.
    match goal with |- registry_exact ?s => set (this' := s) in * end.
    destruct (selected_count_set_bit this this' pcr) as [Hbit Hcnt];
      [done | apply (ok_select _ Hok) | reflexivity |].
    assert (Hunset : pcr_selected this pcr = false).
    { destruct (pcr_selected this pcr) eqn:Hset; [|done].
      destruct (Hstored pcr) as [value Hvalue]; [done..|].
      by rewrite Hslot in Hvalue. }
    rewrite Hunset in Hcnt.
    assert (Hnew : pcr_count this' = pcr_count this + 1).
    { subst this'. cbn [pcr_count set_registry]. apply Z.mod_small. lia. }
    split; [done| | |].
    + intros i Hi. rewrite Hbit by done.
      subst this'. cbn [pcrs set_registry].
      destruct (decide (pcr = i)) as [<-|Hne].
      * intros _. rewrite list_lookup_insert_eq by done. by eexists.
      * rewrite list_lookup_insert_ne by lia.
        destruct (Z.eqb_spec pcr i); [done|]. cbn [orb]. by apply Hstored.
    + lia.
    + rewrite Hnew, Hpop. unfold populated_count. subst this'.
      cbn [pcrs set_registry].
      transitivity (Z.of_nat (S (length (omap id (pcrs this))))); [lia|].
      f_equal. symmetry.
      exact (proj2 (populated_insert _ _ pcr_after) Hslot).
  - apply lookup_ge_None in Hslot. lia.
Qed.

Lemma run_adds_registry_exact (this : private_pts_t)
    (ops : list registry_op) :
  Forall (fun op => match op with
                    | OpSelect _ => False
                    | OpAdd pcr _ pcr_after => 0 <= pcr /\ pcr_after <> []
                    end) ops ->
  registry_exact this -> values_ok this ->
  registry_exact (run_ops this ops) /\ values_ok (run_ops this ops).
Proof.
  intros Hops. revert this.
  induction Hops as [|op ops Hop _ IH]; intros this Hexact Hvalues; [done|].
  destruct op as [|pcr pcr_before pcr_after]; [done|]. destruct Hop.
  cbn [run_ops foldl apply_op]. apply IH.
  - by apply add_pcr_registry_exact.
  - by apply add_pcr_values_ok.
Qed.

(** X20: as long as registers are only added, with values that are not
    empty, pcr_count is the number of stored values and the number of bits
    set in the bitmap, and the length field of the PCR composite,
    pcr_count * pcr_len, is the length of the values that follow it. This
    holds from pts_create on and after every clear_pcrs. *)
Theorem add_pcr_counts_values (lib : library_t) (imc : bool)
    (pf : platform_t) (this : private_pts_t) (ops : list registry_op) :
  Forall (fun op => match op with
                    | OpSelect _ => False
                    | OpAdd pcr _ pcr_after => 0 <= pcr /\ pcr_after <> []
                    end) ops ->
  registry_ok this ->
  (pcr_count (run_ops (pts_create lib imc pf) ops)
   = populated_count (run_ops (pts_create lib imc pf) ops)
   /\ pcr_count (run_ops (pts_create lib imc pf) ops)
      = selected_count (run_ops (pts_create lib imc pf) ops)
   /\ Z.of_nat (length (concat (stored_values
                                  (run_ops (pts_create lib imc pf) ops))))
      = pcr_count (run_ops (pts_create lib imc pf) ops)
        * pcr_len (run_ops (pts_create lib imc pf) ops))
  /\ (pcr_count (run_ops (clear_pcrs this) ops)
      = populated_count (run_ops (clear_pcrs this) ops)
      /\ pcr_count (run_ops (clear_pcrs this) ops)
         = selected_count (run_ops (clear_pcrs this) ops)
      /\ Z.of_nat (length (concat (stored_values
                                     (run_ops (clear_pcrs this) ops))))
         = pcr_count (run_ops (clear_pcrs this) ops)
           * pcr_len (run_ops (clear_pcrs this) ops)).
Proof.
  intros Hops Hok.
  assert (Hfrom : forall s, registry_exact s -> values_ok s ->
             pcr_count (run_ops s ops) = populated_count (run_ops s ops)
             /\ pcr_count (run_ops s ops) = selected_count (run_ops s ops)
             /\ Z.of_nat (length (concat (stored_values (run_ops s ops))))
                = pcr_count (run_ops s ops) * pcr_len (run_ops s ops)).
  { intros s Hexact Hvalues.
    destruct (run_adds_registry_exact s ops Hops Hexact Hvalues)
      as [Hexact' Hvalues'].
    split; [apply (exact_populated _ Hexact')|].
    split; [apply (exact_selected _ Hexact')|].
    rewrite stored_values_length by done.
    by rewrite (exact_populated _ Hexact'). }
  split; apply Hfrom.
  - apply empty_registry_exact; [apply pts_create_registry_ok|..];
      unfold pts_create; by destruct imc, (probe_tpm_version_info pf).
  - apply pts_create_registry_ok.
  - destruct (clear_pcrs_cleared this Hok) as (Htbl & Hcount & _ & Hsel).
    apply empty_registry_exact; [by apply clear_pcrs_registry_ok|done..].
  - by apply clear_pcrs_registry_ok.
Qed.

Lemma add_pcr_counts_values_witness :
  pcr_count (run_ops fresh_imv
               [OpAdd 4 [] (pcr_value 1); OpAdd 4 (pcr_value 1) (pcr_value 2);
                OpAdd 9 [] (pcr_value 3)]) = 2
  /\ Z.of_nat (length (concat (stored_values
       (run_ops fresh_imv
          [OpAdd 4 [] (pcr_value 1); OpAdd 4 (pcr_value 1) (pcr_value 2);
           OpAdd 9 [] (pcr_value 3)])))) = 2 * 20.
Proof.
  destruct (add_pcr_counts_values example_lib false bare_platform fresh_imv
              [OpAdd 4 [] (pcr_value 1); OpAdd 4 (pcr_value 1) (pcr_value 2);
               OpAdd 9 [] (pcr_value 3)]) as [(_ & _ & Hlen) _].
  - repeat constructor; (lia || discriminate).
  - apply pts_create_registry_ok.
  - split; [reflexivity | exact Hlen].
Defined.

(** ** Both sides of the negotiation *)

Lemma calculate_secret_inputs (lib : library_t) (this other : private_pts_t)
    (d d' : diffie_hellman_t) :
  chunk_len (initiator_nonce this) = chunk_len (initiator_nonce other) ->
  chunk_data (initiator_nonce this) = chunk_data (initiator_nonce other) ->
  chunk_len (responder_nonce this) = chunk_len (responder_nonce other) ->
  chunk_data (responder_nonce this) = chunk_data (responder_nonce other) ->
  dh_hash_algorithm this = dh_hash_algorithm other ->
  dh this = Some d -> dh other = Some d' ->
  get_shared_secret lib d = get_shared_secret lib d' ->
  (calculate_secret lib this = NullDeref
   <-> calculate_secret lib other = NullDeref)
  /\ forall ok ok' this' other',
       calculate_secret lib this = Ret (ok, this') ->
       calculate_secret lib other = Ret (ok', other') ->
       ok = ok' /\ (ok = true -> secret this' = secret other').
Proof.
  intros Hil Hid Hrl Hrd Halg Hdh Hdh' Hshared. unfold calculate_secret.
  rewrite Hil, Hid, Hrl, Hrd, Halg, Hdh, Hdh'. cbn. rewrite Hshared.
  destruct ((chunk_len (initiator_nonce other) =? 0)
            || (chunk_len (responder_nonce other) =? 0)).
  { split; [done|]. by intros ok ok' this' other' [= <- <-] [= <- <-]. }
  destruct (get_shared_secret lib d') as [shared_secret|].
  2: { split; [done|]. by intros ok ok' this' other' [= <- <-] [= <- <-]. }
  destruct (hasher_create lib _) as [hasher|]; cbn; [|done].
  split; [done|]. by intros ok ok' this' other' [= <- <-] [= <- <-].
Qed.

(** X21: the two sides derive the same assessment secret. When an IMC-PTS
    and an IMV-PTS that use the same DH hash algorithm hand each other what
    get_my_public_value returns, and their DH objects agree on the shared
    secret, calculate_secret gives the same return value on both sides and,
    where it succeeds, the same secret. *)
Theorem negotiated_secrets_agree (lib : library_t)
    (imc imv imc' imv' : private_pts_t) (value_c value_v : list Z)
    (nonce_c nonce_v : chunk_t) :
  is_imc imc = true -> is_imc imv = false ->
  dh_hash_algorithm imc = dh_hash_algorithm imv ->
  get_my_public_value lib imc = Ret (value_c, nonce_c) ->
  get_my_public_value lib imv = Ret (value_v, nonce_v) ->
  set_peer_public_value imc value_v (chunk_data nonce_v) = Ret imc' ->
  set_peer_public_value imv value_c (chunk_data nonce_c) = Ret imv' ->
  (forall d d', dh imc' = Some d -> dh imv' = Some d' ->
     get_shared_secret lib d = get_shared_secret lib d') ->
  (calculate_secret lib imc' = NullDeref
   <-> calculate_secret lib imv' = NullDeref)
  /\ forall ok ok' imc'' imv'',
       calculate_secret lib imc' = Ret (ok, imc'') ->
       calculate_secret lib imv' = Ret (ok', imv'') ->
       ok = ok' /\ (ok = true -> secret imc'' = secret imv'').
Proof.
  intros Himc Himv Halg Hmy_c Hmy_v Hset_c Hset_v Hshared.
  unfold get_my_public_value in Hmy_c, Hmy_v.
  unfold set_peer_public_value in Hset_c, Hset_v.
  destruct (dh imc) as [dc|]; [|done]. destruct (dh imv) as [dv|]; [|done].
  cbn in Hmy_c, Hmy_v, Hset_c, Hset_v.
  rewrite Himc in Hmy_c, Hset_c. rewrite Himv in Hmy_v, Hset_v.
  simplify_eq.
  eapply calculate_secret_inputs; cbn; try done.
  - by destruct (initiator_nonce imv).
  - by destruct (responder_nonce imc).
  - by apply Hshared.
Qed.

Lemma negotiated_secrets_agree_witness :
  exists imc'' imv'',
    calculate_secret example_lib
      (set_initiator_nonce (Some (replicate 20 7))
         (set_dh (Some {| dh_group := 14;
                          dh_other_public_value := Some [2] |}) nonce_imc))
    = Ret (true, imc'')
    /\ calculate_secret example_lib
         (set_responder_nonce (Some (replicate 20 7))
            (set_dh (Some {| dh_group := 14;
                             dh_other_public_value := Some [2] |}) nonce_imv))
       = Ret (true, imv'')
    /\ secret imc'' = secret imv''.
Proof.
  eexists _, _. split; [reflexivity|]. split; [reflexivity|].
  destruct (negotiated_secrets_agree example_lib nonce_imc nonce_imv
              (set_initiator_nonce (Some (replicate 20 7))
                 (set_dh (Some {| dh_group := 14;
                                  dh_other_public_value := Some [2] |})
                    nonce_imc))
              (set_responder_nonce (Some (replicate 20 7))
                 (set_dh (Some {| dh_group := 14;
                                  dh_other_public_value := Some [2] |})
                    nonce_imv))
              [2] [2] (Some (replicate 20 7)) (Some (replicate 20 7)))
    as [_ Hagree];
    [reflexivity | reflexivity | reflexivity | reflexivity | reflexivity
     | reflexivity | reflexivity | |].
  - intros d d' [= <-] [= <-]. reflexivity.
  - destruct (Hagree true true _ _ eq_refl eq_refl) as [_ Hsecret].
    exact (Hsecret eq_refl).
Defined.

(** ** Algorithms *)

(** X22: the algorithm setters never store an algorithm without hash. When
    the measurement algorithm and the DH hash algorithm map to a hash, they
    still do after every sequence of set_meas_algorithm and
    set_dh_hash_algorithm, whatever algorithms are asked for; the registry
    and the assessment secret are not touched. *)
Theorem algorithms_stay_supported (lib : library_t) (this : private_pts_t)
    (ops : list algorithm_op) :
  hash_known (pts_meas_algo_to_hash lib (algorithm this)) = true ->
  hash_known (pts_meas_algo_to_hash lib (dh_hash_algorithm this)) = true ->
  hash_known (pts_meas_algo_to_hash lib
                (get_meas_algorithm (foldl (apply_algorithm_op lib) this ops)))
  = true
  /\ hash_known (pts_meas_algo_to_hash lib
                   (get_dh_hash_algorithm
                      (foldl (apply_algorithm_op lib) this ops)))
     = true
  /\ pcrs (foldl (apply_algorithm_op lib) this ops) = pcrs this
  /\ pcr_count (foldl (apply_algorithm_op lib) this ops) = pcr_count this
  /\ pcr_select (foldl (apply_algorithm_op lib) this ops) = pcr_select this
  /\ secret (foldl (apply_algorithm_op lib) this ops) = secret this.
Proof.
  revert this. induction ops as [|op ops IH]; intros this Hmeas Hdh; [done|].
  cbn [foldl].
  assert (Hstep :
            hash_known (pts_meas_algo_to_hash lib
                          (algorithm (apply_algorithm_op lib this op))) = true
            /\ hash_known (pts_meas_algo_to_hash lib
                             (dh_hash_algorithm
                                (apply_algorithm_op lib this op))) = true
            /\ pcrs (apply_algorithm_op lib this op) = pcrs this
            /\ pcr_count (apply_algorithm_op lib this op) = pcr_count this
            /\ pcr_select (apply_algorithm_op lib this op) = pcr_select this
            /\ secret (apply_algorithm_op lib this op) = secret this).
  { destruct op as [alg|alg]; cbn [apply_algorithm_op];
      unfold set_meas_algorithm, set_dh_hash_algorithm;
      destruct (hash_known (pts_meas_algo_to_hash lib alg)) eqn:Halg;
      by repeat split. }
  destruct Hstep as (Hmeas' & Hdh' & Htbl & Hcount & Hsel & Hsecret).
  destruct (IH _ Hmeas' Hdh') as (? & ? & -> & -> & -> & ->).
  by repeat split.
Qed.

Lemma algorithms_stay_supported_witness :
  get_meas_algorithm
    (foldl (apply_algorithm_op example_lib) fresh_imv
       [OpSetMeas (2 ^ 15); OpSetMeas 1; OpSetDhHash 0])
  = 2 ^ 15
  /\ hash_known
       (pts_meas_algo_to_hash example_lib
          (get_dh_hash_algorithm
             (foldl (apply_algorithm_op example_lib) fresh_imv
                [OpSetMeas (2 ^ 15); OpSetMeas 1; OpSetDhHash 0])))
     = true.
Proof.
  destruct (algorithms_stay_supported example_lib fresh_imv
              [OpSetMeas (2 ^ 15); OpSetMeas 1; OpSetDhHash 0])
    as (_ & Hdh & _); [reflexivity | reflexivity |].
  split; [reflexivity | exact Hdh].
Defined.

(** ** TPM version info *)

(** X23: what set_tpm_version_info stores comes back from
    get_tpm_version_info only on an object with TPM; without TPM the getter
    fails although the info is stored. Stored, the info lets get_quote_info
    pass its test for the version info, so that only the tests for the
    registers and the secret remain. The info is taken not to be empty:
    what chunk_clone makes of an empty chunk is not part of pts.c. *)
Theorem tpm_version_info_round_trip (this : private_pts_t) (info : list Z) :
  info <> [] ->
  get_tpm_version_info (set_tpm_version_info this info)
  = (if has_tpm this then (true, Some info) else (false, chunk_empty))
  /\ forall use_quote2 use_ver_info : bool,
       quote_preconditions (set_tpm_version_info this info)
         use_quote2 use_ver_info
       = quote_preconditions this false false.
Proof.
  intros _. split.
  - unfold get_tpm_version_info, set_tpm_version_info. cbn.
    by destruct (has_tpm this).
  - intros use_quote2 use_ver_info. unfold quote_preconditions. cbn.
    by rewrite andb_false_r.
Qed.

Lemma tpm_version_info_round_trip_witness :
  get_tpm_version_info (set_tpm_version_info fresh_imv (replicate 15 4))
  = (false, chunk_empty)
  /\ quote_preconditions
       (set_tpm_version_info quoting_imv (replicate 15 4)) true true = true.
Proof.
  split.
  - apply (tpm_version_info_round_trip fresh_imv (replicate 15 4)).
    discriminate.
  - destruct (tpm_version_info_round_trip quoting_imv (replicate 15 4))
      as [_ Hpre]; [discriminate|].
    rewrite Hpre. reflexivity.
Defined.

(** ** The AIK *)

Lemma run_ops_keeps_aik (this : private_pts_t) (ops : list registry_op) :
  aik (run_ops this ops) = aik this.
Proof.
  revert this. induction ops as [|op ops IH]; intros this; [done|].
  cbn [run_ops foldl]. unfold run_ops in IH. rewrite IH.
  destruct op as [pcr|pcr pcr_before pcr_after]; cbn [apply_op].
  - unfold select_pcr. destruct (PCR_MAX_NUM <=? pcr); [done|].
    by destruct (Z.land _ _ =? 0).
  - unfold add_pcr. destruct (PCR_MAX_NUM <=? pcr); [done|].
    destruct (negb _ && negb _); [done|].
    by destruct (pcrs this !! Z.to_nat pcr) as [[old|]|].
Qed.

(** X24: an AIK, once set, stays. No registry operation, no step of the
    secret negotiation, no quote and no algorithm setter removes or replaces
    it, so that verify_quote_signature after any of them has a credential
    to follow. *)
Theorem aik_is_kept (lib : library_t) (tss : tss_t) (this : private_pts_t)
    (cert : certificate_t) :
  (forall ops, aik (run_ops (set_aik this cert) ops) = Some cert)
  /\ aik (clear_pcrs (set_aik this cert)) = Some cert
  /\ (forall group nonce_len,
        aik (snd (create_dh_nonce lib (set_aik this cert) group nonce_len))
        = Some cert)
  /\ (forall value nonce this',
        set_peer_public_value (set_aik this cert) value nonce = Ret this' ->
        aik this' = Some cert)
  /\ (forall ok this',
        calculate_secret lib (set_aik this cert) = Ret (ok, this') ->
        aik this' = Some cert)
  /\ (forall use_quote2 use_ver_info comp_hash_algo ok this' comp info,
        get_quote_info lib (set_aik this cert) use_quote2 use_ver_info
          comp_hash_algo = Ret (ok, this', comp, info) ->
        aik this' = Some cert)
  /\ (forall use_quote2 ok this' comp sig,
        quote_tpm tss (set_aik this cert) use_quote2
        = Value (ok, this', comp, sig) ->
        aik this' = Some cert)
  /\ (forall ops,
        aik (foldl (apply_algorithm_op lib) (set_aik this cert) ops)
        = Some cert)
  /\ (forall info,
        aik (set_tpm_version_info (set_aik this cert) info) = Some cert).
Proof.
  generalize (eq_refl : aik (set_aik this cert) = Some cert).
  generalize (set_aik this cert). clear this. intros this Haik.
  split; [intros ops; by rewrite run_ops_keeps_aik|].
  split; [done|].
  split.
  { intros group nonce_len. unfold create_dh_nonce.
    destruct (create_rng lib); [|done]. by destruct (is_imc _). }
  split.
  { intros value nonce this'. unfold set_peer_public_value.
    destruct (dh this); [|done]. cbn. intros [= <-].
    by destruct (is_imc this). }
  split.
  { intros ok this'. unfold calculate_secret.
    destruct (_ || _); [by intros [= <- <-]|].
    destruct (dh this) as [d|]; [|done]. cbn.
    destruct (get_shared_secret lib d); [|by intros [= <- <-]].
    destruct (hasher_create lib _); [|done]. cbn. by intros [= <- <-]. }
  split.
  { intros use_quote2 use_ver_info comp_hash_algo ok this' comp info.
    unfold get_quote_info.
    destruct (pcr_count this =? 0); [by intros [= <- <- <- <-]|].
    destruct (chunk_is_null (secret this)); [by intros [= <- <- <- <-]|].
    destruct (use_quote2 && use_ver_info && _); [by intros [= <- <- <- <-]|].
    destruct (comp_hash_algo =? 0); cbn.
    - destruct (hasher_create lib HASH_SHA1); cbn; [|done].
      by intros [= <- <- <- <-].
    - destruct (hasher_create lib (pts_meas_algo_to_hash lib comp_hash_algo));
        cbn; [|done].
      destruct (hasher_create lib HASH_SHA1); cbn; [|done].
      by intros [= <- <- <- <-]. }
  split.
  { intros use_quote2 ok this' comp sig. unfold quote_tpm.
    destruct (negb _); [by intros [= <- <- <- <-]|].
    destruct (quote_tpm_steps tss this use_quote2) as [[[c s]|]|]; cbn;
      [by intros [= <- <- <- <-] | by intros [= <- <- <- <-] | done]. }
  split; [|done].
  intros ops. revert this Haik.
  induction ops as [|op ops IH]; intros this Haik; [done|].
  cbn [foldl]. apply IH.
  destruct op as [alg|alg]; cbn [apply_algorithm_op];
    unfold set_meas_algorithm, set_dh_hash_algorithm;
    by destruct (hash_known _).
Qed.

(** ** Metadata of a single file *)

(** X25: on a single file dir/name get_metadata gives one entry, what
    file_metadata finds for the whole pathname filed under the last
    component name; it gives NULL when stat fails. *)
Theorem get_metadata_file (fs : filesystem_t) (dir name : string) :
  name <> EmptyString -> strchr name "/"%char = None ->
  get_metadata fs (dir +:+ String "/" name) false
  = Value (entry ← file_metadata fs (dir +:+ String "/" name);
           Some [set_meta_filename entry name]).
Proof.
  intros Hname Hslash. unfold get_metadata.
  destruct (file_metadata fs (dir +:+ String "/" name)) as [entry|]; [|done].
  rewrite (get_filename_dir dir name name); [done|].
  intros fuel c filename Hfuel. by apply get_filename_loop_name.
Qed.

Lemma get_metadata_file_witness :
  get_metadata example_fs "/etc/tnc/a.conf" false
  = Value (Some [regular_metadata "a.conf" 3]).
Proof.
  refine (get_metadata_file example_fs "/etc/tnc" "a.conf" _ _);
    [discriminate | reflexivity].
Defined.

(** ** The platform string *)

Lemma strchr_offset_nonneg (s : list Z) (c offset : Z) :
  strchr_offset s c = Some offset -> 0 <= offset.
Proof.
  revert offset. induction s as [|b s IH]; intros offset; [done|].
  cbn [strchr_offset]. destruct (b =? c); [by intros [= <-]|].
  destruct (strchr_offset s c) as [o|]; [|done].
  cbn. intros [= <-]. specialize (IH o eq_refl). lia.
Qed.

Lemma strstr_offset_nonneg (s needle : list Z) (offset : Z) :
  strstr_offset s needle = Some offset -> 0 <= offset.
Proof.
  revert offset. induction s as [|b s IH]; intros offset; cbn [strstr_offset];
    destruct (bool_decide _); try (by intros [= <-]); try done.
  destruct (strstr_offset s needle) as [o|]; [|done].
  cbn. intros [= <-]. specialize (IH o eq_refl). lia.
Qed.

Lemma scan_release_pos (BUF_LEN i : Z) (file buf : list Z) (value pos : Z) :
  scan_release BUF_LEN i file = Some (buf, value, pos) ->
  0 <= value <= pos.
Proof.
  unfold scan_release.
  set (start := if i =? RELEASE_DEBIAN then _ else _).
  destruct start as [[buf0 pos0] len0] eqn:Hstart.
  assert (Hpos0 : 0 <= pos0).
  { subst start. destruct (i =? RELEASE_DEBIAN); simplify_eq; lia. }
  destruct (i =? RELEASE_LSB).
  - destruct (strstr_offset _ _) as [p|] eqn:Hstr; [|done].
    apply strstr_offset_nonneg in Hstr.
    destruct (strchr_offset _ _) as [q|] eqn:Hchr; [|done].
    apply strchr_offset_nonneg in Hchr.
    intros [= <- <- <-]. lia.
  - destruct (strchr_offset _ _) as [q|] eqn:Hchr; [|done].
    apply strchr_offset_nonneg in Hchr.
    intros [= <- <- <-]. lia.
Qed.

(** X26: extract_platform_info never returns a platform string. Whenever
    a release file is found and scanned and uname succeeds, the length
    given to strncpy, sizeof(buf) - 1 + (pos - buf), exceeds what is left
    of the buffer behind pos, for every buffer size, so that the copy of
    the machine name writes behind the buffer; on every other path the
    function returns NULL. *)
Theorem extract_platform_info_overflows (BUF_LEN : Z) (fs : filesystem_t)
    (uname : option (list Z)) :
  (forall info, extract_platform_info BUF_LEN fs uname <> Value (Some info))
  /\ (extract_platform_info BUF_LEN fs uname = Undefined
      <-> exists i file buf value pos machine,
            first_release fs 0 releases = Some (i, file)
            /\ scan_release BUF_LEN i file = Some (buf, value, pos)
            /\ uname = Some machine).
Proof.
  unfold extract_platform_info.
  destruct (first_release fs 0 releases) as [[i file]|].
  2: { split; [done|]. split; [done|].
       intros (? & ? & ? & ? & ? & ? & ? & _). done. }
  destruct (scan_release BUF_LEN i file) as [[[buf value] pos]|] eqn:Hscan.
  2: { split; [done|]. split; [done|].
       intros (? & ? & ? & ? & ? & ? & ? & ? & _). simplify_eq. }
  destruct uname as [machine|].
  2: { split; [done|]. split; [done|].
       intros (? & ? & ? & ? & ? & ? & _ & _ & ?). done. }
  apply scan_release_pos in Hscan as Hpos.
  destruct (Z.ltb_spec BUF_LEN (pos + 1 + (BUF_LEN - 1 + (pos + 1)))); [|lia].
  split; [done|]. split; [|done]. intros _. by eexists _, _, _, _, _, _.
Qed.

Lemma extract_platform_info_overflows_witness :
  extract_platform_info 512 lsb_fs (Some (codes "x86_64")) = Undefined
  /\ scan_release 512 0
       (codes "DISTRIB_ID=Ubuntu" ++ [10]
        ++ description ++ codes "Ubuntu 12.04 LTS" ++ [34; 10])
     = Some (codes "DISTRIB_ID=Ubuntu" ++ [10]
             ++ description ++ codes "Ubuntu 12.04 LTS" ++ [34; 10],
             39, 55).
Proof.
  split; [|reflexivity].
  apply (proj2 (extract_platform_info_overflows 512 lsb_fs
                  (Some (codes "x86_64")))).
  eexists _, _, _, _, _, _. split; [reflexivity|]. split; reflexivity.
Defined.
